(** * Type merging of the stitching gateway

    A shallow embedding of [packages/stitch/src/mergeCandidates.ts]: the
    merge of the candidate definitions that several subschemas give for one
    named GraphQL type, and the properties of that merge.

    Conventions of the embedding.
    - A JavaScript object used as an ordered dictionary is an association
      list [obj V] in insertion order ([obj_set] keeps the position of a key
      that is already present, as an assignment [o[k] = v] does).  The keys
      met here are GraphQL names, which are never array indices, so
      insertion order is the enumeration order of [for ... in],
      [Object.keys] and [Object.values].
    - [extensions] objects are only ever read by key, and are finite maps.
    - A JavaScript object compared with [!==] carries its identity: a
      candidate has a [cand_id], an interface or member type an identity
      next to its name.
    - A [throw] is the [Err] branch of [result]; every message thrown by
      the source is a constructor of [error], also where the types of the
      embedding rule the [throw] out (a dictionary entry that is null). *)

From Stdlib Require Import Ascii.
From stdpp Require Import base option list strings gmap.

(** ** Errors and the result monad *)

Inductive error : Type :=
| CategoryMismatchError (typeName : string)
| UnknownTypeError (typeName : string)
| ExpectedUnionTypeError (typeName : string)
| FirstCanonicalRequired
| LastCanonicalRequired
| MultipleCanonicalError (subject : string)
| FinalFieldRequired
| FieldConfigRequired
| InputFieldConfigRequired
| InputFieldConfigCandidateRequired
| LastCandidateRequired
| CollaboratorError (message : string).

Definition dquote : string := String "034"%char EmptyString.

(** The message of the [Error] object thrown at each site. *)
Definition error_message (e : error) : string :=
  match e with
  | CategoryMismatchError typeName =>
      "Cannot merge different type categories into common type " +:+ typeName +:+ "."
  | UnknownTypeError typeName => "Type " +:+ typeName +:+ " has unknown GraphQL type."
  | ExpectedUnionTypeError typeName => "Expected " +:+ typeName +:+ " to be a union type!"
  | FirstCanonicalRequired => "First canonical is required"
  | LastCanonicalRequired => "Last canonical is required"
  | MultipleCanonicalError subject =>
      "Multiple canonical definitions for " +:+ dquote +:+ subject +:+ dquote
  | FinalFieldRequired => "Final field is required"
  | FieldConfigRequired => "Field config is required"
  | InputFieldConfigRequired => "'inputFieldConfig' is required"
  | InputFieldConfigCandidateRequired => "Input field config candidate is required"
  | LastCandidateRequired => "Last candidate is required"
  | CollaboratorError message => message
  end.

Inductive result (A : Type) : Type :=
| Ok (a : A)
| Err (e : error).
Arguments Ok {A} a.
Arguments Err {A} e.

#[global] Instance result_ret : MRet result := fun A a => Ok a.
#[global] Instance result_bind : MBind result :=
  fun A B f m => match m with Ok a => f a | Err e => Err e end.
#[global] Instance result_fmap : FMap result :=
  fun A B f m => match m with Ok a => Ok (f a) | Err e => Err e end.

(** A loop whose body may throw: the first error ends it. *)
Fixpoint foldlM {A B : Type} (f : A -> B -> result A) (acc : A) (l : list B) : result A :=
  match l with
  | [] => Ok acc
  | x :: l' => match f acc x with Ok acc' => foldlM f acc' l' | Err e => Err e end
  end.

(** JavaScript truthiness of an optional boolean property. *)
Definition truthy (b : option bool) : bool := default false b.

(** ** Ordered dictionaries *)

Definition obj (V : Type) : Type := list (string * V).

Fixpoint obj_get {V : Type} (k : string) (o : obj V) : option V :=
  match o with
  | [] => None
  | (k', v) :: o' => if decide (k' = k) then Some v else obj_get k o'
  end.

(** [o[k] = v]. *)
Fixpoint obj_set {V : Type} (k : string) (v : V) (o : obj V) : obj V :=
  match o with
  | [] => [(k, v)]
  | (k', v') :: o' =>
      if decide (k' = k) then (k, v) :: o' else (k', v') :: obj_set k v o'
  end.

Definition Object_keys {V : Type} (o : obj V) : list string := map fst o.
Definition Object_values {V : Type} (o : obj V) : list V := map snd o.

(** The keys of a JavaScript object are pairwise distinct. *)
Definition obj_wf {V : Type} (o : obj V) : Prop := NoDup (Object_keys o).

(** [if (m[k]) m[k].push(x) else m[k] = [x]]. *)
Definition obj_push {V : Type} (k : string) (x : V) (m : obj (list V)) : obj (list V) :=
  match obj_get k m with
  | Some l => obj_set k (l ++ [x]) m
  | None => obj_set k [x] m
  end.

(** [Object.assign({}, ...sources)] on dictionaries read by key: each own key
    of a source is assigned to the target, so a later source overwrites the
    keys it shares with an earlier one.  The target is a plain object: the
    assignment of the key [__proto__] goes to the accessor that the target
    inherits from [Object.prototype] and makes no own property (the values
    here are primitives, on which the accessor does nothing at all). *)
Definition Object_assign {V : Type} (sources : list (gmap string V)) : gmap string V :=
  foldl (fun target source => delete "__proto__" source ∪ target) ∅ sources.

(** ** GraphQL values *)

(** A field type: [GraphQLNonNull] wraps a nullable type only. *)
Inductive GraphQLNullableType : Type :=
| NamedTypeRef (name : string)
| GraphQLList (ofNonNull : bool) (ofType : GraphQLNullableType).

Inductive GraphQLType : Type :=
| Nullable (t : GraphQLNullableType)
| GraphQLNonNull (ofType : GraphQLNullableType).

(** [isNullableType] and [getNullableType] of graphql-js: a type is nullable
    unless it is a non-null wrapper, and the nullable form of a type is what
    its non-null wrapper, if any, wraps. *)
Definition isNullableType (t : GraphQLType) : bool :=
  match t with Nullable _ => true | GraphQLNonNull _ => false end.

Definition getNullableType (t : GraphQLType) : GraphQLType :=
  match t with Nullable _ => t | GraphQLNonNull ofType => Nullable ofType end.

(** Syntax-tree nodes: a field node, and a type definition node with its
    list of field nodes. *)
Record FieldNode : Type := { fn_name : string; fn_loc : nat }.
Record AstNode : Type := { ast_name : string; ast_fields : list FieldNode; ast_loc : nat }.

(** An entry of an [extensionASTNodes] array: an extension node, or (in a
    merged type) the whole array of one candidate. *)
#[local] Unset Elimination Schemes.
Inductive ExtensionItem : Type :=
| ExtensionNode (name : string) (loc : nat)
| ExtensionArray (items : list ExtensionItem).
#[local] Set Elimination Schemes.

(** Values held by [extensions]. *)
Inductive JsValue : Type :=
| JsNumber (n : Z)
| JsString (s : string)
| JsBool (b : bool).

Record GraphQLFieldConfig : Type := {
  fc_type : GraphQLType;
  fc_description : option string;
  fc_deprecationReason : option string;
  fc_astNode : option FieldNode }.

Record GraphQLInputFieldConfig : Type := {
  ifc_type : GraphQLType;
  ifc_description : option string;
  ifc_astNode : option FieldNode }.

Record GraphQLEnumValueConfig : Type := {
  evc_description : option string;
  evc_deprecationReason : option string }.

(** [{ ...finalField, type }]. *)
Definition with_type (f : GraphQLFieldConfig) (t : GraphQLType) : GraphQLFieldConfig :=
  {| fc_type := t;
     fc_description := fc_description f;
     fc_deprecationReason := fc_deprecationReason f;
     fc_astNode := fc_astNode f |}.

(** An interface, or a member object type of a union, as another type refers
    to it: the object's name and its identity. *)
Record TypeRef : Type := { ref_name : string; ref_id : nat }.

(** A scalar's [serialize], [parseValue] or [parseLiteral] function. *)
Record ScalarFn : Type := { fn_id : nat }.

Inductive TypeCategory : Type :=
| ObjectCategory | InputObjectCategory | InterfaceCategory
| UnionCategory | EnumCategory | ScalarCategory.

#[global] Instance TypeCategory_eq_dec : EqDecision TypeCategory.
Proof. solve_decision. Defined.

(** What the six classes of named type have in common. *)
Record TypeCommon : Type := {
  name : string;
  description : option string;
  astNode : option AstNode;
  extensionASTNodes : option (list ExtensionItem);
  extensions : option (gmap string JsValue) }.

Inductive TypePayload : Type :=
| ObjectPayload (fields : obj GraphQLFieldConfig) (interfaces : list TypeRef)
| InputObjectPayload (fields : obj GraphQLInputFieldConfig)
| InterfacePayload (fields : obj GraphQLFieldConfig) (interfaces : list TypeRef)
| UnionPayload (types : list TypeRef)
| EnumPayload (values : obj GraphQLEnumValueConfig)
| ScalarPayload (serialize parseValue parseLiteral : option ScalarFn)
    (specifiedByURL : option string).

Record GraphQLNamedType : Type := { common : TypeCommon; payload : TypePayload }.

(** [type.constructor]. *)
Definition category (t : GraphQLNamedType) : TypeCategory :=
  match payload t with
  | ObjectPayload _ _ => ObjectCategory
  | InputObjectPayload _ => InputObjectCategory
  | InterfacePayload _ _ => InterfaceCategory
  | UnionPayload _ => UnionCategory
  | EnumPayload _ => EnumCategory
  | ScalarPayload _ _ _ _ => ScalarCategory
  end.

(** [toConfig().fields] of an object or interface type. *)
Definition type_fields (t : GraphQLNamedType) : obj GraphQLFieldConfig :=
  match payload t with
  | ObjectPayload fields _ | InterfacePayload fields _ => fields
  | _ => []
  end.

(** [toConfig().fields] of an input object type. *)
Definition type_inputFields (t : GraphQLNamedType) : obj GraphQLInputFieldConfig :=
  match payload t with InputObjectPayload fields => fields | _ => [] end.

(** [toConfig().interfaces], always an array. *)
Definition type_interfaces (t : GraphQLNamedType) : list TypeRef :=
  match payload t with
  | ObjectPayload _ interfaces | InterfacePayload _ interfaces => interfaces
  | _ => []
  end.

Definition type_types (t : GraphQLNamedType) : list TypeRef :=
  match payload t with UnionPayload types => types | _ => [] end.

Definition type_values (t : GraphQLNamedType) : obj GraphQLEnumValueConfig :=
  match payload t with EnumPayload values => values | _ => [] end.

Definition type_serialize (t : GraphQLNamedType) : option ScalarFn :=
  match payload t with ScalarPayload serialize _ _ _ => serialize | _ => None end.
Definition type_parseValue (t : GraphQLNamedType) : option ScalarFn :=
  match payload t with ScalarPayload _ parseValue _ _ => parseValue | _ => None end.
Definition type_parseLiteral (t : GraphQLNamedType) : option ScalarFn :=
  match payload t with ScalarPayload _ _ parseLiteral _ => parseLiteral | _ => None end.
Definition type_specifiedByURL (t : GraphQLNamedType) : option string :=
  match payload t with ScalarPayload _ _ _ url => url | _ => None end.

(** ** Merge configuration and candidates *)

Record MergedFieldConfig : Type := { mfc_canonical : option bool }.

Record MergedTypeConfig : Type := {
  mtc_canonical : option bool;
  mtc_fields : option (obj MergedFieldConfig) }.

(** A transformed subschema: whether it is a recognized config object, and
    its merge configuration by type name. *)
Record Subschema : Type := {
  recognized : bool;
  merge : option (obj MergedTypeConfig) }.

(** Modelled from the spec: [isSubschemaConfig], of the delegate package, is
    not among the sources.  The spec calls a candidate eligible when its
    transformedSubschema is a recognized config object, and says that the
    transformedSubschema may be absent: a present value is recognized
    according to its flag, an absent one is not. *)
Definition isSubschemaConfig (value : option Subschema) : bool :=
  match value with Some s => recognized s | None => false end.

(** [transformedSubschema.merge?.[typeName]?.canonical] as a condition; the
    source reads it only behind [isSubschemaConfig]. *)
Definition typeCanonical (value : option Subschema) (typeName : string) : bool :=
  truthy (s ← value; m ← merge s; c ← obj_get typeName m; mtc_canonical c).

(** [transformedSubschema.merge?.[typeName]?.fields?.[fieldName]?.canonical]. *)
Definition fieldCanonical (value : option Subschema) (typeName fieldName : string) : bool :=
  truthy (s ← value; m ← merge s; c ← obj_get typeName m; fs ← mtc_fields c;
          f ← obj_get fieldName fs; mfc_canonical f).

Record MergeTypeCandidate : Type := {
  cand_id : nat;
  type : GraphQLNamedType;
  subschema : option nat;
  transformedSubschema : option Subschema }.

Record MergeFieldConfigCandidate : Type := {
  fieldConfig : GraphQLFieldConfig;
  fieldName : string;
  fcc_type : GraphQLNamedType;
  fcc_subschema : option nat;
  fcc_transformedSubschema : option Subschema }.

Record MergeInputFieldConfigCandidate : Type := {
  inputFieldConfig : GraphQLInputFieldConfig;
  ifcc_fieldName : string;
  ifcc_type : GraphQLNamedType;
  ifcc_subschema : option nat;
  ifcc_transformedSubschema : option Subschema }.

Record MergeEnumValueConfigCandidate : Type := {
  enumValueConfig : GraphQLEnumValueConfig;
  enumValue : string;
  evcc_type : GraphQLNamedType;
  evcc_subschema : option nat;
  evcc_transformedSubschema : option Subschema }.

(** The options of a merge: the replaceable stages, the nullability switch,
    and the validation settings, which only the validators read. *)
Record TypeMergingOptions : Type := {
  typeCandidateMerger : option (list MergeTypeCandidate -> result MergeTypeCandidate);
  typeDescriptionsMerger : option (list MergeTypeCandidate -> result (option string));
  fieldConfigMerger : option (list MergeFieldConfigCandidate -> result GraphQLFieldConfig);
  inputFieldConfigMerger :
    option (list MergeInputFieldConfigCandidate -> result GraphQLInputFieldConfig);
  enumValueConfigMerger :
    option (list MergeEnumValueConfigCandidate -> result GraphQLEnumValueConfig);
  useNonNullableFieldOnConflict : option bool;
  validationSettings : nat }.

(** ** Collaborators

    The syntax-tree merges of the merge package (already applied to their
    option argument) and the validators of [mergeValidations], none of which
    is among the sources.  [mergeType node acc] is
    [mergeType(node, acc, { ignoreFieldConflicts: true })]. *)
Record Collaborators : Type := {
  mergeType : AstNode -> AstNode -> result AstNode;
  mergeInputType : AstNode -> AstNode -> result AstNode;
  mergeInterface : AstNode -> AstNode -> result AstNode;
  mergeUnion : AstNode -> AstNode -> result AstNode;
  mergeEnum : AstNode -> AstNode -> result AstNode;
  mergeScalar : AstNode -> AstNode -> result AstNode;
  validateFieldConsistency :
    GraphQLFieldConfig -> list MergeFieldConfigCandidate ->
    option TypeMergingOptions -> result unit;
  validateInputFieldConsistency :
    GraphQLInputFieldConfig -> list MergeInputFieldConfigCandidate ->
    option TypeMergingOptions -> result unit;
  validateInputObjectConsistency :
    obj nat -> list MergeTypeCandidate -> option TypeMergingOptions -> result unit }.

(** ** The mergers *)

Definition typeName_of (c : MergeTypeCandidate) : string := name (common (type c)).

(** [candidates.map(c => c.type[typeProperty]).filter(v => v != null)]. *)
Definition pluck {T : Type} (typeProperty : TypeCommon -> option T)
    (candidates : list MergeTypeCandidate) : list T :=
  omap (fun candidate => typeProperty (common (type candidate))) candidates.

Definition pluckPayload {T : Type} (typeProperty : GraphQLNamedType -> option T)
    (candidates : list MergeTypeCandidate) : list T :=
  omap (fun candidate => typeProperty (type candidate)) candidates.

(** The filter of [defaultTypeCandidateMerger]. *)
Definition marksCanonical (c : MergeTypeCandidate) : bool :=
  if isSubschemaConfig (transformedSubschema c)
  then typeCanonical (transformedSubschema c) (typeName_of c)
  else false.

Definition defaultTypeCandidateMerger (candidates : list MergeTypeCandidate)
    : result MergeTypeCandidate :=
  let canonical := List.filter marksCanonical candidates in
  if 1 <? length canonical then
    match head canonical with
    | None => Err FirstCanonicalRequired
    | Some first => Err (MultipleCanonicalError (typeName_of first))
    end
  else if 0 <? length canonical then
    match head canonical with
    | None => Err FirstCanonicalRequired
    | Some first => Ok first
    end
  else
    match last candidates with
    | None => Err LastCanonicalRequired
    | Some lastCanonical => Ok lastCanonical
    end.

(** [c !== candidate]. *)
Definition differs (candidate c : MergeTypeCandidate) : bool :=
  negb (cand_id c =? cand_id candidate).

Definition orderedTypeCandidates (candidates : list MergeTypeCandidate)
    (typeMergingOptions : option TypeMergingOptions) : result (list MergeTypeCandidate) :=
  let merger :=
    default defaultTypeCandidateMerger (typeMergingOptions ≫= typeCandidateMerger) in
  candidate ← merger candidates;
  Ok (List.filter (differs candidate) candidates ++ [candidate]).

Definition defaultTypeDescriptionMerger (candidates : list MergeTypeCandidate)
    : result (option string) :=
  Ok (lastCandidate ← last candidates; description (common (type lastCandidate))).

Definition mergeTypeDescriptions (candidates : list MergeTypeCandidate)
    (typeMergingOptions : option TypeMergingOptions) : result (option string) :=
  let merger :=
    default defaultTypeDescriptionMerger (typeMergingOptions ≫= typeDescriptionsMerger) in
  merger candidates.

(** The four arrays that the loop of the default field merger fills. *)
Record Tally : Type := {
  nullables : list GraphQLFieldConfig;
  nonNullables : list GraphQLFieldConfig;
  canonicalByField : list GraphQLFieldConfig;
  canonicalByType : list GraphQLFieldConfig }.

Definition emptyTally : Tally :=
  {| nullables := []; nonNullables := []; canonicalByField := []; canonicalByType := [] |}.

(** One iteration of that loop. *)
Definition tallyStep (t : Tally) (c : MergeFieldConfigCandidate) : Tally :=
  if negb (isSubschemaConfig (fcc_transformedSubschema c)) then t
  else
    let typeName := name (common (fcc_type c)) in
    let byField :=
      if fieldCanonical (fcc_transformedSubschema c) typeName (fieldName c)
      then canonicalByField t ++ [fieldConfig c] else canonicalByField t in
    let byType :=
      if fieldCanonical (fcc_transformedSubschema c) typeName (fieldName c)
      then canonicalByType t
      else if typeCanonical (fcc_transformedSubschema c) typeName
      then canonicalByType t ++ [fieldConfig c] else canonicalByType t in
    if isNullableType (fc_type (fieldConfig c))
    then {| nullables := nullables t ++ [fieldConfig c]; nonNullables := nonNullables t;
            canonicalByField := byField; canonicalByType := byType |}
    else {| nullables := nullables t; nonNullables := nonNullables t ++ [fieldConfig c];
            canonicalByField := byField; canonicalByType := byType |}.

(** [nonNullableFinalField ? { ...finalField, type: getNullableType(...) } : finalField]. *)
Definition finalize (nonNullableFinalField : bool) (finalField : GraphQLFieldConfig)
    : GraphQLFieldConfig :=
  if nonNullableFinalField
  then with_type finalField (getNullableType (fc_type finalField))
  else finalField.

Definition fieldNamespace (c : MergeFieldConfigCandidate) : string :=
  name (common (fcc_type c)) +:+ "." +:+ fieldName c.

(** The function that [getDefaultFieldConfigMerger(useNonNullableFieldOnConflict)]
    returns. *)
Definition getDefaultFieldConfigMerger (useNonNullableFieldOnConflict : bool)
    (candidates : list MergeFieldConfigCandidate) : result GraphQLFieldConfig :=
  let t := foldl tallyStep emptyTally candidates in
  let nonNullableFinalField :=
    (0 <? length (nonNullables t)) && (0 <? length (nullables t))
    && useNonNullableFieldOnConflict in
  match (if 1 <? length (canonicalByField t) then head candidates else None) with
  | Some first => Err (MultipleCanonicalError (fieldNamespace first))
  | None =>
      if 0 <? length (canonicalByField t) then
        match head (canonicalByField t) with
        | None => Err FinalFieldRequired
        | Some finalField => Ok (finalize nonNullableFinalField finalField)
        end
      else if 0 <? length (canonicalByType t) then
        match head (canonicalByType t) with
        | None => Err FinalFieldRequired
        | Some finalField => Ok (finalize nonNullableFinalField finalField)
        end
      else
        match fieldConfig <$> last candidates with
        | None => Err FieldConfigRequired
        | Some finalField => Ok (finalize nonNullableFinalField finalField)
        end
  end.

Definition defaultInputFieldConfigMerger (candidates : list MergeInputFieldConfigCandidate)
    : result GraphQLInputFieldConfig :=
  let step (acc : list GraphQLInputFieldConfig * list GraphQLInputFieldConfig)
           (c : MergeInputFieldConfigCandidate) :=
    if negb (isSubschemaConfig (ifcc_transformedSubschema c)) then acc
    else if fieldCanonical (ifcc_transformedSubschema c) (name (common (ifcc_type c)))
              (ifcc_fieldName c)
    then (acc.1 ++ [inputFieldConfig c], acc.2)
    else if typeCanonical (ifcc_transformedSubschema c) (name (common (ifcc_type c)))
    then (acc.1, acc.2 ++ [inputFieldConfig c])
    else acc in
  let '(canonicalByField, canonicalByType) := foldl step ([], []) candidates in
  match (if 1 <? length canonicalByField then head candidates else None) with
  | Some first =>
      Err (MultipleCanonicalError
             (name (common (ifcc_type first)) +:+ "." +:+ ifcc_fieldName first))
  | None =>
      match head canonicalByField with
      | Some f => Ok f
      | None =>
          match head canonicalByType with
          | Some f => Ok f
          | None =>
              match last candidates with
              | None => Err LastCandidateRequired
              | Some lastCandidate => Ok (inputFieldConfig lastCandidate)
              end
          end
      end
  end.

Definition defaultEnumValueConfigMerger (candidates : list MergeEnumValueConfigCandidate)
    : result GraphQLEnumValueConfig :=
  let preferred :=
    List.find (fun c => isSubschemaConfig (evcc_transformedSubschema c)
                        && typeCanonical (evcc_transformedSubschema c)
                             (name (common (evcc_type c)))) candidates in
  match last candidates with
  | None => Err LastCanonicalRequired
  | Some lastCanonical => Ok (enumValueConfig (default lastCanonical preferred))
  end.

(** The names of the fields that some candidate, not canonical as a whole,
    marks canonical: the keys of the dictionary the loop fills. *)
Definition canonicalFieldNamesForType (candidates : list MergeTypeCandidate) : list string :=
  let visit (canonicalFieldNames : obj bool) (c : MergeTypeCandidate) :=
    if negb (isSubschemaConfig (transformedSubschema c)) then canonicalFieldNames
    else
      match s ← transformedSubschema c; m ← merge s; obj_get (typeName_of c) m with
      | Some mergeConfig =>
          match mtc_fields mergeConfig with
          | Some fields =>
              if truthy (mtc_canonical mergeConfig) then canonicalFieldNames
              else
                foldl (fun acc '(fieldName, mergedFieldConfig) =>
                         if truthy (mfc_canonical mergedFieldConfig)
                         then obj_set fieldName true acc else acc)
                      canonicalFieldNames fields
          | None => canonicalFieldNames
          end
      | None => canonicalFieldNames
      end in
  Object_keys (foldl visit [] candidates).

(** [astNodes.slice(1).reduce((acc, node) => merge(node, acc), astNodes[0])]. *)
Definition reduceAstNodes (mergeNode : AstNode -> AstNode -> result AstNode)
    (astNodes : list AstNode) : result (option AstNode) :=
  match astNodes with
  | [] => Ok None
  | first :: rest => Some <$> foldlM (fun acc node => mergeNode node acc) first rest
  end.

(** The pseudo node that carries the merged field nodes. *)
Definition withFieldNodes (astNodes : list AstNode) (fieldAstNodes : list FieldNode)
    : list AstNode :=
  if (1 <? length astNodes) && (0 <? length fieldAstNodes) then
    match last astNodes with
    | Some lastNode =>
        astNodes ++ [ {| ast_name := ast_name lastNode; ast_fields := fieldAstNodes;
                         ast_loc := ast_loc lastNode |} ]
    | None => astNodes
    end
  else astNodes.

(** The dictionary by name that the [reduce] over the lists of interfaces (or
    of member types) fills, and its values. *)
Definition unionByName (lists : list (list TypeRef)) : list TypeRef :=
  Object_values
    (foldl (fun acc refs => foldl (fun acc r => obj_set (ref_name r) r acc) acc refs)
           [] lists).

(** The dictionary from a field (or value) name to the candidates that define
    it, filled candidate by candidate and, within one, name by name. *)
Definition candidatesMap {V C : Type} (members : GraphQLNamedType -> obj V)
    (project : MergeTypeCandidate -> string -> V -> C)
    (candidates : list MergeTypeCandidate) : obj (list C) :=
  foldl (fun acc candidate =>
           foldl (fun acc '(memberName, config) =>
                    obj_push memberName (project candidate memberName config) acc)
                 acc (members (type candidate)))
        [] candidates.

Definition fieldConfigCandidate (candidate : MergeTypeCandidate) (fieldName : string)
    (fieldConfig : GraphQLFieldConfig) : MergeFieldConfigCandidate :=
  {| fieldConfig := fieldConfig; fieldName := fieldName; fcc_type := type candidate;
     fcc_subschema := subschema candidate;
     fcc_transformedSubschema := transformedSubschema candidate |}.

Definition inputFieldConfigCandidate (candidate : MergeTypeCandidate) (fieldName : string)
    (inputFieldConfig : GraphQLInputFieldConfig) : MergeInputFieldConfigCandidate :=
  {| inputFieldConfig := inputFieldConfig; ifcc_fieldName := fieldName;
     ifcc_type := type candidate; ifcc_subschema := subschema candidate;
     ifcc_transformedSubschema := transformedSubschema candidate |}.

Definition enumValueConfigCandidate (candidate : MergeTypeCandidate) (enumValue : string)
    (enumValueConfig : GraphQLEnumValueConfig) : MergeEnumValueConfigCandidate :=
  {| enumValueConfig := enumValueConfig; enumValue := enumValue;
     evcc_type := type candidate; evcc_subschema := subschema candidate;
     evcc_transformedSubschema := transformedSubschema candidate |}.

(** [fieldInclusionMap]: in how many candidates each input field occurs. *)
Definition fieldInclusionMap (candidates : list MergeTypeCandidate) : obj nat :=
  foldl (fun acc candidate =>
           foldl (fun acc '(fieldName, _) =>
                    obj_set fieldName (default 0 (obj_get fieldName acc) + 1) acc)
                 acc (type_inputFields (type candidate)))
        [] candidates.

(** The loop [for (name in candidatesMap) merged[name] = mergeOne(name, ...)]. *)
Definition mergeEach {C V : Type} (mergeOne : list C -> result V)
    (candidatesMap : obj (list C)) : result (obj V) :=
  foldlM (fun acc '(memberName, memberCandidates) =>
            merged ← mergeOne memberCandidates;
            Ok (obj_set memberName merged acc))
         [] candidatesMap.

Section Mergers.

Context (ext : Collaborators).

Definition mergeFieldConfigs (candidates : list MergeFieldConfigCandidate)
    (typeMergingOptions : option TypeMergingOptions) : result GraphQLFieldConfig :=
  let merger :=
    default
      (getDefaultFieldConfigMerger
         (default false (typeMergingOptions ≫= useNonNullableFieldOnConflict)))
      (typeMergingOptions ≫= fieldConfigMerger) in
  finalFieldConfig ← merger candidates;
  _ ← validateFieldConsistency ext finalFieldConfig candidates typeMergingOptions;
  Ok finalFieldConfig.

Definition fieldConfigMapFromTypeCandidates (candidates : list MergeTypeCandidate)
    (typeMergingOptions : option TypeMergingOptions) : result (obj GraphQLFieldConfig) :=
  mergeEach (fun fieldConfigCandidates =>
               mergeFieldConfigs fieldConfigCandidates typeMergingOptions)
            (candidatesMap type_fields fieldConfigCandidate candidates).

Definition inputFieldConfigMapFromTypeCandidates (candidates : list MergeTypeCandidate)
    (typeMergingOptions : option TypeMergingOptions)
    : result (obj GraphQLInputFieldConfig) :=
  _ ← validateInputObjectConsistency ext (fieldInclusionMap candidates) candidates
        typeMergingOptions;
  mergeEach (fun inputFieldConfigCandidates =>
               let merger :=
                 default defaultInputFieldConfigMerger
                         (typeMergingOptions ≫= inputFieldConfigMerger) in
               merged ← merger inputFieldConfigCandidates;
               _ ← validateInputFieldConsistency ext merged inputFieldConfigCandidates
                     typeMergingOptions;
               Ok merged)
            (candidatesMap type_inputFields inputFieldConfigCandidate candidates).

Definition enumValueConfigMapFromTypeCandidates (candidates : list MergeTypeCandidate)
    (typeMergingOptions : option TypeMergingOptions)
    : result (obj GraphQLEnumValueConfig) :=
  mergeEach (default defaultEnumValueConfigMerger
                     (typeMergingOptions ≫= enumValueConfigMerger))
            (candidatesMap type_values enumValueConfigCandidate candidates).

(** The part of a merged type that every merger builds in the same way. *)
Definition mergedCommon (typeName : string) (description : option string)
    (astNode : option AstNode) (candidates : list MergeTypeCandidate) : TypeCommon :=
  {| name := typeName;
     description := description;
     astNode := astNode;
     extensionASTNodes := Some (ExtensionArray <$> pluck extensionASTNodes candidates);
     extensions := Some (Object_assign (pluck extensions candidates)) |}.

(** The field nodes of the merged fields that are canonical by field. *)
Definition fieldAstNodes {F : Type} (fieldNode : F -> option FieldNode)
    (fields : obj F) (candidates : list MergeTypeCandidate) : list FieldNode :=
  omap (fun fieldName => obj_get fieldName fields ≫= fieldNode)
       (canonicalFieldNamesForType candidates).

Definition mergeObjectTypeCandidates (typeName : string)
    (candidates : list MergeTypeCandidate)
    (typeMergingOptions : option TypeMergingOptions) : result GraphQLNamedType :=
  candidates ← orderedTypeCandidates candidates typeMergingOptions;
  description ← mergeTypeDescriptions candidates typeMergingOptions;
  fields ← fieldConfigMapFromTypeCandidates candidates typeMergingOptions;
  let interfaces := unionByName ((fun c => type_interfaces (type c)) <$> candidates) in
  let astNodes :=
    withFieldNodes (pluck astNode candidates) (fieldAstNodes fc_astNode fields candidates) in
  astNode ← reduceAstNodes (mergeType ext) astNodes;
  Ok {| common := mergedCommon typeName description astNode candidates;
        payload := ObjectPayload fields interfaces |}.

Definition mergeInputObjectTypeCandidates (typeName : string)
    (candidates : list MergeTypeCandidate)
    (typeMergingOptions : option TypeMergingOptions) : result GraphQLNamedType :=
  candidates ← orderedTypeCandidates candidates typeMergingOptions;
  description ← mergeTypeDescriptions candidates typeMergingOptions;
  fields ← inputFieldConfigMapFromTypeCandidates candidates typeMergingOptions;
  let astNodes :=
    withFieldNodes (pluck astNode candidates) (fieldAstNodes ifc_astNode fields candidates) in
  astNode ← reduceAstNodes (mergeInputType ext) astNodes;
  Ok {| common := mergedCommon typeName description astNode candidates;
        payload := InputObjectPayload fields |}.

Definition mergeInterfaceTypeCandidates (typeName : string)
    (candidates : list MergeTypeCandidate)
    (typeMergingOptions : option TypeMergingOptions) : result GraphQLNamedType :=
  candidates ← orderedTypeCandidates candidates typeMergingOptions;
  description ← mergeTypeDescriptions candidates typeMergingOptions;
  fields ← fieldConfigMapFromTypeCandidates candidates typeMergingOptions;
  let interfaces := unionByName ((fun c => type_interfaces (type c)) <$> candidates) in
  let astNodes :=
    withFieldNodes (pluck astNode candidates) (fieldAstNodes fc_astNode fields candidates) in
  astNode ← reduceAstNodes (mergeInterface ext) astNodes;
  Ok {| common := mergedCommon typeName description astNode candidates;
        payload := InterfacePayload fields interfaces |}.

Definition mergeUnionTypeCandidates (typeName : string)
    (candidates : list MergeTypeCandidate)
    (typeMergingOptions : option TypeMergingOptions) : result GraphQLNamedType :=
  candidates ← orderedTypeCandidates candidates typeMergingOptions;
  description ← mergeTypeDescriptions candidates typeMergingOptions;
  typeConfigs ←
    foldlM (fun acc candidate =>
              if decide (category (type candidate) = UnionCategory)
              then Ok (acc ++ [type_types (type candidate)])
              else Err (ExpectedUnionTypeError (typeName_of candidate)))
           [] candidates;
  let types := unionByName typeConfigs in
  astNode ← reduceAstNodes (mergeUnion ext) (pluck astNode candidates);
  Ok {| common := mergedCommon typeName description astNode candidates;
        payload := UnionPayload types |}.

Definition mergeEnumTypeCandidates (typeName : string)
    (candidates : list MergeTypeCandidate)
    (typeMergingOptions : option TypeMergingOptions) : result GraphQLNamedType :=
  candidates ← orderedTypeCandidates candidates typeMergingOptions;
  description ← mergeTypeDescriptions candidates typeMergingOptions;
  values ← enumValueConfigMapFromTypeCandidates candidates typeMergingOptions;
  astNode ← reduceAstNodes (mergeEnum ext) (pluck astNode candidates);
  Ok {| common := mergedCommon typeName description astNode candidates;
        payload := EnumPayload values |}.

(** The first truthy [specifiedByURL] that the loop over the candidates
    meets: the empty string is falsy. *)
Definition firstSpecifiedByURL (candidates : list MergeTypeCandidate) : option string :=
  List.find (fun url => negb (bool_decide (url = EmptyString)))
            (pluckPayload type_specifiedByURL candidates).

Definition mergeScalarTypeCandidates (typeName : string)
    (candidates : list MergeTypeCandidate)
    (typeMergingOptions : option TypeMergingOptions) : result GraphQLNamedType :=
  candidates ← orderedTypeCandidates candidates typeMergingOptions;
  description ← mergeTypeDescriptions candidates typeMergingOptions;
  let serialize := last (pluckPayload type_serialize candidates) in
  let parseValue := last (pluckPayload type_parseValue candidates) in
  let parseLiteral := last (pluckPayload type_parseLiteral candidates) in
  astNode ← reduceAstNodes (mergeScalar ext) (pluck astNode candidates);
  let specifiedByURL := firstSpecifiedByURL candidates in
  Ok {| common := mergedCommon typeName description astNode candidates;
        payload := ScalarPayload serialize parseValue parseLiteral specifiedByURL |}.

Definition mergeCandidates (typeName : string) (candidates : list MergeTypeCandidate)
    (typeMergingOptions : option TypeMergingOptions) : result GraphQLNamedType :=
  let initialCandidateType := type <$> head candidates in
  if existsb (fun candidate =>
                negb (bool_decide (Some (category (type candidate))
                                   = category <$> initialCandidateType)))
             candidates
  then Err (CategoryMismatchError typeName)
  else
    match category <$> initialCandidateType with
    | Some ObjectCategory => mergeObjectTypeCandidates typeName candidates typeMergingOptions
    | Some InputObjectCategory =>
        mergeInputObjectTypeCandidates typeName candidates typeMergingOptions
    | Some InterfaceCategory =>
        mergeInterfaceTypeCandidates typeName candidates typeMergingOptions
    | Some UnionCategory => mergeUnionTypeCandidates typeName candidates typeMergingOptions
    | Some EnumCategory => mergeEnumTypeCandidates typeName candidates typeMergingOptions
    | Some ScalarCategory => mergeScalarTypeCandidates typeName candidates typeMergingOptions
    | None => Err (UnknownTypeError typeName)
    end.

End Mergers.

(** ** Notions used in the statements *)

(** The inner loop of [unionByName], from any dictionary. *)
Definition insertAll (acc : obj TypeRef) (refs : list TypeRef) : obj TypeRef :=
  foldl (fun acc r => obj_set (ref_name r) r acc) acc refs.

(** The reference is to a type of that name. *)
Definition named (k : string) (r : TypeRef) : bool := bool_decide (ref_name r = k).

(** [specifiedByURL] is absent or falsy. *)
Definition noURL (c : MergeTypeCandidate) : Prop :=
  type_specifiedByURL (type c) = None \/ type_specifiedByURL (type c) = Some EmptyString.

(** Two entries of a candidate list with the same identity are the same
    object. *)
Definition identified (candidates : list MergeTypeCandidate) : Prop :=
  forall c c', c ∈ candidates -> c' ∈ candidates -> cand_id c = cand_id c' -> c = c'.

(** A field candidate is eligible when its transformedSubschema is a
    recognized config; it marks the field canonical, or its type canonical;
    [canonicalOnlyByType] is the condition of the second tally. *)
Definition eligible (c : MergeFieldConfigCandidate) : bool :=
  isSubschemaConfig (fcc_transformedSubschema c).

Definition marksField (c : MergeFieldConfigCandidate) : bool :=
  eligible c
  && fieldCanonical (fcc_transformedSubschema c) (name (common (fcc_type c))) (fieldName c).

Definition typeIsCanonical (c : MergeFieldConfigCandidate) : bool :=
  eligible c && typeCanonical (fcc_transformedSubschema c) (name (common (fcc_type c))).

Definition canonicalOnlyByType (c : MergeFieldConfigCandidate) : bool :=
  typeIsCanonical c && negb (marksField c).

Definition nullableEligible (c : MergeFieldConfigCandidate) : bool :=
  eligible c && isNullableType (fc_type (fieldConfig c)).

Definition nonNullableEligible (c : MergeFieldConfigCandidate) : bool :=
  eligible c && negb (isNullableType (fc_type (fieldConfig c))).

(** Some eligible candidate is non-nullable and some eligible candidate is
    nullable. *)
Definition nullabilityConflict (candidates : list MergeFieldConfigCandidate) : bool :=
  existsb nonNullableEligible candidates && existsb nullableEligible candidates.

(** The ladder as the specification words it, before any relaxation of the
    type: two or more canonical by field is an error, exactly one is used;
    else exactly one canonical by type is used; else the last candidate. *)
Definition specifiedLadder (candidates : list MergeFieldConfigCandidate)
    : result GraphQLFieldConfig :=
  match List.filter marksField candidates with
  | _ :: _ :: _ =>
      match head candidates with
      | Some first => Err (MultipleCanonicalError (fieldNamespace first))
      | None => Err FieldConfigRequired
      end
  | [c] => Ok (fieldConfig c)
  | [] =>
      match List.filter typeIsCanonical candidates with
      | [c] => Ok (fieldConfig c)
      | _ =>
          match last candidates with
          | Some c => Ok (fieldConfig c)
          | None => Err FieldConfigRequired
          end
      end
  end.

(** The shape of the result of a merger: the candidates are ordered, the
    description is merged from the ordered list, and the common part is built
    from that list. *)
Definition mergedFrom (typeName : string) (candidates : list MergeTypeCandidate)
    (typeMergingOptions : option TypeMergingOptions) (t : GraphQLNamedType) : Prop :=
  exists ordered description node,
    orderedTypeCandidates candidates typeMergingOptions = Ok ordered /\
    mergeTypeDescriptions ordered typeMergingOptions = Ok description /\
    common t = mergedCommon typeName description node ordered.

(** The dictionary of candidates that one candidate alone gives. *)
Definition singletons {V C : Type} (project : string -> V -> C) (members : obj V)
    : obj (list C) :=
  (fun '(k, v) => (k, [project k v])) <$> members.

(** No stage of the merge is replaced by the caller. *)
Definition defaultStages (opts : option TypeMergingOptions) : Prop :=
  opts ≫= typeCandidateMerger = None /\
  opts ≫= typeDescriptionsMerger = None /\
  opts ≫= fieldConfigMerger = None /\
  opts ≫= inputFieldConfigMerger = None /\
  opts ≫= enumValueConfigMerger = None.

(** The validators accept a field, an input field and an input object that
    come from one candidate alone. *)
Definition acceptsSingle (ext : Collaborators) (opts : option TypeMergingOptions)
    (c : MergeTypeCandidate) : Prop :=
  (forall k v, (k, v) ∈ type_fields (type c) ->
               validateFieldConsistency ext v [fieldConfigCandidate c k v] opts = Ok tt) /\
  validateInputObjectConsistency ext (fieldInclusionMap [c]) [c] opts = Ok tt /\
  (forall k v, (k, v) ∈ type_inputFields (type c) ->
               validateInputFieldConsistency ext v [inputFieldConfigCandidate c k v] opts
               = Ok tt).

(** The dictionaries of a type have pairwise distinct keys. *)
Definition wellFormedType (t : GraphQLNamedType) : Prop :=
  obj_wf (type_fields t) /\ obj_wf (type_inputFields t) /\ obj_wf (type_values t).

(** The extensions of the first type are those of the second as
    [Object.assign] copies them to a plain object: key by key the same, an
    absent dictionary being empty, but for the key [__proto__], which is not
    copied. *)
Definition assignedExtensions (t1 t2 : GraphQLNamedType) : Prop :=
  forall k : string,
    (extensions (common t1) ≫= fun e => e !! k)
    = if decide (k = "__proto__") then None
      else extensions (common t2) ≫= fun e => e !! k.




(** ** Sample schemas

    Small schemas on which the properties below are exercised. *)

(** Collaborators that accept everything; the syntax-tree merge appends the
    field nodes of the incoming node. *)
Definition appendFields (node acc : AstNode) : result AstNode :=
  Ok {| ast_name := ast_name acc; ast_fields := ast_fields acc ++ ast_fields node;
        ast_loc := ast_loc acc |}.

Definition permissive : Collaborators :=
  {| mergeType := appendFields; mergeInputType := appendFields;
     mergeInterface := appendFields; mergeUnion := appendFields;
     mergeEnum := appendFields; mergeScalar := appendFields;
     validateFieldConsistency := fun _ _ _ => Ok tt;
     validateInputFieldConsistency := fun _ _ _ => Ok tt;
     validateInputObjectConsistency := fun _ _ _ => Ok tt |}.



Definition StringType : GraphQLType := Nullable (NamedTypeRef "String").
Definition NonNullString : GraphQLType := GraphQLNonNull (NamedTypeRef "String").

Definition sampleField (t : GraphQLType) (about : string) : GraphQLFieldConfig :=
  {| fc_type := t; fc_description := Some about; fc_deprecationReason := None;
     fc_astNode := None |}.

Definition sampleCommon (typeName about : string) (exts : list (string * JsValue))
    : TypeCommon :=
  {| name := typeName; description := Some about; astNode := None;
     extensionASTNodes := Some []; extensions := Some (list_to_map exts) |}.

(** A subschema config that says nothing about merging, one that marks a
    type canonical, one that marks one field of a type canonical, and a value
    that is not a recognized config although it marks the type canonical. *)
Definition plainConfig : option Subschema := Some {| recognized := true; merge := None |}.

Definition canonicalConfig (typeName : string) : option Subschema :=
  Some {| recognized := true;
          merge := Some [(typeName, {| mtc_canonical := Some true; mtc_fields := None |})] |}.

Definition canonicalFieldConfig (typeName fieldName : string) : option Subschema :=
  Some {| recognized := true;
          merge := Some [(typeName,
                          {| mtc_canonical := None;
                             mtc_fields :=
                               Some [(fieldName, {| mfc_canonical := Some true |})] |})] |}.

Definition unrecognizedConfig (typeName : string) : option Subschema :=
  Some {| recognized := false;
          merge := Some [(typeName, {| mtc_canonical := Some true; mtc_fields := None |})] |}.

Definition IfaceA : TypeRef := {| ref_name := "A"; ref_id := 1 |}.
Definition IfaceA' : TypeRef := {| ref_name := "A"; ref_id := 2 |}.
Definition IfaceB : TypeRef := {| ref_name := "B"; ref_id := 3 |}.

(** An object type [Foo] with one field [bar]. *)
Definition fooType (about : string) (barType : GraphQLType) (interfaces : list TypeRef)
    (exts : list (string * JsValue)) : GraphQLNamedType :=
  {| common := sampleCommon "Foo" about exts;
     payload := ObjectPayload [("bar", sampleField barType about)] interfaces |}.

Definition fooCandidate (id : nat) (about : string) (barType : GraphQLType)
    (interfaces : list TypeRef) (exts : list (string * JsValue))
    (config : option Subschema) : MergeTypeCandidate :=
  {| cand_id := id; type := fooType about barType interfaces exts;
     subschema := Some id; transformedSubschema := config |}.


(** A scalar type [Foo]. *)
Definition fooScalar (id : nat) (about : string) (url : option string)
    (config : option Subschema) : MergeTypeCandidate :=
  {| cand_id := id;
     type := {| common := sampleCommon "Foo" about [];
                payload := ScalarPayload (Some {| fn_id := id |}) (Some {| fn_id := id |})
                             (Some {| fn_id := id |}) url |};
     subschema := Some id; transformedSubschema := config |}.

(** A field candidate of the type [Foo] for the field [bar]. *)
Definition barCandidate (about : string) (barType : GraphQLType)
    (config : option Subschema) : MergeFieldConfigCandidate :=
  {| fieldConfig :=
       {| fc_type := barType; fc_description := Some about;
          fc_deprecationReason := None; fc_astNode := None |};
     fieldName := "bar";
     fcc_type :=
       {| common :=
            {| name := "Foo"; description := None; astNode := None;
               extensionASTNodes := None; extensions := None |};
          payload := ObjectPayload [] [] |};
     fcc_subschema := None;
     fcc_transformedSubschema := config |}.

(** ** Further notions *)

(** The merger that [mergeCandidates] runs for a category. *)
Definition mergerOf (k : TypeCategory) (ext : Collaborators) (typeName : string)
    (candidates : list MergeTypeCandidate) (opts : option TypeMergingOptions)
    : result GraphQLNamedType :=
  match k with
  | ObjectCategory => mergeObjectTypeCandidates ext typeName candidates opts
  | InputObjectCategory => mergeInputObjectTypeCandidates ext typeName candidates opts
  | InterfaceCategory => mergeInterfaceTypeCandidates ext typeName candidates opts
  | UnionCategory => mergeUnionTypeCandidates ext typeName candidates opts
  | EnumCategory => mergeEnumTypeCandidates ext typeName candidates opts
  | ScalarCategory => mergeScalarTypeCandidates ext typeName candidates opts
  end.


(** The entries that the candidates give to a dictionary of candidates:
    candidate by candidate and, within one, member by member. *)
Definition memberEntries {V C : Type} (members : GraphQLNamedType -> obj V)
    (project : MergeTypeCandidate -> string -> V -> C)
    (candidates : list MergeTypeCandidate) : list (string * C) :=
  candidates ≫= fun c => (fun '(k, v) => (k, project c k v)) <$> members (type c).

(** What a list of entries gives under one name, in order. *)
Definition valuesOf {C : Type} (k : string) (entries : list (string * C)) : list C :=
  omap (fun '(k', x) => if decide (k' = k) then Some x else None) entries.

(** The candidates for one member name. *)
Definition membersNamed {V C : Type} (members : GraphQLNamedType -> obj V)
    (project : MergeTypeCandidate -> string -> V -> C) (k : string)
    (candidates : list MergeTypeCandidate) : list C :=
  valuesOf k (memberEntries members project candidates).

(** The loop that fills a dictionary of candidates, entry by entry. *)
Definition pushAll {C : Type} (acc : obj (list C)) (entries : list (string * C))
    : obj (list C) :=
  foldl (fun acc '(k, x) => obj_push k x acc) acc entries.

(** A dictionary and the dictionary merged from it, entry by entry. *)
Definition mergedEntry {C V : Type} (mergeOne : list C -> result V)
    (e : string * list C) (e' : string * V) : Prop :=
  e.1 = e'.1 /\ mergeOne e.2 = Ok e'.2.

(** The condition under which the default enum-value merger prefers a
    candidate. *)
Definition enumPreferred (c : MergeEnumValueConfigCandidate) : bool :=
  isSubschemaConfig (evcc_transformedSubschema c)
  && typeCanonical (evcc_transformedSubschema c) (name (common (evcc_type c))).

(** An input-field candidate marks the field canonical, or only its type. *)
Definition inputMarksField (c : MergeInputFieldConfigCandidate) : bool :=
  isSubschemaConfig (ifcc_transformedSubschema c)
  && fieldCanonical (ifcc_transformedSubschema c) (name (common (ifcc_type c)))
       (ifcc_fieldName c).

Definition inputTypeIsCanonical (c : MergeInputFieldConfigCandidate) : bool :=
  isSubschemaConfig (ifcc_transformedSubschema c)
  && typeCanonical (ifcc_transformedSubschema c) (name (common (ifcc_type c))).

Definition inputOnlyByType (c : MergeInputFieldConfigCandidate) : bool :=
  inputTypeIsCanonical c && negb (inputMarksField c).

(** An enum type [Status] and a candidate for it. *)
Definition sampleValue (about : string) : GraphQLEnumValueConfig :=
  {| evc_description := Some about; evc_deprecationReason := None |}.

Definition statusCandidate (id : nat) (about : string) (values : list string)
    (config : option Subschema) : MergeTypeCandidate :=
  {| cand_id := id;
     type := {| common := sampleCommon "Status" about [];
                payload := EnumPayload ((fun v => (v, sampleValue about)) <$> values) |};
     subschema := Some id; transformedSubschema := config |}.

(** An input-field candidate of the type [Foo] for the field [bar]. *)
Definition barInputCandidate (about : string) (config : option Subschema)
    : MergeInputFieldConfigCandidate :=
  {| inputFieldConfig :=
       {| ifc_type := StringType; ifc_description := Some about; ifc_astNode := None |};
     ifcc_fieldName := "bar";
     ifcc_type :=
       {| common := sampleCommon "Foo" about [];
          payload := InputObjectPayload [] |};
     ifcc_subschema := None;
     ifcc_transformedSubschema := config |}.

(** The loop that counts field names into [fieldInclusionMap]. *)
Definition countAll (acc : obj nat) (names : list string) : obj nat :=
  foldl (fun acc k => obj_set k (default 0 (obj_get k acc) + 1) acc) acc names.

(** The candidate defines the input field. *)
Definition definesInput (k : string) (c : MergeTypeCandidate) : bool :=
  bool_decide (k ∈ Object_keys (type_inputFields (type c))).

(** The merge of one input field in the loop of
    [inputFieldConfigMapFromTypeCandidates]: the merger, then the validator. *)
Definition mergeInputField (ext : Collaborators) (opts : option TypeMergingOptions)
    (candidates : list MergeInputFieldConfigCandidate) : result GraphQLInputFieldConfig :=
  merged ← default defaultInputFieldConfigMerger (opts ≫= inputFieldConfigMerger) candidates;
  _ ← validateInputFieldConsistency ext merged candidates opts;
  Ok merged.

(** The candidate, eligible and not canonical as a whole type, marks the
    field [k] of its type canonical. *)
Definition marksOnlyField (c : MergeTypeCandidate) (k : string) : Prop :=
  exists mergeConfig fields mergedFieldConfig,
    isSubschemaConfig (transformedSubschema c) = true /\
    (s ← transformedSubschema c; m ← merge s; obj_get (typeName_of c) m) = Some mergeConfig /\
    truthy (mtc_canonical mergeConfig) = false /\
    mtc_fields mergeConfig = Some fields /\
    (k, mergedFieldConfig) ∈ fields /\
    truthy (mfc_canonical mergedFieldConfig) = true.

(** The field names that one candidate adds to the canonical field names. *)
Definition fieldsMarkedBy (c : MergeTypeCandidate) : list string :=
  if negb (isSubschemaConfig (transformedSubschema c)) then []
  else
    match s ← transformedSubschema c; m ← merge s; obj_get (typeName_of c) m with
    | Some mergeConfig =>
        match mtc_fields mergeConfig with
        | Some fields =>
            if truthy (mtc_canonical mergeConfig) then []
            else (List.filter (fun e => truthy (mfc_canonical e.2)) fields).*1
        | None => []
        end
    | None => []
    end.

(** The loop that sets names in the dictionary of canonical field names. *)
Definition setAll (acc : obj bool) (names : list string) : obj bool :=
  foldl (fun acc k => obj_set k true acc) acc names.

(** A candidate has a list of extension nodes. *)
Definition hasExtensionNodes (c : MergeTypeCandidate) : bool :=
  bool_decide (is_Some (extensionASTNodes (common (type c)))).

(** * Plugins

    The label functions of the Prometheus plugin and the two HMAC plugins.
    Their collaborators (the metrics registry, the web crypto of the fetch
    API, the JSON serializers) are parameters; loggers, which only write, and
    the clock are left out.  A promise chain is the sequence of its steps, and
    an object of headers is the ordered dictionary of its entries. *)

(** A call that returns, or throws an [Error] with a message. *)
Inductive thrown (A : Type) : Type :=
| Returned (a : A)
| Threw (message : string).
Arguments Returned {A} a.
Arguments Threw {A} message.

(** ** The Prometheus plugin *)

(** [labels.fetchRequestHeaders] and [labels.fetchResponseHeaders]: a
    boolean, or the names of the headers to keep. *)
Inductive HeaderLabelOption : Type :=
| HeaderFlag (enabled : bool)
| HeaderAllowList (names : list string).

(** Truthiness of the option: an array is truthy, also when empty. *)
Definition labelEnabled (o : option HeaderLabelOption) : bool :=
  match o with
  | Some (HeaderFlag enabled) => enabled
  | Some (HeaderAllowList _) => true
  | None => false
  end.

Record LabelOptions : Type := {
  subgraphNameLabel : option bool;
  fetchRequestHeaders : option HeaderLabelOption;
  fetchResponseHeaders : option HeaderLabelOption }.

(** [Object.fromEntries(Object.entries(headers).filter(([key]) =>
    allowList.includes(key)))] when the allow list is an array, the headers
    themselves otherwise. *)
Definition filterHeaders (allowList : HeaderLabelOption) (headers : obj string)
    : obj string :=
  match allowList with
  | HeaderAllowList names =>
      List.filter (fun entry => bool_decide (entry.1 ∈ names)) headers
  | HeaderFlag _ => headers
  end.

(** The label names declared for the fetch histogram. *)
Definition fetchLabelNames (labels : option LabelOptions) : list string :=
  ["url"; "method"; "statusCode"; "statusText"; "requestHeaders"; "responseHeaders"]
  ++ (if labelEnabled (labels ≫= fetchRequestHeaders) then ["requestHeaders"] else [])
  ++ (if labelEnabled (labels ≫= fetchResponseHeaders) then ["responseHeaders"] else []).

Inductive LabelValue : Type :=
| LabelText (s : string)
| LabelNumber (n : Z).

(** What the label function of the fetch histogram reads: the url, the
    options of the request and the response (its headers as an object). *)
Record FetchParams : Type := {
  fp_url : string;
  fp_method : option string;
  fp_headers : option (obj string);
  fp_status : Z;
  fp_statusText : string;
  fp_responseHeaders : obj string }.

(** The label function of the fetch histogram; [stringify] is
    [JSON.stringify]. *)
Definition fetchLabels (stringify : obj string -> string)
    (labels : option LabelOptions) (p : FetchParams) : thrown (obj LabelValue) :=
  match fp_method p with
  | None => Threw "Request method is missing from the options"
  | Some method =>
      if decide (method = EmptyString)
      then Threw "Request method is missing from the options"
      else
        let labels0 :=
          [("url", LabelText (fp_url p)); ("method", LabelText method);
           ("statusCode", LabelNumber (fp_status p));
           ("statusText", LabelText (fp_statusText p))] in
        let labels1 :=
          match labels ≫= fetchRequestHeaders with
          | Some allowList =>
              if labelEnabled (Some allowList)
              then obj_set "requestHeaders"
                     (LabelText (stringify (filterHeaders allowList
                                              (default [] (fp_headers p)))))
                     labels0
              else labels0
          | None => labels0
          end in
        let labels2 :=
          match labels ≫= fetchResponseHeaders with
          | Some allowList =>
              if labelEnabled (Some allowList)
              then obj_set "responseHeaders"
                     (LabelText (stringify (filterHeaders allowList
                                              (fp_responseHeaders p))))
                     labels1
              else labels1
          | None => labels1
          end in
        Returned labels2
  end.

(** [counter.inc(labels)]: the series of a label set, by one. *)
Definition inc `{Countable L} (labels : L) (series : gmap L nat) : gmap L nat :=
  <[labels := S (default 0 (series !! labels))]> series.

(** The payload of the subgraph-execute hook as the plugin reads it: the
    subgraph, the operation of the request, and [executionRequest.context],
    which may be absent and is otherwise an object that may hold the
    [context] of the operation. *)
Record OnSubgraphExecutePayload (C : Type) : Type := {
  payload_subgraphName : string;
  payload_operationName : option string;
  payload_operationType : option string;
  payload_requestContext : option (option C) }.
Arguments payload_subgraphName {C} _.
Arguments payload_operationName {C} _.
Arguments payload_operationType {C} _.
Arguments payload_requestContext {C} _.

(** The error counter as the plugin uses it: whether to observe a payload
    in a context, and its label set. *)
Record ErrorCounter (C L : Type) : Type := {
  shouldObserve : OnSubgraphExecutePayload C -> option C -> bool;
  fillLabelsFn : OnSubgraphExecutePayload C -> option C -> L }.
Arguments shouldObserve {C L} _ _ _.
Arguments fillLabelsFn {C L} _ _ _.

(** [onResult], the closure that the hook builds over the payload and the
    context: nothing without a counter or without [result.errors], else one
    step for each error. *)
Definition onResult `{Countable L} {C E : Type} (counter : option (ErrorCounter C L))
    (payload : OnSubgraphExecutePayload C) (context : option C)
    (errors : option (list E)) (series : gmap L nat) : gmap L nat :=
  match counter, errors with
  | Some c, Some es =>
      foldl (fun series _ =>
               if shouldObserve c payload context
               then inc (fillLabelsFn c payload context) series
               else series)
            series es
  | _, _ => series
  end.

(** The result of a subgraph execution: an execution result with its
    [errors], or an async iterable of results. *)
Inductive SubgraphResult (E : Type) : Type :=
| ExecutionResult (errors : option (list E))
| AsyncIterableResult.
Arguments ExecutionResult {E} errors.
Arguments AsyncIterableResult {E}.

(** What a call of the hook on a payload and its result did: it threw the
    [TypeError] of destructuring [undefined], it handed [onNext] and [onEnd]
    back for a stream, or it handled the result. *)
Inductive HookOutcome (S : Type) : Type :=
| HookThrew
| HookHandlers (series : S)
| HookHandled (series : S).
Arguments HookThrew {S}.
Arguments HookHandlers {S} series.
Arguments HookHandled {S} series.

Module Prometheus.

(** [onSubgraphExecute] of the plugin, on the series of the error counter:
    no hook at all without the histogram and the counter; else the context is
    destructured from [payload.executionRequest.context] before anything
    else.  What the histogram observes is a duration and is left out. *)
Definition onSubgraphExecute `{Countable L} {C E : Type} (histogram : bool)
    (counter : option (ErrorCounter C L)) (payload : OnSubgraphExecutePayload C)
    (result : SubgraphResult E) (series : gmap L nat)
    : option (HookOutcome (gmap L nat)) :=
  if histogram || bool_decide (is_Some counter) then
    match payload_requestContext payload with
    | None => Some HookThrew
    | Some context =>
        match result with
        | AsyncIterableResult => Some (HookHandlers series)
        | ExecutionResult errors =>
            Some (HookHandled (onResult counter payload context errors series))
        end
    end
  else None.

End Prometheus.

(** ** The HMAC plugins *)

(** A key imported from raw bytes for some usages. *)
Record CryptoKey : Type := { key_material : list nat; key_usages : list string }.

(** Truthiness of a value of an extension. *)
Definition jsTruthy (v : JsValue) : bool :=
  match v with
  | JsNumber n => negb (n =? 0)%Z
  | JsString s => negb (bool_decide (s = EmptyString))
  | JsBool b => b
  end.

(** The names of the members that a plain object inherits from
    [Object.prototype]: functions, and under [__proto__] the prototype. *)
Definition Object_prototype : list string :=
  ["constructor"; "__defineGetter__"; "__defineSetter__"; "hasOwnProperty";
   "__lookupGetter__"; "__lookupSetter__"; "isPrototypeOf"; "propertyIsEnumerable";
   "toString"; "valueOf"; "__proto__"; "toLocaleString"].

(** What [object[name]] reads on a plain object: the value of an own entry,
    else the inherited member of that name, else nothing. *)
Inductive Property : Type :=
| OwnProperty (value : JsValue)
| InheritedMember (name : string).

Definition getProperty (object : gmap string JsValue) (name : string) : option Property :=
  match object !! name with
  | Some value => Some (OwnProperty value)
  | None =>
      if bool_decide (name ∈ Object_prototype) then Some (InheritedMember name) else None
  end.

(** The runtime: the text encoder and HMAC of the fetch API, base64 of a byte
    array and, from a value (or from an inherited member) read as a string,
    back, and the stable JSON serializers of a request (document and
    variables) and of parameters (query and variables). *)
Record Runtime : Type := {
  encode : string -> list nat;
  sign : CryptoKey -> list nat -> list nat;
  verify : CryptoKey -> list nat -> list nat -> bool;
  btoa : list nat -> string;
  atob : JsValue -> thrown (list nat);
  atobMember : string -> thrown (list nat);
  stringifyRequest : string -> option (gmap string JsValue) -> string;
  stringifyParams : option string -> option (gmap string JsValue) -> string }.

Definition createCryptoKey (rt : Runtime) (secret : string) (usages : list string)
    : CryptoKey :=
  {| key_material := encode rt secret; key_usages := usages |}.

(** [key$ ||= createCryptoKey(...)], then [key$ = key]. *)
Definition cachedKey (rt : Runtime) (secret : string) (usages : list string)
    (cache : option CryptoKey) : CryptoKey :=
  default (createCryptoKey rt secret usages) cache.

(** The calls of [createCryptoKey] that [key$ ||= createCryptoKey(...)]
    makes. *)
Definition keyImports (cache : option CryptoKey) : nat :=
  match cache with Some _ => 0 | None => 1 end.

Definition DEFAULT_EXTENSION_NAME : string := "hmac-signature".

(** [value || fallback] on an optional string. *)
Definition orElse (value : option string) (fallback : string) : string :=
  match value with
  | Some s => if decide (s = EmptyString) then fallback else s
  | None => fallback
  end.

Record ExecutionRequest : Type := {
  er_document : string;
  er_variables : option (gmap string JsValue);
  er_extensions : option (gmap string JsValue);
  er_operationName : option string;
  er_operationType : option string }.

Record GraphQLParams : Type := {
  gp_query : option string;
  gp_variables : option (gmap string JsValue);
  gp_extensions : option (gmap string JsValue) }.

Definition defaultExecutionRequestSerializer (rt : Runtime)
    (executionRequest : ExecutionRequest) : string :=
  stringifyRequest rt (er_document executionRequest) (er_variables executionRequest).

Definition defaultParamsSerializer (rt : Runtime) (params : GraphQLParams) : string :=
  stringifyParams rt (gp_query params)
    (match gp_variables params with
     | Some variables => if decide (variables = ∅) then None else Some variables
     | None => None
     end).

Record HMACUpstreamSignatureOptions : Type := {
  hs_secret : string;
  hs_shouldSign : option (string -> nat -> ExecutionRequest -> bool);
  hs_extensionName : option string;
  hs_serializeExecutionRequest : option (ExecutionRequest -> string) }.

Record HMACUpstreamSignatureValidationOptions : Type := {
  hv_secret : string;
  hv_extensionName : option string;
  hv_serializeParams : option (GraphQLParams -> string) }.

Definition secretRequired (plugin : string) : string :=
  "Property " +:+ dquote +:+ "secret" +:+ dquote +:+ " is required for " +:+ plugin
  +:+ " plugin".

(** The check on which [useHmacUpstreamSignature] builds the plugin. *)
Definition useHmacUpstreamSignature (options : HMACUpstreamSignatureOptions)
    : thrown HMACUpstreamSignatureOptions :=
  if decide (hs_secret options = EmptyString)
  then Threw (secretRequired "useHmacUpstreamSignature")
  else Returned options.

Definition signingSerializer (rt : Runtime) (options : HMACUpstreamSignatureOptions)
    : ExecutionRequest -> string :=
  default (defaultExecutionRequestSerializer rt) (hs_serializeExecutionRequest options).

(** The signature of a request: base64 of the HMAC of its serialization. *)
Definition signatureOf (rt : Runtime) (options : HMACUpstreamSignatureOptions)
    (key : CryptoKey) (executionRequest : ExecutionRequest) : string :=
  btoa rt (sign rt key (encode rt (signingSerializer rt options executionRequest))).

(** [onSubgraphExecute] of the signing plugin, from the cached key: the
    request given to [setExecutionRequest], if it is called, and the cache. *)
Definition onSubgraphExecute (rt : Runtime) (options : HMACUpstreamSignatureOptions)
    (cache : option CryptoKey) (subgraphName : string) (subgraph : nat)
    (executionRequest : ExecutionRequest)
    : option ExecutionRequest * option CryptoKey :=
  let shouldSign := default (fun _ _ _ => true) (hs_shouldSign options) in
  let extensionName := orElse (hs_extensionName options) DEFAULT_EXTENSION_NAME in
  if shouldSign subgraphName subgraph executionRequest then
    let key := cachedKey rt (hs_secret options) ["sign"] cache in
    let extensionValue := signatureOf rt options key executionRequest in
    (Some {| er_document := er_document executionRequest;
             er_variables := er_variables executionRequest;
             er_extensions :=
               Some (<[extensionName := JsString extensionValue]>
                       (default ∅ (er_extensions executionRequest)));
             er_operationName := er_operationName executionRequest;
             er_operationType := er_operationType executionRequest |},
     Some key)
  else (None, cache).

(** The check on which [useHmacSignatureValidation] builds the plugin. *)
Definition useHmacSignatureValidation (options : HMACUpstreamSignatureValidationOptions)
    : thrown HMACUpstreamSignatureValidationOptions :=
  if decide (hv_secret options = EmptyString)
  then Threw (secretRequired "useHmacSignatureValidation")
  else Returned options.

Definition paramsSerializer (rt : Runtime) (options : HMACUpstreamSignatureValidationOptions)
    : GraphQLParams -> string :=
  default (defaultParamsSerializer rt) (hv_serializeParams options).

Definition missingSignature (extensionName : string) : string :=
  "Missing HMAC signature: extension " +:+ extensionName +:+ " not found in request.".

Definition invalidSignature (extensionName : string) : string :=
  "Invalid HMAC signature: extension " +:+ extensionName
  +:+ " does not match the body content.".

(** [onParams] of the validation plugin, from the cached key: what it
    returns or throws, the key it holds afterwards, and the number of keys it
    imported.  The extensions of the parameters are a plain object, as the
    parser of the request body makes them. *)
Definition onParamsCounted (rt : Runtime)
    (options : HMACUpstreamSignatureValidationOptions)
    (cache : option CryptoKey) (params : GraphQLParams)
    : thrown unit * option CryptoKey * nat :=
  let extensionName := orElse (hv_extensionName options) DEFAULT_EXTENSION_NAME in
  let verified (decoded : thrown (list nat)) :=
    let key := cachedKey rt (hv_secret options) ["verify"] cache in
    match decoded with
    | Threw message => (Threw message, Some key, keyImports cache)
    | Returned sigBuf =>
        let serializedParams := paramsSerializer rt options params in
        if verify rt key sigBuf (encode rt serializedParams)
        then (Returned tt, Some key, keyImports cache)
        else (Threw (invalidSignature extensionName), Some key, keyImports cache)
    end in
  match gp_extensions params ≫= fun extensions => getProperty extensions extensionName with
  | None => (Threw (missingSignature extensionName), cache, 0)
  | Some (OwnProperty extension) =>
      if negb (jsTruthy extension)
      then (Threw (missingSignature extensionName), cache, 0)
      else verified (atob rt extension)
  | Some (InheritedMember member) => verified (atobMember rt member)
  end.

(** [onParams]: what it returns or throws, and the key held afterwards. *)
Definition onParams (rt : Runtime) (options : HMACUpstreamSignatureValidationOptions)
    (cache : option CryptoKey) (params : GraphQLParams)
    : thrown unit * option CryptoKey :=
  (onParamsCounted rt options cache params).1.

(** A toy runtime: the HMAC of a message is the key material followed by the
    message, and base64 is a list of characters. *)
Definition toyRuntime : Runtime :=
  {| encode := fun s => nat_of_ascii <$> String.list_ascii_of_string s;
     sign := fun key message => key_material key ++ message;
     verify := fun key signature message =>
                 bool_decide (signature = key_material key ++ message);
     btoa := fun bytes => String.string_of_list_ascii (ascii_of_nat <$> bytes);
     atob := fun v =>
               match v with
               | JsString s => Returned (nat_of_ascii <$> String.list_ascii_of_string s)
               | _ => Threw "Invalid character"
               end;
     atobMember := fun _ => Threw "Invalid character";
     stringifyRequest := fun document _ => document;
     stringifyParams := fun query _ => default "none" query |}.

(** The calls of [onParams] for the requests a server receives, one after the
    other, on the key the plugin closes over: the verdicts, the key held in
    the end, and the number of keys imported. *)
Fixpoint validateAll (rt : Runtime) (options : HMACUpstreamSignatureValidationOptions)
    (cache : option CryptoKey) (requests : list GraphQLParams)
    : list (thrown unit) * option CryptoKey * nat :=
  match requests with
  | [] => ([], cache, 0)
  | params :: rest =>
      let '(verdict, cache', imports) := onParamsCounted rt options cache params in
      let '(verdicts, cache'', imports') := validateAll rt options cache' rest in
      (verdict :: verdicts, cache'', imports + imports')
  end.

(** The keys to import between two states of the key a plugin holds: one, to
    fill an empty one. *)
Definition importsBetween (before after : option CryptoKey) : nat :=
  match before with
  | Some _ => 0
  | None => match after with Some _ => 1 | None => 0 end
  end.

(** The variables of parameters, absent ones read as none. *)
Definition variablesOf (params : GraphQLParams) : gmap string JsValue :=
  default ∅ (gp_variables params).

(** A key cache of a plugin: empty, or the key of its secret. *)
Definition cacheOf (rt : Runtime) (secret : string) (usages : list string)
    (cache : option CryptoKey) : Prop :=
  cache = None \/ cache = Some (createCryptoKey rt secret usages).

Definition sampleRequest : ExecutionRequest :=
  {| er_document := "{ me }"; er_variables := None;
     er_extensions := Some {["trace" := JsBool true]};
     er_operationName := None; er_operationType := None |}.

Definition signingOptions : HMACUpstreamSignatureOptions :=
  {| hs_secret := "s3"; hs_shouldSign := None; hs_extensionName := None;
     hs_serializeExecutionRequest := None |}.

Definition validationOptions : HMACUpstreamSignatureValidationOptions :=
  {| hv_secret := "s3"; hv_extensionName := Some EmptyString; hv_serializeParams := None |}.

(** * Properties *)

(** ** Lists and dictionaries *)

Lemma filter_all {A : Type} (f : A -> bool) (l : list A) :
  Forall (fun x => f x = true) l -> List.filter f l = l.
Proof.
  induction 1 as [|x l Hx _ IH]; simpl; [reflexivity|].
  rewrite Hx. f_equal. exact IH.
Qed.

Lemma filter_length_le {A : Type} (f : A -> bool) (l : list A) :
  length (List.filter f l) <= length l.
Proof. induction l as [|x l IH]; simpl; [lia|]. destruct (f x); simpl; lia. Qed.

Lemma filter_elem_of {A : Type} (f : A -> bool) (l : list A) (x : A) :
  x ∈ List.filter f l <-> x ∈ l /\ f x = true.
Proof. rewrite !list_elem_of_In. apply filter_In. Qed.


Lemma last_elem_of {A : Type} (l : list A) (x : A) : last l = Some x -> x ∈ l.
Proof. intros [l' ->]%last_Some. set_solver. Qed.

Lemma elem_of_concat {A : Type} (x : A) (ls : list (list A)) :
  x ∈ concat ls <-> exists l, l ∈ ls /\ x ∈ l.
Proof.
  induction ls as [|l ls IH]; simpl.
  - split; [intros H; by apply elem_of_nil in H|].
    intros (l & H & _). by apply elem_of_nil in H.
  - rewrite elem_of_app, IH. split.
    + intros [Hx|(l' & Hl' & Hx)]; [exists l|exists l']; split; try done;
        [left|by right].
    + intros (l' & [->|Hl']%elem_of_cons & Hx); [by left|right; by exists l'].
Qed.

(** ** The default type-candidate merger *)

Lemma defaultTypeCandidateMerger_none candidates c :
  List.filter marksCanonical candidates = [] ->
  last candidates = Some c ->
  defaultTypeCandidateMerger candidates = Ok c.
Proof.
  intros Hnone Hlast. unfold defaultTypeCandidateMerger.
  rewrite Hnone, Hlast. reflexivity.
Qed.

Lemma defaultTypeCandidateMerger_one candidates c :
  List.filter marksCanonical candidates = [c] ->
  defaultTypeCandidateMerger candidates = Ok c.
Proof. intros Hone. unfold defaultTypeCandidateMerger. rewrite Hone. reflexivity. Qed.

Lemma defaultTypeCandidateMerger_many candidates :
  1 < length (List.filter marksCanonical candidates) ->
  exists first,
    head (List.filter marksCanonical candidates) = Some first /\
    defaultTypeCandidateMerger candidates = Err (MultipleCanonicalError (typeName_of first)).
Proof.
  intros Hmany. unfold defaultTypeCandidateMerger.
  destruct (List.filter marksCanonical candidates) as [|first rest] eqn:Hf;
    simpl in Hmany; [lia|].
  exists first. split; [reflexivity|].
  destruct rest; simpl in *; [lia|reflexivity].
Qed.

Lemma defaultTypeCandidateMerger_elem_of candidates c :
  defaultTypeCandidateMerger candidates = Ok c -> c ∈ candidates.
Proof.
  unfold defaultTypeCandidateMerger.
  destruct (List.filter marksCanonical candidates) as [|first rest] eqn:Hf.
  - simpl. destruct (last candidates) eqn:Hl; [|discriminate].
    intros [= <-]. by apply last_elem_of.
  - destruct rest; simpl; [|discriminate].
    intros [= <-].
    assert (first ∈ List.filter marksCanonical candidates) as Hin by (rewrite Hf; left).
    by apply filter_elem_of in Hin as [? _].
Qed.

(** ** The ordering *)

Lemma differs_self c : differs c c = false.
Proof. unfold differs. by rewrite Nat.eqb_refl. Qed.

Lemma filter_differs_split before c after :
  NoDup (cand_id <$> (before ++ c :: after)) ->
  List.filter (differs c) (before ++ c :: after) = before ++ after.
Proof.
  intros Hnd. rewrite fmap_app, fmap_cons in Hnd.
  apply NoDup_app in Hnd as (_ & Hbefore & Hrest).
  apply NoDup_cons in Hrest as [Hafter _].
  rewrite List.filter_app. simpl. rewrite differs_self.
  f_equal; apply filter_all, Forall_forall; intros x Hx; unfold differs;
    apply negb_true_iff, Nat.eqb_neq; intros Heq.
  - apply (Hbefore (cand_id x)); [|rewrite Heq; left].
    apply list_elem_of_fmap. by exists x.
  - apply Hafter. rewrite <- Heq.
    apply list_elem_of_fmap. by exists x.
Qed.

Lemma orderedTypeCandidates_default candidates typeMergingOptions :
  typeMergingOptions ≫= typeCandidateMerger = None ->
  orderedTypeCandidates candidates typeMergingOptions =
    (candidate ← defaultTypeCandidateMerger candidates;
     Ok (List.filter (differs candidate) candidates ++ [candidate])).
Proof. intros Hdefault. unfold orderedTypeCandidates. rewrite Hdefault. reflexivity. Qed.

Lemma orderedTypeCandidates_single c typeMergingOptions :
  typeMergingOptions ≫= typeCandidateMerger = None ->
  orderedTypeCandidates [c] typeMergingOptions = Ok [c].
Proof.
  intros Hdefault. rewrite orderedTypeCandidates_default by assumption.
  assert (defaultTypeCandidateMerger [c] = Ok c) as ->.
  { unfold defaultTypeCandidateMerger. simpl. by destruct (marksCanonical c). }
  simpl. by rewrite differs_self.
Qed.

(** ** What every merger does alike *)

Lemma bind_Ok {A B : Type} (m : result A) (f : A -> result B) (b : B) :
  m ≫= f = Ok b -> exists a, m = Ok a /\ f a = Ok b.
Proof. destruct m as [a|e]; simpl; [eauto|discriminate]. Qed.

Lemma bind_Err {A B : Type} (m : result A) (f : A -> result B) (e : error) :
  m = Err e -> m ≫= f = Err e.
Proof. by intros ->. Qed.

Ltac inv_bind H :=
  repeat match type of H with
         | _ ≫= _ = Ok _ =>
             let a := fresh "a" in
             let Ha := fresh "Ha" in
             apply bind_Ok in H as (a & Ha & H)
         end.

Section MergersAlike.

Context (ext : Collaborators).

Ltac merger_shape :=
  let H := fresh "H" in
  intros H; inv_bind H; injection H as <-; do 3 eexists; eauto.

Lemma mergeObjectTypeCandidates_shape typeName candidates opts t :
  mergeObjectTypeCandidates ext typeName candidates opts = Ok t ->
  mergedFrom typeName candidates opts t.
Proof. unfold mergeObjectTypeCandidates. merger_shape. Qed.

Lemma mergeInputObjectTypeCandidates_shape typeName candidates opts t :
  mergeInputObjectTypeCandidates ext typeName candidates opts = Ok t ->
  mergedFrom typeName candidates opts t.
Proof. unfold mergeInputObjectTypeCandidates. merger_shape. Qed.

Lemma mergeInterfaceTypeCandidates_shape typeName candidates opts t :
  mergeInterfaceTypeCandidates ext typeName candidates opts = Ok t ->
  mergedFrom typeName candidates opts t.
Proof. unfold mergeInterfaceTypeCandidates. merger_shape. Qed.

Lemma mergeUnionTypeCandidates_shape typeName candidates opts t :
  mergeUnionTypeCandidates ext typeName candidates opts = Ok t ->
  mergedFrom typeName candidates opts t.
Proof. unfold mergeUnionTypeCandidates. merger_shape. Qed.

Lemma mergeEnumTypeCandidates_shape typeName candidates opts t :
  mergeEnumTypeCandidates ext typeName candidates opts = Ok t ->
  mergedFrom typeName candidates opts t.
Proof. unfold mergeEnumTypeCandidates. merger_shape. Qed.

Lemma mergeScalarTypeCandidates_shape typeName candidates opts t :
  mergeScalarTypeCandidates ext typeName candidates opts = Ok t ->
  mergedFrom typeName candidates opts t.
Proof. unfold mergeScalarTypeCandidates. merger_shape. Qed.

Lemma mergeCandidates_shape typeName candidates opts t :
  mergeCandidates ext typeName candidates opts = Ok t ->
  mergedFrom typeName candidates opts t.
Proof.
  unfold mergeCandidates.
  destruct (existsb _ candidates); [discriminate|].
  destruct (category <$> (type <$> head candidates)) as [[]|]; [..|discriminate];
    eauto using mergeObjectTypeCandidates_shape, mergeInputObjectTypeCandidates_shape,
      mergeInterfaceTypeCandidates_shape, mergeUnionTypeCandidates_shape,
      mergeEnumTypeCandidates_shape, mergeScalarTypeCandidates_shape.
Qed.


End MergersAlike.

(** ** Extensions *)

Lemma Object_assign_snoc {V : Type} (sources : list (gmap string V)) (s : gmap string V) :
  Object_assign (sources ++ [s]) = delete "__proto__" s ∪ Object_assign sources.
Proof. unfold Object_assign. by rewrite foldl_app. Qed.

(** The merged dictionary never has the key [__proto__]. *)
Lemma Object_assign_proto {V : Type} (sources : list (gmap string V)) :
  Object_assign sources !! "__proto__" = None.
Proof.
  induction sources as [|s sources IH] using rev_ind; [apply lookup_empty|].
  rewrite Object_assign_snoc, lookup_union, IH, lookup_delete_eq. reflexivity.
Qed.

(** Any other key of the merged dictionary holds the value of the last source
    that has it. *)
Lemma Object_assign_lookup {V : Type} (sources : list (gmap string V)) (k : string) :
  Object_assign sources !! k
  = if decide (k = "__proto__") then None else last (omap (fun s => s !! k) sources).
Proof.
  destruct (decide (k = "__proto__")) as [->|Hk]; [apply Object_assign_proto|].
  induction sources as [|s sources IH] using rev_ind; [apply lookup_empty|].
  rewrite Object_assign_snoc, lookup_union, omap_app, IH. simpl.
  rewrite lookup_delete_ne by congruence.
  destruct (s !! k) as [v|].
  - rewrite last_snoc. by destruct (last _).
  - rewrite app_nil_r. by destruct (last _).
Qed.



(** ** Category homogeneity *)

(** C4. Candidates of different GraphQL type categories: [mergeCandidates]
    fails with the category-mismatch error that names the type, whatever the
    options and the collaborators, so before any merger of one kind runs and
    without picking a candidate. *)
Theorem category_mismatch_rejected (ext : Collaborators) (typeName : string)
    (candidates : list MergeTypeCandidate) (opts : option TypeMergingOptions)
    (c1 c2 : MergeTypeCandidate) :
  c1 ∈ candidates -> c2 ∈ candidates ->
  category (type c1) <> category (type c2) ->
  mergeCandidates ext typeName candidates opts = Err (CategoryMismatchError typeName).
Proof.
  intros H1 H2 Hdiff. unfold mergeCandidates.
  destruct candidates as [|c0 rest]; [by apply elem_of_nil in H1|]. simpl head. simpl fmap.
  assert (exists c, c ∈ c0 :: rest /\ category (type c) <> category (type c0))
    as (c & Hin & Hc).
  { destruct (decide (category (type c1) = category (type c0))) as [Heq|];
      [exists c2|exists c1]; split; try done. congruence. }
  assert (existsb
            (fun candidate =>
               negb (bool_decide (Some (category (type candidate))
                                  = Some (category (type c0)))))
            (c0 :: rest) = true) as ->; [|reflexivity].
  apply existsb_exists. exists c. split; [by apply list_elem_of_In|].
  apply negb_true_iff, bool_decide_eq_false. congruence.
Qed.

Lemma category_mismatch_rejected_witness :
  mergeCandidates permissive "Foo"
    [fooScalar 1 "a" None plainConfig; fooCandidate 2 "b" StringType [] [] plainConfig]
    None
  = Err (CategoryMismatchError "Foo").
Proof.
  apply (category_mismatch_rejected permissive "Foo" _ None
           (fooScalar 1 "a" None plainConfig)
           (fooCandidate 2 "b" StringType [] [] plainConfig)).
  - apply list_elem_of_here.
  - apply list_elem_of_further, list_elem_of_here.
  - simpl. discriminate.
Defined.

(** ** Syntax-tree nodes of a merged type *)






(** ** Canonical candidates and the ordering *)



(** C3. A non-empty list of distinct candidate objects, of which at most one
    is marked canonical, under the default type-candidate merger: a candidate
    is chosen (the marked one if there is one, the last one otherwise), and
    the ordering returns the input with that candidate moved to the end and
    the other candidates in their input order; when no candidate is marked,
    the chosen candidate is the last one and the output is the input. *)
Theorem ordering_moves_canonical_last (candidates : list MergeTypeCandidate)
    (opts : option TypeMergingOptions) :
  candidates <> [] ->
  NoDup (cand_id <$> candidates) ->
  opts ≫= typeCandidateMerger = None ->
  length (List.filter marksCanonical candidates) <= 1 ->
  exists c before after,
    defaultTypeCandidateMerger candidates = Ok c /\
    candidates = before ++ c :: after /\
    orderedTypeCandidates candidates opts = Ok (before ++ after ++ [c]) /\
    (forall m, m ∈ candidates -> marksCanonical m = true -> c = m) /\
    (List.filter marksCanonical candidates = [] ->
       last candidates = Some c /\
       orderedTypeCandidates candidates opts = Ok candidates).
Proof.
  intros Hne Hnd Hdefault Hcount.
  destruct (List.filter marksCanonical candidates) as [|m rest] eqn:Hf.
  - destruct (proj2 (last_is_Some candidates) Hne) as [c Hlast].
    destruct (proj1 (last_Some candidates c) Hlast) as [before Hsplit].
    assert (orderedTypeCandidates candidates opts = Ok candidates) as Hordered.
    { rewrite orderedTypeCandidates_default by assumption.
      rewrite (defaultTypeCandidateMerger_none candidates c Hf Hlast). simpl.
      rewrite Hsplit at 1. rewrite Hsplit in Hnd.
      rewrite (filter_differs_split before c [] Hnd), app_nil_r.
      by rewrite Hsplit. }
    exists c, before, []. repeat split; try done.
    + by apply defaultTypeCandidateMerger_none.
    + simpl. by rewrite Hordered, Hsplit.
    + intros m Hin Hm.
      assert (m ∈ List.filter marksCanonical candidates) as Hmf
        by by apply filter_elem_of.
      rewrite Hf in Hmf. by apply elem_of_nil in Hmf.
  - destruct rest as [|]; [|simpl in Hcount; lia].
    assert (m ∈ candidates) as Hin.
    { assert (m ∈ List.filter marksCanonical candidates) as Hmf by (rewrite Hf; left).
      by apply filter_elem_of in Hmf as [? _]. }
    apply list_elem_of_split in Hin as (before & after & Hsplit).
    exists m, before, after. repeat split; try done.
    + by apply defaultTypeCandidateMerger_one.
    + rewrite orderedTypeCandidates_default by assumption.
      rewrite (defaultTypeCandidateMerger_one candidates m Hf). simpl.
      rewrite Hsplit at 1. rewrite Hsplit in Hnd.
      by rewrite (filter_differs_split before m after Hnd), <- app_assoc.
    + intros m' Hin' Hm'.
      assert (m' ∈ List.filter marksCanonical candidates) as Hmf
        by by apply filter_elem_of.
      rewrite Hf in Hmf. by apply list_elem_of_singleton in Hmf.
Qed.

Lemma ordering_moves_canonical_last_witness :
  let A := fooCandidate 1 "a" StringType [] [] (canonicalConfig "Foo") in
  let B := fooCandidate 2 "b" StringType [] [] plainConfig in
  let C := fooCandidate 3 "c" StringType [] [] plainConfig in
  (exists c before after,
     defaultTypeCandidateMerger [B; A; C] = Ok c /\
     [B; A; C] = before ++ c :: after /\
     orderedTypeCandidates [B; A; C] None = Ok (before ++ after ++ [c]) /\
     (forall m, m ∈ [B; A; C] -> marksCanonical m = true -> c = m) /\
     (List.filter marksCanonical [B; A; C] = [] ->
        last [B; A; C] = Some c /\ orderedTypeCandidates [B; A; C] None = Ok [B; A; C])) /\
  orderedTypeCandidates [B; A; C] None = Ok [B; C; A] /\
  orderedTypeCandidates [B; C] None = Ok [B; C].
Proof.
  intros A B C. split; [|split; reflexivity].
  apply (ordering_moves_canonical_last [B; A; C] None).
  - discriminate.
  - refine (bool_decide_unpack _ _). vm_compute. exact I.
  - reflexivity.
  - simpl. lia.
Defined.

(** ** Ordered dictionaries *)

Lemma obj_get_set {V : Type} (k k' : string) (v : V) (o : obj V) :
  obj_get k' (obj_set k v o) = if decide (k = k') then Some v else obj_get k' o.
Proof.
  induction o as [|[k0 v0] o IH]; simpl.
  - repeat case_decide; congruence.
  - destruct (decide (k0 = k)) as [->|Hne]; simpl.
    + repeat case_decide; congruence.
    + rewrite IH. repeat case_decide; congruence.
Qed.

Lemma obj_get_None {V : Type} (k : string) (o : obj V) :
  obj_get k o = None <-> k ∉ Object_keys o.
Proof.
  unfold Object_keys. induction o as [|[k0 v0] o IH]; simpl.
  - split; [intros _; apply not_elem_of_nil|done].
  - rewrite not_elem_of_cons. case_decide as Hk.
    + split; [discriminate|]. intros [? _]. congruence.
    + rewrite IH. split; [intros ?; split; [congruence|done]|intros [_ ?]; done].
Qed.

Lemma obj_get_Some_elem_of {V : Type} (k : string) (v : V) (o : obj V) :
  obj_get k o = Some v -> (k, v) ∈ o.
Proof.
  induction o as [|[k0 v0] o IH]; simpl; [discriminate|].
  case_decide; [intros [= <-]; subst; left|intros; right; auto].
Qed.

Lemma obj_elem_of_get {V : Type} (k : string) (v : V) (o : obj V) :
  obj_wf o -> (k, v) ∈ o -> obj_get k o = Some v.
Proof.
  unfold obj_wf, Object_keys. induction o as [|[k0 v0] o IH]; simpl.
  - intros _ H. by apply elem_of_nil in H.
  - intros [Hfresh Hwf]%NoDup_cons [[= -> ->]|Hin]%elem_of_cons.
    + by rewrite decide_True.
    + rewrite decide_False; [auto|]. intros ->. apply Hfresh.
      apply list_elem_of_fmap. by exists (k, v).
Qed.

Lemma obj_set_fresh {V : Type} (k : string) (v : V) (o : obj V) :
  k ∉ Object_keys o -> obj_set k v o = o ++ [(k, v)].
Proof.
  unfold Object_keys. induction o as [|[k0 v0] o IH]; simpl; [done|].
  rewrite not_elem_of_cons. intros [Hne Hfresh].
  rewrite decide_False by congruence. by rewrite IH.
Qed.

Lemma obj_set_keys_present {V : Type} (k : string) (v : V) (o : obj V) :
  k ∈ Object_keys o -> Object_keys (obj_set k v o) = Object_keys o.
Proof.
  unfold Object_keys. induction o as [|[k0 v0] o IH]; simpl.
  - intros H. by apply elem_of_nil in H.
  - intros Hin. case_decide as Hk; simpl; [by rewrite Hk|].
    f_equal. apply IH. apply elem_of_cons in Hin as [->|]; done.
Qed.

Lemma obj_wf_set {V : Type} (k : string) (v : V) (o : obj V) :
  obj_wf o -> obj_wf (obj_set k v o).
Proof.
  intros Hwf. unfold obj_wf. destruct (decide (k ∈ Object_keys o)) as [Hin|Hfresh].
  - by rewrite obj_set_keys_present.
  - rewrite obj_set_fresh by done. unfold Object_keys. rewrite fmap_app. simpl.
    apply NoDup_app. split; [exact Hwf|]. split; [|apply NoDup_singleton].
    intros x Hx ->%list_elem_of_singleton. done.
Qed.

(** ** Union by name *)

Lemma unionByName_insertAll (lists : list (list TypeRef)) :
  unionByName lists = Object_values (insertAll [] (concat lists)).
Proof.
  unfold unionByName, insertAll. f_equal. generalize ([] : obj TypeRef).
  induction lists as [|refs lists IH]; intros acc; simpl; [reflexivity|].
  by rewrite foldl_app, IH.
Qed.

Lemma insertAll_get (acc : obj TypeRef) (refs : list TypeRef) (k : string) :
  obj_get k (insertAll acc refs) =
    match last (List.filter (named k) refs) with
    | Some r => Some r
    | None => obj_get k acc
    end.
Proof.
  revert acc. induction refs as [|r refs IH]; intros acc; simpl; [reflexivity|].
  fold (insertAll (obj_set (ref_name r) r acc) refs). rewrite IH, obj_get_set.
  unfold named at 2. destruct (decide (ref_name r = k)) as [Hk|Hk].
  - rewrite bool_decide_eq_true_2 by done. rewrite last_cons.
    by destruct (last (List.filter (named k) refs)).
  - by rewrite bool_decide_eq_false_2 by done.
Qed.

Lemma insertAll_wf (acc : obj TypeRef) (refs : list TypeRef) :
  obj_wf acc -> obj_wf (insertAll acc refs).
Proof.
  revert acc. induction refs as [|r refs IH]; intros acc Hwf; simpl; [done|].
  apply IH. by apply obj_wf_set.
Qed.

Lemma last_filter_named (k : string) (refs : list TypeRef) (r : TypeRef) :
  last (List.filter (named k) refs) = Some r -> r ∈ refs /\ ref_name r = k.
Proof.
  intros Hlast%last_elem_of%filter_elem_of. destruct Hlast as [Hin Hk].
  split; [done|]. by apply bool_decide_eq_true in Hk.
Qed.

Lemma last_filter_named_None (k : string) (refs : list TypeRef) :
  last (List.filter (named k) refs) = None <-> k ∉ ref_name <$> refs.
Proof.
  rewrite last_None. split.
  - intros Hnil (r & -> & Hin)%list_elem_of_fmap.
    assert (r ∈ List.filter (named (ref_name r)) refs) as Hf.
    { apply filter_elem_of. split; [done|]. by apply bool_decide_eq_true. }
    rewrite Hnil in Hf. by apply elem_of_nil in Hf.
  - intros Hfresh. destruct (List.filter (named k) refs) as [|r rest] eqn:Hf; [done|].
    exfalso. apply Hfresh.
    assert (r ∈ List.filter (named k) refs) as [Hin Hk]%filter_elem_of
      by (rewrite Hf; left).
    apply bool_decide_eq_true in Hk. apply list_elem_of_fmap. by exists r.
Qed.

(** The union by name of lists of references: no name twice, the names are
    those of the lists, and a name stands for its last reference. *)
Lemma unionByName_spec (lists : list (list TypeRef)) :
  NoDup (ref_name <$> unionByName lists) /\
  (forall n, n ∈ ref_name <$> unionByName lists <-> n ∈ ref_name <$> concat lists) /\
  (forall r, r ∈ unionByName lists ->
             last (List.filter (named (ref_name r)) (concat lists)) = Some r).
Proof.
  rewrite unionByName_insertAll. set (refs := concat lists).
  assert (obj_wf (insertAll [] refs)) as Hwf by (apply insertAll_wf, NoDup_nil_2).
  assert (forall k r, (k, r) ∈ insertAll [] refs ->
                      last (List.filter (named k) refs) = Some r) as Hentry.
  { intros k r Hin. apply (obj_elem_of_get _ _ _ Hwf) in Hin.
    rewrite insertAll_get in Hin. simpl in Hin.
    by destruct (last (List.filter (named k) refs)). }
  assert (ref_name <$> Object_values (insertAll [] refs) = Object_keys (insertAll [] refs))
    as Hnames.
  { unfold Object_values, Object_keys. rewrite <- list_fmap_compose.
    apply list_fmap_ext. intros i [k r] Hi. simpl.
    apply list_elem_of_lookup_2, Hentry, last_filter_named in Hi. tauto. }
  split; [by rewrite Hnames|]. split.
  - intros n. rewrite Hnames.
    destruct (decide (n ∈ ref_name <$> refs)) as [Hin|Hout].
    + split; [done|]. intros _.
      destruct (decide (n ∈ Object_keys (insertAll [] refs))) as [|Hfresh]; [done|].
      apply obj_get_None in Hfresh. rewrite insertAll_get in Hfresh.
      exfalso. apply (proj1 (last_filter_named_None n refs)); [|done].
      by destruct (last (List.filter (named n) refs)).
    + split; [|done]. intros Hkey. exfalso.
      apply last_filter_named_None in Hout.
      assert (obj_get n (insertAll [] refs) = None) as Hnone
        by (rewrite insertAll_get, Hout; reflexivity).
      by apply obj_get_None in Hnone.
  - intros r Hr. unfold Object_values in Hr.
    apply list_elem_of_fmap in Hr as ([k r'] & -> & Hin). simpl.
    pose proof (Hentry k r' Hin) as Hlast.
    destruct (last_filter_named _ _ _ Hlast) as [_ ->]. exact Hlast.
Qed.

Lemma orderedTypeCandidates_members candidates opts ordered :
  opts ≫= typeCandidateMerger = None ->
  identified candidates ->
  orderedTypeCandidates candidates opts = Ok ordered ->
  forall c, c ∈ ordered <-> c ∈ candidates.
Proof.
  intros Hdefault Hid Hordered c.
  rewrite orderedTypeCandidates_default in Hordered by assumption.
  apply bind_Ok in Hordered as (chosen & Hchosen & [= <-]).
  apply defaultTypeCandidateMerger_elem_of in Hchosen.
  rewrite elem_of_app, filter_elem_of, list_elem_of_singleton. split.
  - intros [[? _]| ->]; done.
  - intros Hin. destruct (decide (cand_id c = cand_id chosen)) as [Heq|Hne].
    + right. by apply Hid.
    + left. split; [done|]. by apply negb_true_iff, Nat.eqb_neq.
Qed.

(** ** Interfaces of a merged object type *)

(** C7. The interfaces of a merged object type, with the candidates in the
    order of the merge: no interface name occurs twice, the names are those of
    the interfaces that some candidate implements, and for each name the
    reference kept is the last one of that name, so that of the later
    candidate (the candidates of the ordered list are those of the input
    under the default ordering). *)
Theorem interface_union (ext : Collaborators) (typeName : string)
    (candidates : list MergeTypeCandidate) (opts : option TypeMergingOptions)
    (t : GraphQLNamedType) :
  mergeObjectTypeCandidates ext typeName candidates opts = Ok t ->
  exists ordered,
    orderedTypeCandidates candidates opts = Ok ordered /\
    NoDup (ref_name <$> type_interfaces t) /\
    (forall n, n ∈ ref_name <$> type_interfaces t <->
               exists c, c ∈ ordered /\ n ∈ ref_name <$> type_interfaces (type c)) /\
    (forall i, i ∈ type_interfaces t ->
               last (List.filter (named (ref_name i))
                       (concat ((fun c => type_interfaces (type c)) <$> ordered)))
               = Some i) /\
    (opts ≫= typeCandidateMerger = None -> identified candidates ->
     forall c, c ∈ ordered <-> c ∈ candidates).
Proof.
  intros Hmerge. unfold mergeObjectTypeCandidates in Hmerge. inv_bind Hmerge.
  injection Hmerge as <-. rename a into ordered. exists ordered.
  split; [done|]. unfold type_interfaces at 1 3 5. simpl.
  destruct (unionByName_spec ((fun c => type_interfaces (type c)) <$> ordered))
    as (Hnodup & Hnames & Hlast).
  split; [exact Hnodup|]. split; [|split; [exact Hlast|]].
  - intros n. rewrite Hnames. rewrite list_elem_of_fmap. split.
    + intros (r & -> & (refs & Hrefs & Hr)%elem_of_concat).
      apply list_elem_of_fmap in Hrefs as (c & -> & Hc).
      exists c. split; [done|]. apply list_elem_of_fmap. by exists r.
    + intros (c & Hc & (r & -> & Hr)%list_elem_of_fmap).
      exists r. split; [done|]. apply elem_of_concat.
      exists (type_interfaces (type c)). split; [|done].
      apply list_elem_of_fmap. by exists c.
  - intros Hdefault Hid. by apply (orderedTypeCandidates_members candidates opts).
Qed.

Lemma interface_union_witness :
  let A := fooCandidate 1 "a" StringType [IfaceA] [] plainConfig in
  let B := fooCandidate 2 "b" StringType [IfaceA'; IfaceB] [] plainConfig in
  exists t,
    mergeObjectTypeCandidates permissive "Foo" [A; B] None = Ok t /\
    type_interfaces t = [IfaceA'; IfaceB] /\
    NoDup (ref_name <$> type_interfaces t).
Proof.
  intros A B.
  assert (exists t, mergeObjectTypeCandidates permissive "Foo" [A; B] None = Ok t)
    as [t Ht] by (eexists; reflexivity).
  exists t. split; [exact Ht|].
  destruct (interface_union permissive "Foo" [A; B] None t Ht)
    as (ordered & _ & Hnodup & _).
  split; [|exact Hnodup].
  vm_compute in Ht. injection Ht as <-. reflexivity.
Defined.

(** ** Extensions of a merged type *)

(** C9. The extensions of a merged type, with the candidates in the order
    of the merge: a key other than [__proto__] holds the value that the last
    candidate having the key, among those whose extensions are not null,
    gives it, and is absent when no candidate has it; the key [__proto__] is
    absent whatever the candidates hold under it, because the extensions are
    assigned to a plain object. *)
Theorem extensions_shallow_merge (ext : Collaborators) (typeName : string)
    (candidates : list MergeTypeCandidate) (opts : option TypeMergingOptions)
    (t : GraphQLNamedType) :
  mergeCandidates ext typeName candidates opts = Ok t ->
  exists ordered merged,
    orderedTypeCandidates candidates opts = Ok ordered /\
    extensions (common t) = Some merged /\
    forall k,
      merged !! k
      = if decide (k = "__proto__") then None
        else last (omap (fun e => e !! k) (pluck extensions ordered)).
Proof.
  intros (ordered & d & node & Hordered & _ & Hcommon)%mergeCandidates_shape.
  exists ordered, (Object_assign (pluck extensions ordered)).
  split; [exact Hordered|]. split; [by rewrite Hcommon|].
  intros k. apply Object_assign_lookup.
Qed.

Lemma extensions_shallow_merge_witness :
  let A := fooCandidate 1 "a" StringType []
             [("x", JsNumber 1); ("y", JsNumber 2)] plainConfig in
  let B := fooCandidate 2 "b" StringType []
             [("y", JsNumber 3); ("z", JsNumber 4)] plainConfig in
  let P := fooCandidate 3 "p" StringType []
             [("__proto__", JsNumber 5); ("x", JsNumber 6)] plainConfig in
  (exists t merged,
     mergeCandidates permissive "Foo" [A; B] None = Ok t /\
     extensions (common t) = Some merged /\
     merged !! "x" = Some (JsNumber 1) /\ merged !! "y" = Some (JsNumber 3) /\
     merged !! "z" = Some (JsNumber 4) /\ merged !! "w" = None /\
     merged = list_to_map [("x", JsNumber 1); ("y", JsNumber 3); ("z", JsNumber 4)]) /\
  (exists t merged,
     mergeCandidates permissive "Foo" [P] None = Ok t /\
     extensions (common (type P)) ≫= (fun e => e !! "__proto__") = Some (JsNumber 5) /\
     extensions (common t) = Some merged /\
     merged !! "__proto__" = None /\ merged !! "x" = Some (JsNumber 6)).
Proof.
  intros A B P. split.
  - assert (exists t, mergeCandidates permissive "Foo" [A; B] None = Ok t)
      as [t Ht] by (eexists; reflexivity).
    destruct (extensions_shallow_merge permissive "Foo" [A; B] None t Ht)
      as (ordered & merged & Hordered & Hmerged & Hlookup).
    exists t, merged. split; [exact Ht|]. split; [exact Hmerged|].
    assert (ordered = [A; B]) as -> by (vm_compute in Hordered; by injection Hordered).
    repeat (split; [rewrite Hlookup; reflexivity|]).
    clear Hlookup Hordered. vm_compute in Ht. injection Ht as <-.
    simpl in Hmerged. injection Hmerged as <-. vm_compute. reflexivity.
  - assert (exists t, mergeCandidates permissive "Foo" [P] None = Ok t)
      as [t Ht] by (eexists; reflexivity).
    destruct (extensions_shallow_merge permissive "Foo" [P] None t Ht)
      as (ordered & merged & Hordered & Hmerged & Hlookup).
    exists t, merged. split; [exact Ht|]. split; [reflexivity|].
    split; [exact Hmerged|].
    assert (ordered = [P]) as -> by (vm_compute in Hordered; by injection Hordered).
    split; rewrite Hlookup; reflexivity.
Defined.

(** ** Merged scalar types *)

Lemma firstSpecifiedByURL_found before c after url :
  Forall noURL before ->
  type_specifiedByURL (type c) = Some url -> url <> EmptyString ->
  firstSpecifiedByURL (before ++ c :: after) = Some url.
Proof.
  intros Hbefore Hurl Hne. unfold firstSpecifiedByURL, pluckPayload.
  induction Hbefore as [|b before [Hb|Hb] _ IH]; simpl; rewrite ?Hb; simpl.
  - rewrite Hurl. simpl. by rewrite bool_decide_eq_false_2.
  - exact IH.
  - exact IH.
Qed.

Lemma firstSpecifiedByURL_none candidates :
  Forall noURL candidates -> firstSpecifiedByURL candidates = None.
Proof.
  unfold firstSpecifiedByURL, pluckPayload.
  induction 1 as [|b rest [Hb|Hb] _ IH]; simpl; rewrite ?Hb; simpl; done.
Qed.

Lemma pluckPayload_last {T : Type} (p : GraphQLNamedType -> option T) init c (x : T) :
  p (type c) = Some x -> last (pluckPayload p (init ++ [c])) = Some x.
Proof.
  intros Hx. unfold pluckPayload. rewrite omap_app. simpl. rewrite Hx. apply last_snoc.
Qed.

(** C6, as the code has it. A merged scalar type, with the candidates in the
    order of the merge (the canonical candidate last): [serialize],
    [parseValue] and [parseLiteral] are each the last one among the functions
    that the candidates have, so that of the last candidate when it has one;
    [specifiedByURL] is that of the first candidate, in that same order, that
    has a non-empty one, and is absent when no candidate has one. *)
Theorem scalar_merge_in_merge_order (ext : Collaborators) (typeName : string)
    (candidates : list MergeTypeCandidate) (opts : option TypeMergingOptions)
    (t : GraphQLNamedType) :
  mergeScalarTypeCandidates ext typeName candidates opts = Ok t ->
  exists ordered,
    orderedTypeCandidates candidates opts = Ok ordered /\
    type_serialize t = last (pluckPayload type_serialize ordered) /\
    type_parseValue t = last (pluckPayload type_parseValue ordered) /\
    type_parseLiteral t = last (pluckPayload type_parseLiteral ordered) /\
    (forall init c f,
       ordered = init ++ [c] ->
       (type_serialize (type c) = Some f -> type_serialize t = Some f) /\
       (type_parseValue (type c) = Some f -> type_parseValue t = Some f) /\
       (type_parseLiteral (type c) = Some f -> type_parseLiteral t = Some f)) /\
    (forall before c after url,
       ordered = before ++ c :: after ->
       Forall noURL before ->
       type_specifiedByURL (type c) = Some url -> url <> EmptyString ->
       type_specifiedByURL t = Some url) /\
    (Forall noURL ordered -> type_specifiedByURL t = None).
Proof.
  intros Hmerge. unfold mergeScalarTypeCandidates in Hmerge. inv_bind Hmerge.
  injection Hmerge as <-. rename a into ordered. exists ordered.
  split; [done|]. do 3 (split; [reflexivity|]). split; [|split].
  - intros init c f ->. repeat split; intros Hf; by apply pluckPayload_last.
  - intros before c after url -> Hbefore Hurl Hne.
    by apply firstSpecifiedByURL_found.
  - apply firstSpecifiedByURL_none.
Qed.

Lemma scalar_merge_in_merge_order_witness :
  let A := fooScalar 1 "a" (Some "https://a.example") (canonicalConfig "Foo") in
  let B := fooScalar 2 "b" (Some "https://b.example") plainConfig in
  exists t,
    mergeScalarTypeCandidates permissive "Foo" [A; B] None = Ok t /\
    orderedTypeCandidates [A; B] None = Ok [B; A] /\
    type_serialize t = Some {| fn_id := 1 |} /\
    type_specifiedByURL t = Some "https://b.example".
Proof.
  intros A B.
  assert (exists t, mergeScalarTypeCandidates permissive "Foo" [A; B] None = Ok t)
    as [t Ht] by (eexists; reflexivity).
  exists t. split; [exact Ht|]. split; [reflexivity|].
  destruct (scalar_merge_in_merge_order permissive "Foo" [A; B] None t Ht)
    as (ordered & Hordered & _ & _ & _ & Hlast & Hurl & _).
  assert (ordered = [B; A]) as -> by (vm_compute in Hordered; by injection Hordered).
  split.
  - by apply (Hlast [B] A {| fn_id := 1 |}).
  - by apply (Hurl [] B [A] "https://b.example").
Defined.

(** C6, as stated, fails: the candidates are scanned in the order of the
    merge, not in the order of the input, and an empty [specifiedByURL],
    although not null, is passed over. *)
Lemma scalar_url_not_first_of_input :
  let A := fooScalar 1 "a" (Some "https://a.example") (canonicalConfig "Foo") in
  let B := fooScalar 2 "b" (Some "https://b.example") plainConfig in
  let E := fooScalar 3 "e" (Some EmptyString) plainConfig in
  (exists t,
     mergeCandidates permissive "Foo" [A; B] None = Ok t /\
     head (pluckPayload type_specifiedByURL [A; B]) = Some "https://a.example" /\
     type_specifiedByURL t = Some "https://b.example" /\
     type_specifiedByURL t <> head (pluckPayload type_specifiedByURL [A; B])) /\
  (exists t,
     mergeCandidates permissive "Foo" [E; B] None = Ok t /\
     head (pluckPayload type_specifiedByURL [E; B]) = Some EmptyString /\
     type_specifiedByURL t = Some "https://b.example" /\
     type_specifiedByURL t <> head (pluckPayload type_specifiedByURL [E; B])).
Proof. split; eexists; repeat split; try reflexivity; discriminate. Qed.

(** ** The default field-config merger *)

(** The four tallies are the configs of the candidates that pass four
    filters. *)
Lemma tally_fold (t0 : Tally) (candidates : list MergeFieldConfigCandidate) :
  foldl tallyStep t0 candidates =
    {| nullables := nullables t0 ++ (fieldConfig <$> List.filter nullableEligible candidates);
       nonNullables :=
         nonNullables t0 ++ (fieldConfig <$> List.filter nonNullableEligible candidates);
       canonicalByField :=
         canonicalByField t0 ++ (fieldConfig <$> List.filter marksField candidates);
       canonicalByType :=
         canonicalByType t0 ++ (fieldConfig <$> List.filter canonicalOnlyByType candidates) |}.
Proof.
  revert t0. induction candidates as [|c candidates IH]; intros t0; simpl.
  - rewrite !app_nil_r. by destruct t0.
  - rewrite IH. unfold tallyStep, nullableEligible, nonNullableEligible, marksField,
      canonicalOnlyByType, typeIsCanonical, marksField, eligible.
    destruct (isSubschemaConfig (fcc_transformedSubschema c)); simpl; [|reflexivity].
    destruct (fieldCanonical _ _ _), (typeCanonical _ _),
      (isNullableType (fc_type (fieldConfig c))); simpl;
      rewrite <- ?app_assoc; reflexivity.
Qed.

Lemma tally_spec (candidates : list MergeFieldConfigCandidate) :
  foldl tallyStep emptyTally candidates =
    {| nullables := fieldConfig <$> List.filter nullableEligible candidates;
       nonNullables := fieldConfig <$> List.filter nonNullableEligible candidates;
       canonicalByField := fieldConfig <$> List.filter marksField candidates;
       canonicalByType := fieldConfig <$> List.filter canonicalOnlyByType candidates |}.
Proof. apply tally_fold. Qed.

Lemma nonempty_filter_existsb {A B : Type} (g : A -> B) (f : A -> bool) (l : list A) :
  (0 <? length (g <$> List.filter f l)) = existsb f l.
Proof.
  induction l as [|x l IH]; simpl; [reflexivity|].
  destruct (f x); simpl; [reflexivity|exact IH].
Qed.

Lemma filter_filter_nil {A : Type} (f g : A -> bool) (l : list A) :
  List.filter f l = [] ->
  List.filter (fun x => g x && negb (f x)) l = List.filter g l.
Proof.
  induction l as [|x l IH]; simpl; [reflexivity|].
  destruct (f x) eqn:Hf; [discriminate|]. intros Hnil.
  rewrite andb_true_r, IH by done. reflexivity.
Qed.

(** The merger, read off the filters. *)
Lemma getDefaultFieldConfigMerger_unfold flag candidates :
  getDefaultFieldConfigMerger flag candidates =
    let relax := nullabilityConflict candidates && flag in
    match List.filter marksField candidates with
    | _ :: _ :: _ =>
        match head candidates with
        | Some first => Err (MultipleCanonicalError (fieldNamespace first))
        | None => Err FieldConfigRequired
        end
    | [c] => Ok (finalize relax (fieldConfig c))
    | [] =>
        match List.filter typeIsCanonical candidates with
        | c :: _ => Ok (finalize relax (fieldConfig c))
        | [] =>
            match last candidates with
            | Some c => Ok (finalize relax (fieldConfig c))
            | None => Err FieldConfigRequired
            end
        end
    end.
Proof.
  unfold getDefaultFieldConfigMerger. rewrite tally_spec. cbn [nullables nonNullables
    canonicalByField canonicalByType].
  rewrite (nonempty_filter_existsb fieldConfig nonNullableEligible),
    (nonempty_filter_existsb fieldConfig nullableEligible).
  fold (nullabilityConflict candidates).
  destruct (List.filter marksField candidates) as [|c1 [|c2 rest]] eqn:Hfield; simpl.
  - change canonicalOnlyByType with (fun x => typeIsCanonical x && negb (marksField x)).
    rewrite (filter_filter_nil marksField typeIsCanonical candidates Hfield).
    destruct (List.filter typeIsCanonical candidates) as [|c rest]; simpl; [|reflexivity].
    by destruct (last candidates).
  - reflexivity.
  - destruct candidates as [|first candidates]; [discriminate|reflexivity].
Qed.

(** The switch only relaxes the type of the result it would give when off. *)
Lemma getDefaultFieldConfigMerger_relax flag candidates :
  getDefaultFieldConfigMerger flag candidates =
    finalize (nullabilityConflict candidates && flag)
      <$> getDefaultFieldConfigMerger false candidates.
Proof.
  rewrite !getDefaultFieldConfigMerger_unfold. cbv zeta. rewrite andb_false_r.
  destruct (List.filter marksField candidates) as [|c1 [|c2 rest]]; simpl.
  - destruct (List.filter typeIsCanonical candidates); simpl; [|reflexivity].
    by destruct (last candidates).
  - reflexivity.
  - by destruct (head candidates).
Qed.

Lemma getDefaultFieldConfigMerger_elem_of candidates w :
  getDefaultFieldConfigMerger false candidates = Ok w -> w ∈ fieldConfig <$> candidates.
Proof.
  rewrite getDefaultFieldConfigMerger_unfold. cbv zeta. rewrite andb_false_r.
  assert (forall (f : MergeFieldConfigCandidate -> bool) c rest,
            List.filter f candidates = c :: rest -> fieldConfig c ∈ fieldConfig <$> candidates)
    as Hfiltered.
  { intros f c rest Hf. apply list_elem_of_fmap. exists c. split; [done|].
    assert (c ∈ List.filter f candidates) as Hin by (rewrite Hf; left).
    by apply filter_elem_of in Hin as [? _]. }
  destruct (List.filter marksField candidates) as [|c1 [|c2 rest]] eqn:Hfield.
  - destruct (List.filter typeIsCanonical candidates) as [|c rest] eqn:Htype.
    + destruct (last candidates) as [c|] eqn:Hlast; [|discriminate].
      intros [= <-]. apply list_elem_of_fmap. exists c. split; [done|].
      by apply last_elem_of.
    + intros [= <-]. eauto.
  - intros [= <-]. eauto.
  - by destruct (head candidates).
Qed.

(** With at most one candidate whose type is canonical, the merger with the
    switch off is the ladder of the specification. *)
Lemma specifiedLadder_agrees candidates :
  length (List.filter typeIsCanonical candidates) <= 1 ->
  getDefaultFieldConfigMerger false candidates = specifiedLadder candidates.
Proof.
  intros Hcount. rewrite getDefaultFieldConfigMerger_unfold. cbv zeta.
  rewrite andb_false_r. unfold specifiedLadder, finalize.
  destruct (List.filter marksField candidates) as [|c1 [|c2 rest]]; try reflexivity.
  destruct (List.filter typeIsCanonical candidates) as [|c [|c' rest]]; try reflexivity.
  simpl in Hcount. lia.
Qed.

(** C2, as the code has it. A non-empty list of candidates for the field [f]
    of the type [T]: two or more eligible candidates that mark the field
    canonical make the merger fail with the multiple-canonical error naming
    [T.f]; exactly one gives its config; otherwise the first eligible
    candidate whose type is canonical, when there is at least one, gives its
    config; otherwise the last candidate does.  The config is given with its
    type relaxed when the nullability switch applies. *)
Theorem field_config_ladder (T f : string) (flag : bool)
    (candidates : list MergeFieldConfigCandidate) :
  candidates <> [] ->
  Forall (fun c => name (common (fcc_type c)) = T /\ fieldName c = f) candidates ->
  let relax := nullabilityConflict candidates && flag in
  (2 <= length (List.filter marksField candidates) ->
     getDefaultFieldConfigMerger flag candidates
     = Err (MultipleCanonicalError (T +:+ "." +:+ f))) /\
  (forall c,
     List.filter marksField candidates = [c] ->
     getDefaultFieldConfigMerger flag candidates = Ok (finalize relax (fieldConfig c))) /\
  (forall c rest,
     List.filter marksField candidates = [] ->
     List.filter typeIsCanonical candidates = c :: rest ->
     getDefaultFieldConfigMerger flag candidates = Ok (finalize relax (fieldConfig c))) /\
  (List.filter marksField candidates = [] ->
   List.filter typeIsCanonical candidates = [] ->
   exists c, last candidates = Some c /\
             getDefaultFieldConfigMerger flag candidates
             = Ok (finalize relax (fieldConfig c))).
Proof.
  intros Hne Hnames relax. rewrite getDefaultFieldConfigMerger_unfold. cbv zeta.
  fold relax. repeat split.
  - intros Hmany.
    destruct (List.filter marksField candidates) as [|c1 [|c2 rest]];
      [simpl in Hmany; lia..|].
    destruct candidates as [|first candidates]; [done|]. simpl.
    apply Forall_cons in Hnames as [[HT Hf] _].
    unfold fieldNamespace. by rewrite HT, Hf.
  - by intros c ->.
  - by intros c rest -> ->.
  - intros -> ->. destruct (proj2 (last_is_Some candidates) Hne) as [c Hlast].
    exists c. by rewrite Hlast.
Qed.

Lemma field_config_ladder_witness :
  let A := barCandidate "a" StringType (canonicalConfig "Foo") in
  let B := barCandidate "b" StringType (canonicalFieldConfig "Foo" "bar") in
  let C := barCandidate "c" StringType plainConfig in
  let B' := barCandidate "d" StringType (canonicalFieldConfig "Foo" "bar") in
  getDefaultFieldConfigMerger false [B; A; B'] = Err (MultipleCanonicalError "Foo.bar") /\
  getDefaultFieldConfigMerger false [A; B; C] = Ok (fieldConfig B) /\
  getDefaultFieldConfigMerger false [A; C] = Ok (fieldConfig A) /\
  getDefaultFieldConfigMerger false [C; C] = Ok (fieldConfig C).
Proof.
  intros A B C B'.
  split; [|split; [|split]].
  - apply (field_config_ladder "Foo" "bar" false [B; A; B']);
      [discriminate|repeat constructor|simpl; lia].
  - apply (field_config_ladder "Foo" "bar" false [A; B; C]);
      [discriminate|repeat constructor|reflexivity].
  - apply (proj1 (proj2 (proj2 (field_config_ladder "Foo" "bar" false [A; C]
             ltac:(discriminate) ltac:(repeat constructor)))) A []); reflexivity.
  - destruct (proj2 (proj2 (proj2 (field_config_ladder "Foo" "bar" false [C; C]
             ltac:(discriminate) ltac:(repeat constructor)))) eq_refl eq_refl)
      as (c & Hlast & Hc).
    injection Hlast as <-. exact Hc.
Defined.

(** C2, as stated, fails: of two eligible candidates whose type is canonical,
    neither marking the field, the merger uses the first, where the ladder of
    the specification falls through to the last candidate. *)
Lemma two_canonical_types_first_wins :
  let A := barCandidate "a" StringType (canonicalConfig "Foo") in
  let B := barCandidate "b" StringType (canonicalConfig "Foo") in
  List.filter marksField [A; B] = [] /\
  List.filter typeIsCanonical [A; B] = [A; B] /\
  specifiedLadder [A; B] = Ok (fieldConfig B) /\
  getDefaultFieldConfigMerger false [A; B] = Ok (fieldConfig A) /\
  getDefaultFieldConfigMerger false [A; B] <> specifiedLadder [A; B].
Proof. repeat split; try reflexivity. discriminate. Qed.

(** C5, as the code has it. Let [w] be the config that the merger returns
    with the switch off: it is the config of a candidate, unchanged.  With
    the switch on, the merger returns [w] with its type made nullable when an
    eligible candidate is nullable and an eligible candidate is non-nullable,
    and [w] itself otherwise.  A type made nullable is nullable, and whatever
    the switch a nullable type of [w] is returned as it is. *)
Theorem nullability_relaxation (candidates : list MergeFieldConfigCandidate)
    (w : GraphQLFieldConfig) :
  getDefaultFieldConfigMerger false candidates = Ok w ->
  w ∈ fieldConfig <$> candidates /\
  getDefaultFieldConfigMerger true candidates
  = Ok (if nullabilityConflict candidates
        then with_type w (getNullableType (fc_type w)) else w) /\
  isNullableType (getNullableType (fc_type w)) = true /\
  (forall flag r,
     getDefaultFieldConfigMerger flag candidates = Ok r ->
     (fc_type r = fc_type w \/ fc_type r = getNullableType (fc_type w)) /\
     (isNullableType (fc_type w) = true -> fc_type r = fc_type w)).
Proof.
  intros Hw. split; [by apply getDefaultFieldConfigMerger_elem_of|].
  split; [|split].
  - rewrite getDefaultFieldConfigMerger_relax, Hw, andb_true_r. reflexivity.
  - by destruct (fc_type w).
  - intros flag r. rewrite getDefaultFieldConfigMerger_relax, Hw. intros [= <-].
    unfold finalize. destruct (nullabilityConflict candidates && flag); simpl.
    + split; [by right|]. by destruct (fc_type w).
    + split; [by left|done].
Qed.

Lemma nullability_relaxation_witness :
  let A := barCandidate "a" NonNullString plainConfig in
  let B := barCandidate "b" StringType plainConfig in
  getDefaultFieldConfigMerger false [B; A] = Ok (fieldConfig A) /\
  getDefaultFieldConfigMerger true [B; A]
  = Ok (with_type (fieldConfig A) StringType) /\
  getDefaultFieldConfigMerger true [A; B] = Ok (fieldConfig B).
Proof.
  intros A B.
  assert (getDefaultFieldConfigMerger false [B; A] = Ok (fieldConfig A)) as HBA
    by reflexivity.
  assert (getDefaultFieldConfigMerger false [A; B] = Ok (fieldConfig B)) as HAB
    by reflexivity.
  split; [exact HBA|]. split.
  - exact (proj1 (proj2 (nullability_relaxation [B; A] (fieldConfig A) HBA))).
  - exact (proj1 (proj2 (nullability_relaxation [A; B] (fieldConfig B) HAB))).
Defined.

(** C5, as stated, fails: with the switch on, a nullable candidate and a
    non-nullable one, neither eligible, the non-nullable type of the last
    candidate is returned, not its nullable form. *)
Lemma ineligible_conflict_not_relaxed :
  let A := barCandidate "a" StringType None in
  let B := barCandidate "b" NonNullString None in
  existsb (fun c => isNullableType (fc_type (fieldConfig c))) [A; B] = true /\
  existsb (fun c => negb (isNullableType (fc_type (fieldConfig c)))) [A; B] = true /\
  getDefaultFieldConfigMerger false [A; B] = Ok (fieldConfig B) /\
  getDefaultFieldConfigMerger true [A; B] = Ok (fieldConfig B) /\
  fc_type (fieldConfig B) <> getNullableType (fc_type (fieldConfig B)).
Proof. repeat split; try reflexivity. discriminate. Qed.

Lemma filter_none {A : Type} (f : A -> bool) (l : list A) :
  Forall (fun x => f x = false) l -> List.filter f l = [].
Proof. induction 1 as [|x l Hx _ IH]; simpl; [reflexivity|]. by rewrite Hx. Qed.

Lemma existsb_none {A : Type} (f : A -> bool) (l : list A) :
  Forall (fun x => f x = false) l -> existsb f l = false.
Proof. induction 1 as [|x l Hx _ IH]; simpl; [reflexivity|]. by rewrite Hx. Qed.

Lemma filter_filter_sub {A : Type} (f g : A -> bool) (l : list A) :
  (forall x, f x = true -> g x = true) ->
  List.filter f (List.filter g l) = List.filter f l.
Proof.
  intros Hsub. induction l as [|x l IH]; simpl; [reflexivity|].
  destruct (g x) eqn:Hg; simpl; [by rewrite IH|].
  destruct (f x) eqn:Hf; [|exact IH]. apply Hsub in Hf. congruence.
Qed.

(** C10. A candidate whose transformedSubschema is not a recognized config
    counts in none of the four tallies of the default field merger: the
    tallies of a list are those of its eligible candidates, even when such a
    candidate marks the type canonical.  It still is the fallback when it
    comes last: among ineligible candidates only, the last one's config is
    returned as it is, whatever the switch, so a nullable and a non-nullable
    candidate, both ineligible, give a non-nullable result with the switch
    on. *)
Theorem ineligible_candidates_excluded :
  (forall candidates,
     foldl tallyStep emptyTally candidates
     = foldl tallyStep emptyTally (List.filter eligible candidates)) /\
  (forall flag candidates c,
     Forall (fun x => eligible x = false) candidates ->
     last candidates = Some c ->
     getDefaultFieldConfigMerger flag candidates = Ok (fieldConfig c)) /\
  (let U := barCandidate "u" StringType (unrecognizedConfig "Foo") in
   let C := barCandidate "c" StringType plainConfig in
   eligible U = false /\
   getDefaultFieldConfigMerger true [U; C] = Ok (fieldConfig C)) /\
  (let A := barCandidate "a" StringType None in
   let B := barCandidate "b" NonNullString None in
   eligible A = false /\ eligible B = false /\
   isNullableType (fc_type (fieldConfig A)) = true /\
   isNullableType (fc_type (fieldConfig B)) = false /\
   getDefaultFieldConfigMerger true [A; B] = Ok (fieldConfig B)).
Proof.
  split; [|split; [|split]].
  - intros candidates. rewrite !tally_spec.
    f_equal; f_equal; symmetry; apply filter_filter_sub; intros x;
      unfold nullableEligible, nonNullableEligible, marksField, canonicalOnlyByType,
        typeIsCanonical, marksField; destruct (eligible x); simpl; done.
  - intros flag candidates c Hall Hlast.
    rewrite getDefaultFieldConfigMerger_unfold. cbv zeta.
    assert (forall f : MergeFieldConfigCandidate -> bool,
              (forall x, eligible x = false -> f x = false) ->
              Forall (fun x => f x = false) candidates) as Hnone.
    { intros f Hf. eapply Forall_impl; [exact Hall|]. exact Hf. }
    rewrite (filter_none marksField), (filter_none typeIsCanonical), Hlast.
    + unfold nullabilityConflict. rewrite (existsb_none nonNullableEligible); [done|].
      apply Hnone. intros x Hx. unfold nonNullableEligible. by rewrite Hx.
    + apply Hnone. intros x Hx. unfold typeIsCanonical. by rewrite Hx.
    + apply Hnone. intros x Hx. unfold marksField. by rewrite Hx.
  - repeat split; reflexivity.
  - repeat split; reflexivity.
Qed.

Lemma ineligible_candidates_excluded_witness :
  let A := barCandidate "a" StringType None in
  let B := barCandidate "b" NonNullString None in
  nullables (foldl tallyStep emptyTally [A; B]) = [] /\
  nonNullables (foldl tallyStep emptyTally [A; B]) = [] /\
  getDefaultFieldConfigMerger true [A; B] = Ok (fieldConfig B).
Proof.
  intros A B.
  destruct ineligible_candidates_excluded as (Htally & Hlast & _).
  rewrite (Htally [A; B]). split; [reflexivity|]. split; [reflexivity|].
  apply (Hlast true [A; B] B); [repeat constructor|reflexivity].
Defined.

(** ** A single candidate *)

Lemma keys_snoc {V : Type} (o : obj V) (k : string) (v : V) :
  Object_keys (o ++ [(k, v)]) = Object_keys o ++ [k].
Proof. unfold Object_keys. by rewrite fmap_app. Qed.

Lemma fresh_after_snoc {V W : Type} (k : string) (v : V) (l : obj V) (acc : obj W) (w : W) :
  NoDup (Object_keys ((k, v) :: l)) ->
  (forall k', k' ∈ Object_keys ((k, v) :: l) -> k' ∉ Object_keys acc) ->
  NoDup (Object_keys l) /\
  (k ∉ Object_keys acc) /\
  (forall k', k' ∈ Object_keys l -> k' ∉ Object_keys (acc ++ [(k, w)])).
Proof.
  unfold Object_keys at 1 2. simpl. intros [Hk Hnd]%NoDup_cons Hfresh.
  split; [exact Hnd|]. split; [apply Hfresh; left|].
  intros k' Hk'. rewrite keys_snoc, not_elem_of_app. split.
  - apply Hfresh. by right.
  - intros ->%list_elem_of_singleton. done.
Qed.

Lemma push_each_fresh {V C : Type} (project : string -> V -> C) (l : obj V)
    (acc : obj (list C)) :
  NoDup (Object_keys l) ->
  (forall k, k ∈ Object_keys l -> k ∉ Object_keys acc) ->
  foldl (fun acc '(k, v) => obj_push k (project k v) acc) acc l
  = acc ++ singletons project l.
Proof.
  revert acc. induction l as [|[k v] l IH]; intros acc Hnd Hfresh; simpl.
  - by rewrite app_nil_r.
  - destruct (fresh_after_snoc k v l acc [project k v] Hnd Hfresh) as (Hnd' & Hk & Hrest).
    unfold obj_push at 2. rewrite (proj2 (obj_get_None k acc) Hk).
    rewrite obj_set_fresh by done. rewrite IH by done.
    by rewrite <- app_assoc.
Qed.

Lemma candidatesMap_single {V C : Type} (members : GraphQLNamedType -> obj V)
    (project : MergeTypeCandidate -> string -> V -> C) (c : MergeTypeCandidate) :
  obj_wf (members (type c)) ->
  candidatesMap members project [c] = singletons (project c) (members (type c)).
Proof.
  intros Hwf. unfold candidatesMap. simpl.
  rewrite (push_each_fresh (project c)); [reflexivity|exact Hwf|].
  intros k _. apply not_elem_of_nil.
Qed.

Lemma mergeEach_fresh {V C : Type} (mergeOne : list C -> result V)
    (project : string -> V -> C) (l : obj V) (acc : obj V) :
  NoDup (Object_keys l) ->
  (forall k, k ∈ Object_keys l -> k ∉ Object_keys acc) ->
  (forall k v, (k, v) ∈ l -> mergeOne [project k v] = Ok v) ->
  foldlM (fun acc '(memberName, memberCandidates) =>
            merged ← mergeOne memberCandidates;
            Ok (obj_set memberName merged acc))
         acc (singletons project l)
  = Ok (acc ++ l).
Proof.
  revert acc. induction l as [|[k v] l IH]; intros acc Hnd Hfresh Hone; simpl.
  - by rewrite app_nil_r.
  - destruct (fresh_after_snoc k v l acc v Hnd Hfresh) as (Hnd' & Hk & Hrest).
    rewrite (Hone k v) by left. simpl. rewrite obj_set_fresh by done.
    rewrite IH; [by rewrite <- app_assoc|done|done|].
    intros k' v' Hin. apply Hone. by right.
Qed.

Lemma mergeEach_single {V C : Type} (mergeOne : list C -> result V)
    (project : string -> V -> C) (l : obj V) :
  obj_wf l ->
  (forall k v, (k, v) ∈ l -> mergeOne [project k v] = Ok v) ->
  mergeEach mergeOne (singletons project l) = Ok l.
Proof.
  intros Hwf Hone. unfold mergeEach.
  rewrite (mergeEach_fresh mergeOne project l []); [reflexivity|exact Hwf| |exact Hone].
  intros k _. apply not_elem_of_nil.
Qed.

Lemma getDefaultFieldConfigMerger_single flag c :
  getDefaultFieldConfigMerger flag [c] = Ok (fieldConfig c).
Proof.
  rewrite getDefaultFieldConfigMerger_unfold. cbv zeta.
  assert (nullabilityConflict [c] = false) as ->.
  { unfold nullabilityConflict, nonNullableEligible, nullableEligible. simpl.
    destruct (eligible c), (isNullableType (fc_type (fieldConfig c))); reflexivity. }
  simpl. destruct (marksField c), (typeIsCanonical c); reflexivity.
Qed.

Lemma defaultInputFieldConfigMerger_single c :
  defaultInputFieldConfigMerger [c] = Ok (inputFieldConfig c).
Proof.
  unfold defaultInputFieldConfigMerger. simpl.
  destruct (isSubschemaConfig (ifcc_transformedSubschema c)); simpl; [|reflexivity].
  destruct (fieldCanonical _ _ _); simpl; [reflexivity|].
  destruct (typeCanonical _ _); reflexivity.
Qed.

Lemma defaultEnumValueConfigMerger_single c :
  defaultEnumValueConfigMerger [c] = Ok (enumValueConfig c).
Proof.
  unfold defaultEnumValueConfigMerger. simpl.
  by destruct (isSubschemaConfig _ && typeCanonical _ _).
Qed.

Lemma mergeTypeDescriptions_single c opts :
  opts ≫= typeDescriptionsMerger = None ->
  mergeTypeDescriptions [c] opts = Ok (description (common (type c))).
Proof. intros Hdefault. unfold mergeTypeDescriptions. by rewrite Hdefault. Qed.

Lemma reduceAstNodes_single mergeNode c fieldNodes :
  reduceAstNodes mergeNode (withFieldNodes (pluck astNode [c]) fieldNodes)
  = Ok (astNode (common (type c))).
Proof. unfold pluck. simpl. by destruct (astNode (common (type c))). Qed.

Lemma assignedExtensions_single typeName d node c t :
  common t = mergedCommon typeName d node [c] -> assignedExtensions t (type c).
Proof.
  intros Hcommon k. rewrite Hcommon. simpl. rewrite Object_assign_lookup.
  destruct (decide (k = "__proto__")); [reflexivity|].
  unfold pluck. simpl.
  destruct (extensions (common (type c))) as [e|]; simpl; [|reflexivity].
  by destruct (e !! k).
Qed.

Section SingleCandidate.

Context (ext : Collaborators) (opts : option TypeMergingOptions) (c : MergeTypeCandidate).
Context (Hstages : defaultStages opts) (Haccepts : acceptsSingle ext opts c).

Lemma fieldConfigMap_single :
  obj_wf (type_fields (type c)) ->
  fieldConfigMapFromTypeCandidates ext [c] opts = Ok (type_fields (type c)).
Proof.
  intros Hwf. unfold fieldConfigMapFromTypeCandidates.
  rewrite candidatesMap_single by done. apply mergeEach_single; [done|].
  intros k v Hin. unfold mergeFieldConfigs.
  destruct Hstages as (_ & _ & -> & _). simpl.
  rewrite getDefaultFieldConfigMerger_single. simpl.
  destruct Haccepts as (Hfield & _). by rewrite (Hfield k v Hin).
Qed.

Lemma inputFieldConfigMap_single :
  obj_wf (type_inputFields (type c)) ->
  inputFieldConfigMapFromTypeCandidates ext [c] opts = Ok (type_inputFields (type c)).
Proof.
  intros Hwf. unfold inputFieldConfigMapFromTypeCandidates.
  destruct Haccepts as (_ & -> & Hinput). simpl.
  rewrite candidatesMap_single by done. apply mergeEach_single; [done|].
  intros k v Hin. destruct Hstages as (_ & _ & _ & -> & _). simpl.
  rewrite defaultInputFieldConfigMerger_single. simpl. by rewrite (Hinput k v Hin).
Qed.

Lemma enumValueConfigMap_single :
  obj_wf (type_values (type c)) ->
  enumValueConfigMapFromTypeCandidates [c] opts = Ok (type_values (type c)).
Proof.
  intros Hwf. unfold enumValueConfigMapFromTypeCandidates.
  rewrite candidatesMap_single by done. apply mergeEach_single; [done|].
  intros k v Hin. destruct Hstages as (_ & _ & _ & _ & ->). simpl.
  apply defaultEnumValueConfigMerger_single.
Qed.

End SingleCandidate.

Lemma reduceAstNodes_plain mergeNode c :
  reduceAstNodes mergeNode (pluck astNode [c]) = Ok (astNode (common (type c))).
Proof. unfold pluck. simpl. by destruct (astNode (common (type c))). Qed.

Lemma bind_Ok_l {A B : Type} (a : A) (f : A -> result B) : Ok a ≫= f = f a.
Proof. reflexivity. Qed.

Lemma unionTypeConfigs_single c :
  category (type c) = UnionCategory ->
  foldlM (fun acc candidate =>
            if decide (category (type candidate) = UnionCategory)
            then Ok (acc ++ [type_types (type candidate)])
            else Err (ExpectedUnionTypeError (typeName_of candidate)))
         [] [c]
  = Ok [type_types (type c)].
Proof. intros Hcat. simpl. by rewrite decide_True. Qed.

(** C8. Merging a single candidate whose type bears the merged name, with no
    stage replaced and with validators that accept what one candidate alone
    defines: the merge returns a type of the candidate's category with the
    candidate's name, description and syntax-tree node, with its dictionary
    of fields (of input fields, of enum values), and with its extensions but
    for the key [__proto__], which the merged type never has. *)
Theorem single_candidate_merge (ext : Collaborators) (typeName : string)
    (c : MergeTypeCandidate) (opts : option TypeMergingOptions) :
  typeName_of c = typeName ->
  wellFormedType (type c) ->
  defaultStages opts ->
  acceptsSingle ext opts c ->
  exists t,
    mergeCandidates ext typeName [c] opts = Ok t /\
    name (common t) = name (common (type c)) /\
    description (common t) = description (common (type c)) /\
    astNode (common t) = astNode (common (type c)) /\
    assignedExtensions t (type c) /\
    category t = category (type c) /\
    type_fields t = type_fields (type c) /\
    type_inputFields t = type_inputFields (type c) /\
    type_values t = type_values (type c).
Proof.
  intros <- (Hfields & Hinputs & Hvalues) Hstages Haccepts.
  pose proof Hstages as (Hordering & Hdescription & _).
  unfold mergeCandidates. simpl head. simpl fmap. simpl existsb.
  rewrite bool_decide_eq_true_2 by done. simpl negb. simpl orb. cbv iota.
  destruct (category (type c)) eqn:Hcat;
    unfold mergeObjectTypeCandidates, mergeInputObjectTypeCandidates,
      mergeInterfaceTypeCandidates, mergeUnionTypeCandidates,
      mergeEnumTypeCandidates, mergeScalarTypeCandidates;
    rewrite (orderedTypeCandidates_single c opts Hordering), bind_Ok_l;
    rewrite (mergeTypeDescriptions_single c opts Hdescription), bind_Ok_l;
    rewrite ?(fieldConfigMap_single ext opts c Hstages Haccepts Hfields),
      ?(inputFieldConfigMap_single ext opts c Hstages Haccepts Hinputs),
      ?(enumValueConfigMap_single opts c Hstages Hvalues),
      ?(unionTypeConfigs_single c Hcat), ?bind_Ok_l;
    cbv zeta; rewrite ?reduceAstNodes_single, ?reduceAstNodes_plain, bind_Ok_l;
    (eexists; split; [reflexivity|]);
    do 3 (split; [reflexivity|]);
    (split; [by eapply assignedExtensions_single|]);
    unfold category, type_fields, type_inputFields, type_values in *; simpl;
    destruct (payload (type c)); try discriminate; repeat split; reflexivity.
Qed.

Lemma single_candidate_merge_witness :
  let A := fooCandidate 1 "a" NonNullString [IfaceA]
             [("x", JsNumber 1); ("__proto__", JsNumber 2)] (canonicalConfig "Foo") in
  exists t merged,
    mergeCandidates permissive "Foo" [A] None = Ok t /\
    name (common t) = "Foo" /\
    description (common t) = Some "a" /\
    type_fields t = [("bar", sampleField NonNullString "a")] /\
    extensions (common t) = Some merged /\
    merged !! "x" = Some (JsNumber 1) /\
    merged !! "__proto__" = None /\
    extensions (common (type A)) ≫= (fun e => e !! "__proto__") = Some (JsNumber 2).
Proof.
  intros A.
  assert (wellFormedType (type A)) as Hwf.
  { unfold wellFormedType, obj_wf. refine (bool_decide_unpack _ _). vm_compute. exact I. }
  assert (defaultStages None) as Hstages by (repeat split).
  assert (acceptsSingle permissive None A) as Haccepts by (repeat split).
  destruct (single_candidate_merge permissive "Foo" A None eq_refl Hwf Hstages Haccepts)
    as (t & Hmerge & Hname & Hdescription & _ & Hextensions & _ & Hfields & _).
  assert (exists merged, extensions (common t) = Some merged) as [merged Hmerged].
  { vm_compute in Hmerge. injection Hmerge as <-. eexists. reflexivity. }
  exists t, merged. split; [exact Hmerge|]. split; [exact Hname|].
  split; [exact Hdescription|]. split; [exact Hfields|]. split; [exact Hmerged|].
  pose proof (Hextensions "x") as Hx. pose proof (Hextensions "__proto__") as Hp.
  rewrite Hmerged in Hx, Hp. simpl in Hx, Hp.
  split; [exact Hx|]. split; [exact Hp|reflexivity].
Defined.

(** * Further properties of the merge *)

(** ** Dispatch *)

Lemma category_check_passes c0 rest :
  Forall (fun c => category (type c) = category (type c0)) rest ->
  existsb (fun candidate =>
             negb (bool_decide (Some (category (type candidate))
                                = Some (category (type c0)))))
          (c0 :: rest) = false.
Proof.
  intros Hsame. apply existsb_none. constructor.
  - by rewrite bool_decide_eq_true_2.
  - eapply Forall_impl; [exact Hsame|]. intros c ->. by rewrite bool_decide_eq_true_2.
Qed.

Lemma category_check_passed c0 rest :
  existsb (fun candidate =>
             negb (bool_decide (Some (category (type candidate))
                                = Some (category (type c0)))))
          (c0 :: rest) = false ->
  Forall (fun c => category (type c) = category (type c0)) (c0 :: rest).
Proof.
  intros Hcheck. apply Forall_forall. intros c Hin.
  destruct (decide (category (type c) = category (type c0))) as [|Hne]; [done|].
  exfalso. apply not_true_iff_false in Hcheck. apply Hcheck, existsb_exists.
  exists c. split; [by apply list_elem_of_In|].
  apply negb_true_iff, bool_decide_eq_false. congruence.
Qed.

(** An empty list of candidates fails with the unknown-type error naming the
    type; a list of candidates of one category is merged by the merger of
    that category. *)
Theorem merge_dispatch (ext : Collaborators) (typeName : string)
    (opts : option TypeMergingOptions) :
  mergeCandidates ext typeName [] opts = Err (UnknownTypeError typeName) /\
  forall c0 rest,
    Forall (fun c => category (type c) = category (type c0)) rest ->
    mergeCandidates ext typeName (c0 :: rest) opts
    = mergerOf (category (type c0)) ext typeName (c0 :: rest) opts.
Proof.
  split; [reflexivity|]. intros c0 rest Hsame. unfold mergeCandidates.
  simpl head. simpl fmap. rewrite (category_check_passes c0 rest Hsame).
  by destruct (category (type c0)).
Qed.

Lemma merge_dispatch_witness :
  let A := fooCandidate 1 "a" StringType [] [] plainConfig in
  let B := fooCandidate 2 "b" StringType [] [] plainConfig in
  mergeCandidates permissive "Foo" [A; B] None
  = mergeObjectTypeCandidates permissive "Foo" [A; B] None.
Proof.
  intros A B.
  apply (proj2 (merge_dispatch permissive "Foo" None) A [B]).
  repeat constructor.
Defined.

Lemma mergerOf_category ext k typeName candidates opts t :
  mergerOf k ext typeName candidates opts = Ok t -> category t = k.
Proof.
  destruct k; simpl;
    unfold mergeObjectTypeCandidates, mergeInputObjectTypeCandidates,
      mergeInterfaceTypeCandidates, mergeUnionTypeCandidates,
      mergeEnumTypeCandidates, mergeScalarTypeCandidates;
    intros H; inv_bind H; by injection H as <-.
Qed.

(** A merged type bears the name it is merged under and is of the category
    of every candidate, whatever stages the caller replaces. *)
Theorem merged_name_and_category (ext : Collaborators) (typeName : string)
    (candidates : list MergeTypeCandidate) (opts : option TypeMergingOptions)
    (t : GraphQLNamedType) :
  mergeCandidates ext typeName candidates opts = Ok t ->
  name (common t) = typeName /\
  candidates <> [] /\
  forall c, c ∈ candidates -> category (type c) = category t.
Proof.
  intros Hmerge.
  pose proof (mergeCandidates_shape ext _ _ _ _ Hmerge) as (o & d & n & _ & _ & Hcommon).
  split; [by rewrite Hcommon|].
  destruct candidates as [|c0 rest]; [discriminate|]. split; [done|].
  unfold mergeCandidates in Hmerge. simpl head in Hmerge. simpl fmap in Hmerge.
  destruct (existsb _ (c0 :: rest)) eqn:Hcheck; [discriminate|].
  apply category_check_passed in Hcheck.
  assert (category t = category (type c0)) as ->.
  { apply (mergerOf_category ext _ typeName (c0 :: rest) opts).
    by destruct (category (type c0)). }
  intros c Hin. by apply (proj1 (Forall_forall _ _) Hcheck).
Qed.

Lemma merged_name_and_category_witness :
  let A := fooScalar 1 "a" None plainConfig in
  let B := fooScalar 2 "b" None plainConfig in
  exists t, mergeCandidates permissive "Foo" [A; B] None = Ok t /\
            name (common t) = "Foo" /\ category t = ScalarCategory.
Proof.
  intros A B.
  assert (exists t, mergeCandidates permissive "Foo" [A; B] None = Ok t)
    as [t Ht] by (eexists; reflexivity).
  exists t. split; [exact Ht|].
  destruct (merged_name_and_category permissive "Foo" [A; B] None t Ht)
    as (Hname & _ & Hcat).
  split; [exact Hname|]. symmetry. apply (Hcat A). apply list_elem_of_here.
Defined.

(** ** The chosen candidate and the ordering, in general *)


Lemma filter_comm {A : Type} (f g : A -> bool) (l : list A) :
  List.filter f (List.filter g l) = List.filter g (List.filter f l).
Proof.
  induction l as [|x l IH]; simpl; [reflexivity|].
  destruct (f x) eqn:Hf, (g x) eqn:Hg; simpl; rewrite ?Hf, ?Hg, IH; reflexivity.
Qed.

(** The default type-candidate merger chooses a candidate exactly on a
    non-empty list with at most one canonical mark, and then one of the list;
    on the empty list it fails for want of a last candidate. *)
Theorem default_type_merger_total (candidates : list MergeTypeCandidate) :
  defaultTypeCandidateMerger [] = Err LastCanonicalRequired /\
  ((exists c, defaultTypeCandidateMerger candidates = Ok c) <->
   candidates <> [] /\ length (List.filter marksCanonical candidates) <= 1) /\
  (forall c, defaultTypeCandidateMerger candidates = Ok c -> c ∈ candidates).
Proof.
  split; [reflexivity|]. split; [|apply defaultTypeCandidateMerger_elem_of].
  split.
  - intros [c Hc]. split.
    + intros ->. discriminate.
    + destruct (List.filter marksCanonical candidates) as [|m [|m' rest]] eqn:Hf;
        simpl; [lia..|].
      destruct (defaultTypeCandidateMerger_many candidates) as (first & _ & Herr);
        [rewrite Hf; simpl; lia|congruence].
  - intros [Hne Hcount].
    destruct (List.filter marksCanonical candidates) as [|m [|m' rest]] eqn:Hf.
    + destruct (proj2 (last_is_Some candidates) Hne) as [c Hlast].
      exists c. by apply defaultTypeCandidateMerger_none.
    + exists m. by apply defaultTypeCandidateMerger_one.
    + simpl in Hcount. lia.
Qed.



(** With the default merger, ordering an ordered list changes nothing. *)
Theorem ordering_idempotent (candidates : list MergeTypeCandidate)
    (opts : option TypeMergingOptions) (ordered : list MergeTypeCandidate) :
  opts ≫= typeCandidateMerger = None ->
  orderedTypeCandidates candidates opts = Ok ordered ->
  orderedTypeCandidates ordered opts = Ok ordered.
Proof.
  intros Hdefault Hordered.
  rewrite orderedTypeCandidates_default in Hordered by assumption.
  apply bind_Ok in Hordered as (c & Hc & [= <-]).
  set (others := List.filter (differs c) candidates).
  assert (List.filter (differs c) (others ++ [c]) = others) as Hfilter.
  { rewrite List.filter_app. simpl. rewrite differs_self, app_nil_r.
    apply filter_filter_sub. auto. }
  assert (defaultTypeCandidateMerger (others ++ [c]) = Ok c) as Hagain.
  { unfold defaultTypeCandidateMerger in Hc.
    destruct (List.filter marksCanonical candidates) as [|m [|m' rest]] eqn:Hf;
      simpl in Hc.
    - destruct (last candidates) as [c'|] eqn:Hlast; [|discriminate].
      injection Hc as ->.
      assert (marksCanonical c = false) as Hunmarked.
      { apply not_true_is_false. intros Hm.
        assert (c ∈ List.filter marksCanonical candidates) as Hin.
        { apply filter_elem_of. split; [by apply last_elem_of|done]. }
        rewrite Hf in Hin. by apply elem_of_nil in Hin. }
      apply defaultTypeCandidateMerger_none; [|apply last_snoc].
      rewrite List.filter_app. simpl. rewrite Hunmarked, app_nil_r.
      unfold others. by rewrite filter_comm, Hf.
    - injection Hc as ->.
      assert (marksCanonical c = true) as Hmarked.
      { assert (c ∈ List.filter marksCanonical candidates) as Hin
          by (rewrite Hf; left).
        by apply filter_elem_of in Hin as [_ ?]. }
      apply defaultTypeCandidateMerger_one.
      rewrite List.filter_app. simpl. rewrite Hmarked.
      unfold others. rewrite filter_comm, Hf. simpl. by rewrite differs_self.
    - discriminate. }
  rewrite orderedTypeCandidates_default by assumption.
  rewrite Hagain. simpl. by rewrite Hfilter.
Qed.

Lemma ordering_idempotent_witness :
  let A := fooCandidate 1 "a" StringType [] [] (canonicalConfig "Foo") in
  let B := fooCandidate 2 "b" StringType [] [] plainConfig in
  orderedTypeCandidates [A; B] None = Ok [B; A] /\
  orderedTypeCandidates [B; A] None = Ok [B; A].
Proof.
  intros A B. split; [reflexivity|].
  apply (ordering_idempotent [A; B] None [B; A]); reflexivity.
Defined.

(** Under the default merger, on distinct candidate objects, the ordering
    permutes the input: no candidate is lost or repeated. *)
Theorem ordering_permutes (candidates : list MergeTypeCandidate)
    (opts : option TypeMergingOptions) (ordered : list MergeTypeCandidate) :
  opts ≫= typeCandidateMerger = None ->
  NoDup (cand_id <$> candidates) ->
  orderedTypeCandidates candidates opts = Ok ordered ->
  ordered ≡ₚ candidates /\ length ordered = length candidates.
Proof.
  intros Hdefault Hnd Hordered.
  rewrite orderedTypeCandidates_default in Hordered by assumption.
  apply bind_Ok in Hordered as (c & Hc & [= <-]).
  apply defaultTypeCandidateMerger_elem_of, list_elem_of_split in Hc
    as (before & after & ->).
  rewrite (filter_differs_split before c after Hnd).
  assert ((before ++ after) ++ [c] ≡ₚ before ++ c :: after) as Hperm.
  { rewrite <- app_assoc. apply Permutation_app_head.
    symmetry. apply Permutation_cons_append. }
  split; [exact Hperm|]. by rewrite Hperm.
Qed.

Lemma ordering_permutes_witness :
  let A := fooCandidate 1 "a" StringType [] [] (canonicalConfig "Foo") in
  let B := fooCandidate 2 "b" StringType [] [] plainConfig in
  let C := fooCandidate 3 "c" StringType [] [] plainConfig in
  [B; C; A] ≡ₚ [A; B; C] /\ length [B; C; A] = length [A; B; C].
Proof.
  intros A B C.
  apply (ordering_permutes [A; B; C] None [B; C; A]).
  - reflexivity.
  - refine (bool_decide_unpack _ _). vm_compute. exact I.
  - reflexivity.
Defined.

(** ** The merged description *)

(** With the default type-candidate and description mergers, the description
    of a merged type is that of the chosen candidate, present or not: the
    canonical candidate's when one is marked, the last candidate's
    otherwise.  No other candidate's description is ever taken, even when
    the chosen one has none. *)
Theorem merged_description_is_chosen (ext : Collaborators) (typeName : string)
    (candidates : list MergeTypeCandidate) (opts : option TypeMergingOptions)
    (t : GraphQLNamedType) :
  opts ≫= typeCandidateMerger = None ->
  opts ≫= typeDescriptionsMerger = None ->
  mergeCandidates ext typeName candidates opts = Ok t ->
  exists chosen,
    defaultTypeCandidateMerger candidates = Ok chosen /\
    description (common t) = description (common (type chosen)) /\
    (List.filter marksCanonical candidates = [] -> last candidates = Some chosen).
Proof.
  intros Hdefault Hdescr (ordered & d & node & Ho & Hd & Hcommon)%mergeCandidates_shape.
  rewrite orderedTypeCandidates_default in Ho by assumption.
  apply bind_Ok in Ho as (chosen & Hchosen & [= <-]).
  exists chosen. split; [exact Hchosen|]. split.
  - unfold mergeTypeDescriptions in Hd. rewrite Hdescr in Hd. simpl in Hd.
    unfold defaultTypeDescriptionMerger in Hd. rewrite last_snoc in Hd.
    injection Hd as <-. by rewrite Hcommon.
  - intros Hnone. unfold defaultTypeCandidateMerger in Hchosen.
    rewrite Hnone in Hchosen. simpl in Hchosen.
    destruct (last candidates); [|discriminate]. by injection Hchosen as ->.
Qed.

Lemma merged_description_is_chosen_witness :
  let A := fooCandidate 1 "a" StringType [] [] plainConfig in
  let B := fooCandidate 2 "b" StringType [] [] plainConfig in
  let C := fooCandidate 3 "c" StringType [] [] plainConfig in
  exists t, mergeCandidates permissive "Foo" [A; B; C] None = Ok t /\
            description (common t) = Some "c".
Proof.
  intros A B C.
  assert (exists t, mergeCandidates permissive "Foo" [A; B; C] None = Ok t)
    as [t Ht] by (eexists; reflexivity).
  exists t. split; [exact Ht|].
  destruct (merged_description_is_chosen permissive "Foo" [A; B; C] None t
              eq_refl eq_refl Ht) as (chosen & Hchosen & Hd & _).
  rewrite Hd. vm_compute in Hchosen. by injection Hchosen as <-.
Defined.

(** ** Dictionaries of candidates *)

Lemma obj_get_push {C : Type} (k k' : string) (x : C) (m : obj (list C)) :
  obj_get k (obj_push k' x m) =
    if decide (k' = k) then Some (default [] (obj_get k m) ++ [x]) else obj_get k m.
Proof.
  unfold obj_push. destruct (obj_get k' m) as [l|] eqn:Hget; rewrite obj_get_set;
    case_decide; subst; rewrite ?Hget; reflexivity.
Qed.

Lemma obj_wf_push {C : Type} (k : string) (x : C) (m : obj (list C)) :
  obj_wf m -> obj_wf (obj_push k x m).
Proof. intros Hwf. unfold obj_push. destruct (obj_get k m); by apply obj_wf_set. Qed.

Lemma pushAll_wf {C : Type} (acc : obj (list C)) (entries : list (string * C)) :
  obj_wf acc -> obj_wf (pushAll acc entries).
Proof.
  revert acc. induction entries as [|[k x] entries IH]; intros acc Hwf; simpl; [done|].
  apply IH. by apply obj_wf_push.
Qed.

Lemma pushAll_get {C : Type} (k : string) (acc : obj (list C))
    (entries : list (string * C)) :
  obj_get k (pushAll acc entries) =
    match obj_get k acc, valuesOf k entries with
    | None, [] => None
    | o, xs => Some (default [] o ++ xs)
    end.
Proof.
  revert acc. induction entries as [|[k' x] entries IH]; intros acc; simpl.
  - destruct (obj_get k acc); simpl; [by rewrite app_nil_r|done].
  - fold (pushAll (obj_push k' x acc) entries). rewrite IH, obj_get_push.
    unfold valuesOf. simpl. fold (valuesOf k entries).
    destruct (decide (k' = k)) as [->|Hne]; simpl; [|reflexivity].
    destruct (obj_get k acc) as [l|]; simpl.
    + destruct (valuesOf k entries); simpl; by rewrite <- ?app_assoc.
    + by destruct (valuesOf k entries).
Qed.

Lemma valuesOf_nil {C : Type} (k : string) (entries : list (string * C)) :
  valuesOf k entries = [] <-> k ∉ entries.*1.
Proof.
  unfold valuesOf. induction entries as [|[k' x] entries IH]; simpl.
  - split; [intros _; apply not_elem_of_nil|done].
  - rewrite not_elem_of_cons. case_decide as Hk; simpl.
    + split; [discriminate|]. intros [? _]. congruence.
    + rewrite IH. split; [by intros ?; split; [congruence|]|by intros [_ ?]].
Qed.

Lemma candidatesMap_pushAll {V C : Type} (members : GraphQLNamedType -> obj V)
    (project : MergeTypeCandidate -> string -> V -> C)
    (candidates : list MergeTypeCandidate) :
  candidatesMap members project candidates
  = pushAll [] (memberEntries members project candidates).
Proof.
  unfold candidatesMap, memberEntries. generalize ([] : obj (list C)).
  induction candidates as [|c candidates IH]; intros acc; simpl; [reflexivity|].
  unfold pushAll. rewrite foldl_app. fold (pushAll (C := C)).
  rewrite IH. f_equal. clear IH. revert acc.
  induction (members (type c)) as [|[k v] l IHl]; intros acc; simpl; [reflexivity|].
  apply IHl.
Qed.

Lemma candidatesMap_wf {V C : Type} (members : GraphQLNamedType -> obj V)
    (project : MergeTypeCandidate -> string -> V -> C)
    (candidates : list MergeTypeCandidate) :
  obj_wf (candidatesMap members project candidates).
Proof. rewrite candidatesMap_pushAll. apply pushAll_wf, NoDup_nil_2. Qed.

Lemma candidatesMap_get {V C : Type} (members : GraphQLNamedType -> obj V)
    (project : MergeTypeCandidate -> string -> V -> C)
    (candidates : list MergeTypeCandidate) (k : string) :
  obj_get k (candidatesMap members project candidates) =
    match membersNamed members project k candidates with
    | [] => None
    | named => Some named
    end.
Proof.
  rewrite candidatesMap_pushAll, pushAll_get. simpl. unfold membersNamed.
  by destruct (valuesOf k _).
Qed.

Lemma memberEntries_keys {V C : Type} (members : GraphQLNamedType -> obj V)
    (project : MergeTypeCandidate -> string -> V -> C)
    (candidates : list MergeTypeCandidate) (k : string) :
  k ∈ (memberEntries members project candidates).*1 <->
  exists c, c ∈ candidates /\ k ∈ Object_keys (members (type c)).
Proof.
  unfold memberEntries, Object_keys. rewrite list_elem_of_fmap. split.
  - intros ([k' x] & -> & (c & Hin & Hc)%list_elem_of_bind).
    apply list_elem_of_fmap in Hin as ([k'' v] & [= -> ->] & Hin).
    exists c. split; [done|]. apply list_elem_of_fmap. by exists (k'', v).
  - intros (c & Hc & ([k' v] & -> & Hin)%list_elem_of_fmap).
    exists (k', project c k' v). split; [done|].
    apply list_elem_of_bind. exists c. split; [|done].
    apply list_elem_of_fmap. by exists (k', v).
Qed.

Lemma candidatesMap_keys {V C : Type} (members : GraphQLNamedType -> obj V)
    (project : MergeTypeCandidate -> string -> V -> C)
    (candidates : list MergeTypeCandidate) (k : string) :
  k ∈ Object_keys (candidatesMap members project candidates) <->
  exists c, c ∈ candidates /\ k ∈ Object_keys (members (type c)).
Proof.
  rewrite <- (memberEntries_keys members project).
  destruct (decide (k ∈ Object_keys (candidatesMap members project candidates)))
    as [Hin|Hout].
  - split; [|done]. intros _.
    destruct (decide (k ∈ (memberEntries members project candidates).*1))
      as [|Hfresh]; [done|].
    apply valuesOf_nil in Hfresh. exfalso.
    apply (proj1 (obj_get_None k (candidatesMap members project candidates)));
      [|done].
    rewrite candidatesMap_get. unfold membersNamed. by rewrite Hfresh.
  - split; [done|]. intros Hin. exfalso.
    apply obj_get_None in Hout. rewrite candidatesMap_get in Hout.
    unfold membersNamed in Hout.
    destruct (valuesOf k _) eqn:Hv; [|discriminate].
    by apply valuesOf_nil in Hv.
Qed.

Lemma foldlM_merge_Ok {C V : Type} (mergeOne : list C -> result V)
    (m : obj (list C)) (acc r : obj V) :
  foldlM (fun acc '(memberName, memberCandidates) =>
            merged ← mergeOne memberCandidates;
            Ok (obj_set memberName merged acc))
         acc m = Ok r ->
  NoDup (Object_keys m) ->
  (forall k, k ∈ Object_keys m -> k ∉ Object_keys acc) ->
  exists r', r = acc ++ r' /\ Forall2 (mergedEntry mergeOne) m r'.
Proof.
  revert acc. induction m as [|[k cs] m IH]; intros acc Hfold Hnd Hfresh; simpl in Hfold.
  - injection Hfold as <-. exists []. by rewrite app_nil_r.
  - destruct (mergeOne cs) as [v|e] eqn:Hone; simpl in Hfold; [|discriminate].
    destruct (fresh_after_snoc k cs m acc v Hnd Hfresh) as (Hnd' & Hk & Hrest).
    rewrite obj_set_fresh in Hfold by done.
    destruct (IH _ Hfold Hnd' Hrest) as (r' & -> & Hall).
    exists ((k, v) :: r'). split; [by rewrite <- app_assoc|].
    constructor; [by split|done].
Qed.

Lemma mergeEach_Ok {C V : Type} (mergeOne : list C -> result V)
    (m : obj (list C)) (r : obj V) :
  obj_wf m -> mergeEach mergeOne m = Ok r -> Forall2 (mergedEntry mergeOne) m r.
Proof.
  intros Hwf Hmerge. unfold mergeEach in Hmerge.
  apply foldlM_merge_Ok in Hmerge as (r' & -> & Hall); [done|exact Hwf|].
  intros k _. apply not_elem_of_nil.
Qed.

Lemma foldlM_merge_Err {C V : Type} (mergeOne : list C -> result V)
    (m : obj (list C)) (acc : obj V) (e : error) :
  foldlM (fun acc '(memberName, memberCandidates) =>
            merged ← mergeOne memberCandidates;
            Ok (obj_set memberName merged acc))
         acc m = Err e ->
  exists k cs, (k, cs) ∈ m /\ mergeOne cs = Err e.
Proof.
  revert acc. induction m as [|[k cs] m IH]; intros acc Hfold; simpl in Hfold;
    [discriminate|].
  destruct (mergeOne cs) as [v|e'] eqn:Hone; simpl in Hfold.
  - destruct (IH _ Hfold) as (k' & cs' & Hin & Herr). exists k', cs'. split; [by right|done].
  - injection Hfold as <-. exists k, cs. split; [left|done].
Qed.

Lemma foldlM_merge_total {C V : Type} (mergeOne : list C -> result V)
    (m : obj (list C)) (acc : obj V) :
  Forall (fun e => exists v, mergeOne e.2 = Ok v) m ->
  exists r,
    foldlM (fun acc '(memberName, memberCandidates) =>
              merged ← mergeOne memberCandidates;
              Ok (obj_set memberName merged acc))
           acc m = Ok r.
Proof.
  intros Hall. revert acc.
  induction Hall as [|[k cs] m [v Hv] _ IH]; intros acc; simpl; [by eexists|].
  simpl in Hv. rewrite Hv. simpl. apply IH.
Qed.

Lemma merged_keys {C V : Type} (mergeOne : list C -> result V)
    (m : obj (list C)) (r : obj V) :
  Forall2 (mergedEntry mergeOne) m r -> Object_keys r = Object_keys m.
Proof.
  unfold Object_keys. induction 1 as [|[k cs] [k' v] m r [Hk _] _ IH]; simpl in *;
    [reflexivity|]. by rewrite Hk, IH.
Qed.

Lemma merged_get {C V : Type} (mergeOne : list C -> result V)
    (m : obj (list C)) (r : obj V) (k : string) (v : V) :
  Forall2 (mergedEntry mergeOne) m r ->
  obj_get k r = Some v ->
  exists cs, obj_get k m = Some cs /\ mergeOne cs = Ok v.
Proof.
  induction 1 as [|[k0 cs] [k' v'] m r [Hk Hone] _ IH]; simpl in *; [discriminate|].
  subst k0. case_decide; [|exact IH].
  intros [= <-]. by exists cs.
Qed.

Lemma candidatesMap_entry {V C : Type} (members : GraphQLNamedType -> obj V)
    (project : MergeTypeCandidate -> string -> V -> C)
    (candidates : list MergeTypeCandidate) (k : string) (named : list C) :
  obj_get k (candidatesMap members project candidates) = Some named ->
  named = membersNamed members project k candidates /\ named <> [].
Proof.
  rewrite candidatesMap_get.
  destruct (membersNamed members project k candidates); [discriminate|].
  by intros [= <-].
Qed.

(** ** The merged dictionary of fields *)

Lemma mergeFieldConfigs_validated ext candidates opts v :
  mergeFieldConfigs ext candidates opts = Ok v ->
  validateFieldConsistency ext v candidates opts = Ok tt.
Proof.
  unfold mergeFieldConfigs. intros H. inv_bind H. injection H as <-.
  by destruct a0.
Qed.

(** The merged dictionary of fields has one entry for each field name that
    some candidate defines, and no other; the entry of a name is the merge of
    the candidates that define the field, in the order of the candidates, and
    the validator has accepted it. *)
Theorem field_map_entries (ext : Collaborators)
    (candidates : list MergeTypeCandidate) (opts : option TypeMergingOptions)
    (fields : obj GraphQLFieldConfig) :
  fieldConfigMapFromTypeCandidates ext candidates opts = Ok fields ->
  obj_wf fields /\
  (forall k, k ∈ Object_keys fields <->
             exists c, c ∈ candidates /\ k ∈ Object_keys (type_fields (type c))) /\
  (forall k v,
     obj_get k fields = Some v ->
     let named := membersNamed type_fields fieldConfigCandidate k candidates in
     named <> [] /\
     mergeFieldConfigs ext named opts = Ok v /\
     validateFieldConsistency ext v named opts = Ok tt).
Proof.
  unfold fieldConfigMapFromTypeCandidates. intros Hmerge.
  apply mergeEach_Ok in Hmerge; [|apply candidatesMap_wf].
  pose proof (merged_keys _ _ _ Hmerge) as Hkeys.
  split; [unfold obj_wf; rewrite Hkeys; apply candidatesMap_wf|].
  split; [intros k; rewrite Hkeys; apply candidatesMap_keys|].
  intros k v Hget.
  destruct (merged_get _ _ _ k v Hmerge Hget) as (cs & Hcs & Hv).
  apply candidatesMap_entry in Hcs as [-> Hne].
  split; [exact Hne|]. split; [exact Hv|]. by apply mergeFieldConfigs_validated.
Qed.

Lemma field_map_entries_witness :
  let A := fooCandidate 1 "a" NonNullString [] [] plainConfig in
  let B := fooCandidate 2 "b" StringType [] [] plainConfig in
  exists fields,
    fieldConfigMapFromTypeCandidates permissive [A; B] None = Ok fields /\
    Object_keys fields = ["bar"] /\
    obj_get "bar" fields = Some (sampleField StringType "b") /\
    mergeFieldConfigs permissive
      [fieldConfigCandidate A "bar" (sampleField NonNullString "a");
       fieldConfigCandidate B "bar" (sampleField StringType "b")] None
    = Ok (sampleField StringType "b").
Proof.
  intros A B.
  assert (exists fields, fieldConfigMapFromTypeCandidates permissive [A; B] None = Ok fields)
    as [fields Hf] by (eexists; reflexivity).
  exists fields. split; [exact Hf|].
  destruct (field_map_entries permissive [A; B] None fields Hf) as (_ & _ & Hentries).
  assert (obj_get "bar" fields = Some (sampleField StringType "b")) as Hget
    by (vm_compute in Hf; injection Hf as <-; reflexivity).
  split; [vm_compute in Hf; by injection Hf as <-|]. split; [exact Hget|].
  exact (proj1 (proj2 (Hentries "bar" _ Hget))).
Defined.

(** The merge of the fields fails exactly when the merge of one field does,
    and then with the error of such a field. *)
Theorem field_map_fails_with_a_field (ext : Collaborators)
    (candidates : list MergeTypeCandidate) (opts : option TypeMergingOptions) :
  ((exists fields, fieldConfigMapFromTypeCandidates ext candidates opts = Ok fields) <->
   forall k c, c ∈ candidates -> k ∈ Object_keys (type_fields (type c)) ->
     exists v,
       mergeFieldConfigs ext (membersNamed type_fields fieldConfigCandidate k candidates)
         opts = Ok v) /\
  (forall e,
     fieldConfigMapFromTypeCandidates ext candidates opts = Err e ->
     exists k c,
       c ∈ candidates /\ k ∈ Object_keys (type_fields (type c)) /\
       mergeFieldConfigs ext (membersNamed type_fields fieldConfigCandidate k candidates)
         opts = Err e).
Proof.
  unfold fieldConfigMapFromTypeCandidates.
  set (m := candidatesMap type_fields fieldConfigCandidate candidates).
  assert (forall k cs, (k, cs) ∈ m ->
            cs = membersNamed type_fields fieldConfigCandidate k candidates /\
            exists c, c ∈ candidates /\ k ∈ Object_keys (type_fields (type c)))
    as Hentry.
  { intros k cs Hin. split.
    - apply (obj_elem_of_get _ _ _ (candidatesMap_wf _ _ _)) in Hin.
      by apply candidatesMap_entry in Hin as [? _].
    - apply (proj1 (candidatesMap_keys type_fields fieldConfigCandidate candidates k)).
      apply list_elem_of_fmap. by exists (k, cs). }
  split; [split|].
  - intros [fields Hmerge] k c Hc Hk.
    apply mergeEach_Ok in Hmerge; [|apply candidatesMap_wf].
    assert (k ∈ Object_keys m) as Hkm
      by (apply (proj2 (candidatesMap_keys type_fields fieldConfigCandidate candidates k));
          eauto).
    destruct (obj_get k m) as [cs|] eqn:Hget; [|by apply obj_get_None in Hget].
    pose proof Hget as [<- _]%candidatesMap_entry.
    apply obj_get_Some_elem_of in Hget.
    clear -Hmerge Hget. induction Hmerge as [|[k0 cs0] [k' v] m r [_ Hone] _ IH].
    + by apply elem_of_nil in Hget.
    + apply elem_of_cons in Hget as [[= <- <-]|Hget]; [by exists v|by apply IH].
  - intros Hall. apply foldlM_merge_total, Forall_forall.
    intros [k cs] Hin. destruct (Hentry k cs Hin) as (-> & c & Hc & Hk). simpl. eauto.
  - intros e (k & cs & Hin & Herr)%foldlM_merge_Err.
    destruct (Hentry k cs Hin) as (-> & c & Hc & Hk). eauto.
Qed.

Lemma field_map_fails_with_a_field_witness :
  let A := fooCandidate 1 "a" StringType [] [] (canonicalFieldConfig "Foo" "bar") in
  let B := fooCandidate 2 "b" StringType [] [] (canonicalFieldConfig "Foo" "bar") in
  fieldConfigMapFromTypeCandidates permissive [A; B] None
  = Err (MultipleCanonicalError "Foo.bar") /\
  exists k c,
    c ∈ [A; B] /\ k ∈ Object_keys (type_fields (type c)) /\
    mergeFieldConfigs permissive (membersNamed type_fields fieldConfigCandidate k [A; B])
      None = Err (MultipleCanonicalError "Foo.bar").
Proof.
  intros A B.
  assert (fieldConfigMapFromTypeCandidates permissive [A; B] None
          = Err (MultipleCanonicalError "Foo.bar")) as Herr by reflexivity.
  split; [exact Herr|].
  exact (proj2 (field_map_fails_with_a_field permissive [A; B] None) _ Herr).
Defined.

(** ** When the default field merger fails *)

(** The default field-config merger returns a config exactly on a non-empty
    list in which at most one eligible candidate marks the field canonical;
    it fails for want of a field config on the empty list, and otherwise only
    with the multiple-canonical error named after the first candidate. *)
Theorem default_field_merger_total (flag : bool)
    (candidates : list MergeFieldConfigCandidate) :
  getDefaultFieldConfigMerger flag [] = Err FieldConfigRequired /\
  ((exists r, getDefaultFieldConfigMerger flag candidates = Ok r) <->
   candidates <> [] /\ length (List.filter marksField candidates) <= 1) /\
  (forall e,
     getDefaultFieldConfigMerger flag candidates = Err e ->
     (candidates = [] /\ e = FieldConfigRequired) \/
     (exists first,
        head candidates = Some first /\
        2 <= length (List.filter marksField candidates) /\
        e = MultipleCanonicalError (fieldNamespace first))).
Proof.
  split; [reflexivity|].
  rewrite getDefaultFieldConfigMerger_unfold. cbv zeta.
  destruct candidates as [|c0 rest]; [|set (candidates := c0 :: rest)].
  { simpl. split; [split; [by intros [? ?]|by intros [? _]]|].
    intros e [= <-]. by left. }
  assert (exists c, last candidates = Some c) as [cl Hlast]
    by (apply last_is_Some; discriminate).
  destruct (List.filter marksField candidates) as [|c1 [|c2 more]] eqn:Hf.
  - destruct (List.filter typeIsCanonical candidates) as [|c more];
      rewrite ?Hlast; (split; [split; [intros _; split; [done|simpl; lia]|eauto]|done]).
  - split; [split; [intros _; split; [done|simpl; lia]|eauto]|done].
  - simpl. split.
    + split; [by intros [? ?]|]. intros [_ Hcount]. simpl in Hcount. lia.
    + intros e [= <-]. right. exists c0. repeat split. lia.
Qed.

Lemma default_field_merger_total_witness :
  let A := barCandidate "a" StringType (canonicalFieldConfig "Foo" "bar") in
  let B := barCandidate "b" StringType (canonicalFieldConfig "Foo" "bar") in
  getDefaultFieldConfigMerger true [A; B] = Err (MultipleCanonicalError "Foo.bar") /\
  exists r, getDefaultFieldConfigMerger true [A] = Ok r.
Proof.
  intros A B. split; [reflexivity|].
  apply (proj2 (proj1 (proj2 (default_field_merger_total true [A])))).
  split; [discriminate|simpl; lia].
Defined.

(** ** Enum values *)

Lemma find_first {A : Type} (f : A -> bool) (before : list A) (m : A) (after : list A) :
  Forall (fun x => f x = false) before -> f m = true ->
  List.find f (before ++ m :: after) = Some m.
Proof.
  induction 1 as [|x before Hx _ IH]; intros Hm; simpl.
  - by rewrite Hm.
  - rewrite Hx. by apply IH.
Qed.

Lemma find_nothing {A : Type} (f : A -> bool) (l : list A) :
  Forall (fun x => f x = false) l -> List.find f l = None.
Proof. induction 1 as [|x l Hx _ IH]; simpl; [done|]. by rewrite Hx. Qed.

(** The default enum-value merger fails only on the empty list.  Otherwise
    it returns the config of one of the candidates: of the first eligible
    candidate whose type is marked canonical, if there is one, and of the
    last candidate if none is.  Several marked candidates are no error. *)
Theorem enum_value_merger (candidates : list MergeEnumValueConfigCandidate) :
  defaultEnumValueConfigMerger [] = Err LastCanonicalRequired /\
  (candidates <> [] ->
   exists c,
     c ∈ candidates /\
     defaultEnumValueConfigMerger candidates = Ok (enumValueConfig c) /\
     (forall before m after,
        candidates = before ++ m :: after ->
        Forall (fun x => enumPreferred x = false) before ->
        enumPreferred m = true -> c = m) /\
     (Forall (fun x => enumPreferred x = false) candidates -> last candidates = Some c)).
Proof.
  split; [reflexivity|]. intros Hne.
  destruct (proj2 (last_is_Some candidates) Hne) as [cl Hlast].
  unfold defaultEnumValueConfigMerger. rewrite Hlast. fold enumPreferred.
  change (fun c : MergeEnumValueConfigCandidate =>
            isSubschemaConfig (evcc_transformedSubschema c)
            && typeCanonical (evcc_transformedSubschema c) (name (common (evcc_type c))))
    with enumPreferred.
  destruct (List.find enumPreferred candidates) as [p|] eqn:Hfind; simpl.
  - exists p. pose proof (find_some _ _ Hfind) as [Hin Hp].
    split; [by apply list_elem_of_In|]. split; [reflexivity|]. split.
    + intros before m after -> Hbefore Hm.
      rewrite (find_first enumPreferred before m after Hbefore Hm) in Hfind.
      by injection Hfind.
    + intros Hnone. by rewrite (find_nothing _ _ Hnone) in Hfind.
  - exists cl. split; [by apply last_elem_of|]. split; [reflexivity|]. split; [|done].
    intros before m after -> Hbefore Hm.
    by rewrite (find_first enumPreferred before m after Hbefore Hm) in Hfind.
Qed.

Lemma enum_value_merger_witness :
  let mk about config :=
    enumValueConfigCandidate (statusCandidate 1 about ["ACTIVE"] config) "ACTIVE"
      (sampleValue about) in
  defaultEnumValueConfigMerger
    [mk "a" plainConfig; mk "b" (canonicalConfig "Status");
     mk "c" (canonicalConfig "Status"); mk "d" plainConfig]
  = Ok (sampleValue "b").
Proof.
  intros mk.
  destruct (proj2 (enum_value_merger
                     [mk "a" plainConfig; mk "b" (canonicalConfig "Status");
                      mk "c" (canonicalConfig "Status"); mk "d" plainConfig])
              ltac:(discriminate)) as (c & _ & Hc & Hfirst & _).
  rewrite Hc.
  by rewrite (Hfirst [mk "a" plainConfig] (mk "b" (canonicalConfig "Status"))
                [mk "c" (canonicalConfig "Status"); mk "d" plainConfig]
                eq_refl ltac:(repeat constructor) eq_refl).
Defined.

Lemma defaultEnumValueConfigMerger_nonempty candidates :
  candidates <> [] -> exists v, defaultEnumValueConfigMerger candidates = Ok v.
Proof.
  intros [cl Hlast]%last_is_Some. unfold defaultEnumValueConfigMerger.
  rewrite Hlast. eauto.
Qed.

(** With the default enum-value merger the merge of the enum values never
    fails: the merged dictionary has one entry for each value name that some
    candidate defines, in the order in which the names first occur, and the
    entry of a name is what the default merger gives for the candidates that
    define the value. *)
Theorem enum_values_merged (candidates : list MergeTypeCandidate)
    (opts : option TypeMergingOptions) :
  opts ≫= enumValueConfigMerger = None ->
  exists values,
    enumValueConfigMapFromTypeCandidates candidates opts = Ok values /\
    obj_wf values /\
    (forall k, k ∈ Object_keys values <->
               exists c, c ∈ candidates /\ k ∈ Object_keys (type_values (type c))) /\
    (forall k v,
       obj_get k values = Some v ->
       defaultEnumValueConfigMerger
         (membersNamed type_values enumValueConfigCandidate k candidates) = Ok v).
Proof.
  intros Hdefault. unfold enumValueConfigMapFromTypeCandidates. rewrite Hdefault. simpl.
  set (m := candidatesMap type_values enumValueConfigCandidate candidates).
  destruct (foldlM_merge_total defaultEnumValueConfigMerger m []) as [values Hvalues].
  { apply Forall_forall. intros [k cs] Hin.
    apply (obj_elem_of_get _ _ _ (candidatesMap_wf _ _ _)) in Hin.
    apply candidatesMap_entry in Hin as [_ Hne]. simpl.
    by apply defaultEnumValueConfigMerger_nonempty. }
  exists values. split; [exact Hvalues|].
  apply mergeEach_Ok in Hvalues; [|apply candidatesMap_wf].
  pose proof (merged_keys _ _ _ Hvalues) as Hkeys.
  split; [unfold obj_wf; rewrite Hkeys; apply candidatesMap_wf|].
  split; [intros k; rewrite Hkeys; apply candidatesMap_keys|].
  intros k v Hget.
  destruct (merged_get _ _ _ k v Hvalues Hget) as (cs & Hcs & Hv).
  by apply candidatesMap_entry in Hcs as [-> _].
Qed.

Lemma enum_values_merged_witness :
  let A := statusCandidate 1 "a" ["ACTIVE"; "DONE"] plainConfig in
  let B := statusCandidate 2 "b" ["ACTIVE"; "CANCELLED"] plainConfig in
  exists values,
    enumValueConfigMapFromTypeCandidates [A; B] None = Ok values /\
    Object_keys values = ["ACTIVE"; "DONE"; "CANCELLED"] /\
    obj_get "ACTIVE" values = Some (sampleValue "b") /\
    obj_get "DONE" values = Some (sampleValue "a").
Proof.
  intros A B.
  destruct (enum_values_merged [A; B] None eq_refl) as (values & Hvalues & _).
  exists values. split; [exact Hvalues|].
  vm_compute in Hvalues. injection Hvalues as <-. repeat split.
Defined.

(** ** Input fields *)

Lemma input_tally (acc : list GraphQLInputFieldConfig * list GraphQLInputFieldConfig)
    (candidates : list MergeInputFieldConfigCandidate) :
  foldl (fun (acc : list GraphQLInputFieldConfig * list GraphQLInputFieldConfig)
             (c : MergeInputFieldConfigCandidate) =>
           if negb (isSubschemaConfig (ifcc_transformedSubschema c)) then acc
           else if fieldCanonical (ifcc_transformedSubschema c)
                     (name (common (ifcc_type c))) (ifcc_fieldName c)
           then (acc.1 ++ [inputFieldConfig c], acc.2)
           else if typeCanonical (ifcc_transformedSubschema c)
                     (name (common (ifcc_type c)))
           then (acc.1, acc.2 ++ [inputFieldConfig c])
           else acc)
        acc candidates
  = (acc.1 ++ (inputFieldConfig <$> List.filter inputMarksField candidates),
     acc.2 ++ (inputFieldConfig <$> List.filter inputOnlyByType candidates)).
Proof.
  revert acc. induction candidates as [|c candidates IH]; intros [byField byType]; simpl.
  - by rewrite !app_nil_r.
  - rewrite IH. unfold inputMarksField, inputOnlyByType, inputTypeIsCanonical,
      inputMarksField.
    destruct (isSubschemaConfig (ifcc_transformedSubschema c)); simpl; [|reflexivity].
    destruct (fieldCanonical _ _ _), (typeCanonical _ _); simpl;
      rewrite <- ?app_assoc; reflexivity.
Qed.

Lemma defaultInputFieldConfigMerger_unfold candidates :
  defaultInputFieldConfigMerger candidates =
    match List.filter inputMarksField candidates with
    | _ :: _ :: _ =>
        match head candidates with
        | Some first =>
            Err (MultipleCanonicalError
                   (name (common (ifcc_type first)) +:+ "." +:+ ifcc_fieldName first))
        | None => Err LastCandidateRequired
        end
    | [c] => Ok (inputFieldConfig c)
    | [] =>
        match List.filter inputTypeIsCanonical candidates with
        | c :: _ => Ok (inputFieldConfig c)
        | [] =>
            match last candidates with
            | Some c => Ok (inputFieldConfig c)
            | None => Err LastCandidateRequired
            end
        end
    end.
Proof.
  unfold defaultInputFieldConfigMerger. rewrite input_tally. simpl.
  destruct (List.filter inputMarksField candidates) as [|c1 [|c2 rest]] eqn:Hfield; simpl.
  - change inputOnlyByType with (fun x => inputTypeIsCanonical x && negb (inputMarksField x)).
    rewrite (filter_filter_nil inputMarksField inputTypeIsCanonical candidates Hfield).
    by destruct (List.filter inputTypeIsCanonical candidates).
  - reflexivity.
  - destruct candidates as [|first candidates]; [discriminate|reflexivity].
Qed.

(** The default input-field merger on candidates for the input field [f] of
    the type [T]: the empty list is an error; two or more eligible candidates
    that mark the field canonical are the multiple-canonical error naming
    [T.f]; exactly one gives its config; otherwise the first eligible
    candidate whose type is canonical does, and failing that the last
    candidate.  The config returned is that of a candidate, as it is. *)
Theorem input_field_ladder (T f : string)
    (candidates : list MergeInputFieldConfigCandidate) :
  Forall (fun c => name (common (ifcc_type c)) = T /\ ifcc_fieldName c = f) candidates ->
  defaultInputFieldConfigMerger [] = Err LastCandidateRequired /\
  (2 <= length (List.filter inputMarksField candidates) ->
     defaultInputFieldConfigMerger candidates
     = Err (MultipleCanonicalError (T +:+ "." +:+ f))) /\
  (forall c,
     List.filter inputMarksField candidates = [c] ->
     defaultInputFieldConfigMerger candidates = Ok (inputFieldConfig c)) /\
  (forall c rest,
     List.filter inputMarksField candidates = [] ->
     List.filter inputTypeIsCanonical candidates = c :: rest ->
     defaultInputFieldConfigMerger candidates = Ok (inputFieldConfig c)) /\
  (forall c,
     List.filter inputMarksField candidates = [] ->
     List.filter inputTypeIsCanonical candidates = [] ->
     last candidates = Some c ->
     defaultInputFieldConfigMerger candidates = Ok (inputFieldConfig c)) /\
  (forall r,
     defaultInputFieldConfigMerger candidates = Ok r ->
     r ∈ inputFieldConfig <$> candidates).
Proof.
  intros Hnames. split; [reflexivity|].
  rewrite defaultInputFieldConfigMerger_unfold.
  assert (forall (g : MergeInputFieldConfigCandidate -> bool) c rest,
            List.filter g candidates = c :: rest ->
            inputFieldConfig c ∈ inputFieldConfig <$> candidates) as Hfiltered.
  { intros g c rest Hg. apply list_elem_of_fmap. exists c. split; [done|].
    assert (c ∈ List.filter g candidates) as Hin by (rewrite Hg; left).
    by apply filter_elem_of in Hin as [? _]. }
  repeat split.
  - intros Hmany.
    destruct (List.filter inputMarksField candidates) as [|c1 [|c2 rest]] eqn:Hfield;
      [simpl in Hmany; lia..|].
    destruct candidates as [|first candidates]; [discriminate Hfield|]. simpl.
    apply Forall_cons in Hnames as [[HT Hf] _]. by rewrite HT, Hf.
  - by intros c ->.
  - by intros c rest -> ->.
  - by intros c -> -> ->.
  - intros r.
    destruct (List.filter inputMarksField candidates) as [|c1 [|c2 rest]] eqn:Hfield.
    + destruct (List.filter inputTypeIsCanonical candidates) as [|c rest] eqn:Htype.
      * destruct (last candidates) as [c|] eqn:Hlast; [|discriminate].
        intros [= <-]. apply list_elem_of_fmap. exists c. split; [done|].
        by apply last_elem_of.
      * intros [= <-]. eauto.
    + intros [= <-]. eauto.
    + by destruct (head candidates).
Qed.

Lemma input_field_ladder_witness :
  let A := barInputCandidate "a" (canonicalConfig "Foo") in
  let B := barInputCandidate "b" (canonicalFieldConfig "Foo" "bar") in
  let C := barInputCandidate "c" plainConfig in
  defaultInputFieldConfigMerger [B; A; B] = Err (MultipleCanonicalError "Foo.bar") /\
  defaultInputFieldConfigMerger [A; B; C] = Ok (inputFieldConfig B) /\
  defaultInputFieldConfigMerger [A; A; C] = Ok (inputFieldConfig A) /\
  defaultInputFieldConfigMerger [C; C] = Ok (inputFieldConfig C).
Proof.
  intros A B C.
  destruct (input_field_ladder "Foo" "bar" [B; A; B] ltac:(repeat constructor))
    as (_ & Hmany & _).
  destruct (input_field_ladder "Foo" "bar" [A; B; C] ltac:(repeat constructor))
    as (_ & _ & Hone & _).
  destruct (input_field_ladder "Foo" "bar" [A; A; C] ltac:(repeat constructor))
    as (_ & _ & _ & Htype & _).
  destruct (input_field_ladder "Foo" "bar" [C; C] ltac:(repeat constructor))
    as (_ & _ & _ & _ & Hlast & _).
  split; [apply Hmany; simpl; lia|].
  split; [by apply Hone|].
  split; [by apply (Htype A [A])|by apply Hlast].
Defined.

Lemma countAll_get (k : string) (acc : obj nat) (names : list string) :
  obj_get k (countAll acc names) =
    match obj_get k acc, length (List.filter (fun k' => bool_decide (k' = k)) names) with
    | None, 0 => None
    | o, n => Some (default 0 o + n)
    end.
Proof.
  revert acc. induction names as [|k' names IH]; intros acc; simpl.
  - destruct (obj_get k acc); simpl; [f_equal; lia|done].
  - fold (countAll (obj_set k' (default 0 (obj_get k' acc) + 1) acc) names).
    rewrite IH, obj_get_set.
    destruct (decide (k' = k)) as [->|Hne].
    + rewrite bool_decide_eq_true_2 by done. simpl.
      destruct (obj_get k acc); simpl; f_equal; lia.
    + by rewrite bool_decide_eq_false_2 by done.
Qed.

Lemma fieldInclusionMap_countAll (candidates : list MergeTypeCandidate) :
  fieldInclusionMap candidates
  = countAll [] (candidates ≫= fun c => Object_keys (type_inputFields (type c))).
Proof.
  unfold fieldInclusionMap. generalize ([] : obj nat).
  induction candidates as [|c candidates IH]; intros acc; simpl; [reflexivity|].
  unfold countAll. rewrite foldl_app. fold countAll. rewrite IH. f_equal. clear IH.
  revert acc. induction (type_inputFields (type c)) as [|[k v] l IHl]; intros acc; simpl;
    [reflexivity|apply IHl].
Qed.

Lemma count_name_once (k : string) (names : list string) :
  NoDup names ->
  length (List.filter (fun k' => bool_decide (k' = k)) names)
  = if bool_decide (k ∈ names) then 1 else 0.
Proof.
  induction 1 as [|k' names Hfresh _ IH]; simpl; [reflexivity|].
  destruct (decide (k' = k)) as [->|Hne].
  - rewrite bool_decide_eq_true_2 by done. simpl. rewrite IH.
    rewrite (bool_decide_eq_false_2 (k ∈ names)) by done.
    by rewrite bool_decide_eq_true_2 by left.
  - rewrite bool_decide_eq_false_2 by done. rewrite IH.
    destruct (decide (k ∈ names)).
    + rewrite !bool_decide_eq_true_2; [done|by right|done].
    + rewrite !bool_decide_eq_false_2; [done| |done].
      intros [->|?]%elem_of_cons; done.
Qed.

(** When each candidate's dictionary of input fields has distinct keys, the
    inclusion count of a field name is the number of candidates that define
    the field, and a name that no candidate defines has no count. *)
Theorem field_inclusion_counts (candidates : list MergeTypeCandidate) (k : string) :
  Forall (fun c => obj_wf (type_inputFields (type c))) candidates ->
  obj_get k (fieldInclusionMap candidates) =
    match length (List.filter (definesInput k) candidates) with
    | 0 => None
    | n => Some n
    end.
Proof.
  intros Hwf. rewrite fieldInclusionMap_countAll, countAll_get. simpl.
  assert (length (List.filter (fun k' => bool_decide (k' = k))
                    (candidates ≫= fun c => Object_keys (type_inputFields (type c))))
          = length (List.filter (definesInput k) candidates)) as ->.
  { induction Hwf as [|c candidates Hc _ IH]; [reflexivity|].
    rewrite bind_cons, List.filter_app, length_app, IH, (count_name_once k _ Hc).
    simpl. unfold definesInput at 2. by destruct (bool_decide _). }
  by destruct (length _).
Qed.

Lemma field_inclusion_counts_witness :
  let mk id fields :=
    {| cand_id := id;
       type := {| common := sampleCommon "Foo" "a" [];
                  payload :=
                    InputObjectPayload
                      ((fun k => (k, {| ifc_type := StringType; ifc_description := None;
                                         ifc_astNode := None |})) <$> fields) |};
       subschema := None; transformedSubschema := plainConfig |} in
  obj_get "x" (fieldInclusionMap [mk 1 ["x"; "y"]; mk 2 ["x"]]) = Some 2 /\
  obj_get "y" (fieldInclusionMap [mk 1 ["x"; "y"]; mk 2 ["x"]]) = Some 1 /\
  obj_get "z" (fieldInclusionMap [mk 1 ["x"; "y"]; mk 2 ["x"]]) = None.
Proof.
  intros mk.
  assert (Forall (fun c => obj_wf (type_inputFields (type c)))
            [mk 1 ["x"; "y"]; mk 2 ["x"]]) as Hwf.
  { repeat constructor; unfold obj_wf; refine (bool_decide_unpack _ _);
      vm_compute; exact I. }
  rewrite !(field_inclusion_counts _ _ Hwf). repeat split.
Defined.

(** The merge of the input fields succeeds only after the input-object
    validator has accepted the inclusion counts, and its rejection is the
    error of the merge whatever the fields are.  The merged dictionary has one
    entry for each input-field name that some candidate defines, and the entry
    of a name is the merge, accepted by the input-field validator, of the
    candidates that define the field. *)
Theorem input_field_map_entries (ext : Collaborators)
    (candidates : list MergeTypeCandidate) (opts : option TypeMergingOptions) :
  (forall e,
     validateInputObjectConsistency ext (fieldInclusionMap candidates) candidates opts
     = Err e ->
     inputFieldConfigMapFromTypeCandidates ext candidates opts = Err e) /\
  (forall fields,
     inputFieldConfigMapFromTypeCandidates ext candidates opts = Ok fields ->
     validateInputObjectConsistency ext (fieldInclusionMap candidates) candidates opts
     = Ok tt /\
     obj_wf fields /\
     (forall k, k ∈ Object_keys fields <->
                exists c, c ∈ candidates /\ k ∈ Object_keys (type_inputFields (type c))) /\
     (forall k v,
        obj_get k fields = Some v ->
        mergeInputField ext opts
          (membersNamed type_inputFields inputFieldConfigCandidate k candidates)
        = Ok v)).
Proof.
  unfold inputFieldConfigMapFromTypeCandidates. split.
  - by intros e ->.
  - intros fields Hmerge. apply bind_Ok in Hmerge as ([] & Hvalid & Hmerge).
    split; [exact Hvalid|].
    apply mergeEach_Ok in Hmerge; [|apply candidatesMap_wf].
    pose proof (merged_keys _ _ _ Hmerge) as Hkeys.
    split; [unfold obj_wf; rewrite Hkeys; apply candidatesMap_wf|].
    split; [intros k; rewrite Hkeys; apply candidatesMap_keys|].
    intros k v Hget.
    destruct (merged_get _ _ _ k v Hmerge Hget) as (cs & Hcs & Hv).
    apply candidatesMap_entry in Hcs as [-> _]. exact Hv.
Qed.

Lemma input_field_map_entries_witness :
  let mk id about fields :=
    {| cand_id := id;
       type := {| common := sampleCommon "Foo" about [];
                  payload :=
                    InputObjectPayload
                      ((fun k => (k, {| ifc_type := StringType;
                                         ifc_description := Some about;
                                         ifc_astNode := None |})) <$> fields) |};
       subschema := None; transformedSubschema := plainConfig |} in
  exists fields,
    inputFieldConfigMapFromTypeCandidates permissive
      [mk 1 "a" ["x"; "y"]; mk 2 "b" ["x"]] None = Ok fields /\
    Object_keys fields = ["x"; "y"] /\
    (ifc_description <$> obj_get "x" fields) = Some (Some "b").
Proof.
  intros mk.
  assert (exists fields,
            inputFieldConfigMapFromTypeCandidates permissive
              [mk 1 "a" ["x"; "y"]; mk 2 "b" ["x"]] None = Ok fields)
    as [fields Hf] by (eexists; reflexivity).
  exists fields. split; [exact Hf|].
  destruct (proj2 (input_field_map_entries permissive _ None) fields Hf)
    as (_ & _ & _ & _).
  vm_compute in Hf. injection Hf as <-. split; reflexivity.
Defined.

(** ** Canonical field names *)

Lemma obj_set_keys {V : Type} (k k' : string) (v : V) (o : obj V) :
  k' ∈ Object_keys (obj_set k v o) <-> k' ∈ Object_keys o \/ k' = k.
Proof.
  destruct (decide (k ∈ Object_keys o)) as [Hin|Hfresh].
  - rewrite obj_set_keys_present by done. split; [by left|]. by intros [?| ->].
  - rewrite obj_set_fresh, keys_snoc, elem_of_app, list_elem_of_singleton by done.
    reflexivity.
Qed.

Lemma setAll_wf (acc : obj bool) (names : list string) :
  obj_wf acc -> obj_wf (setAll acc names).
Proof.
  revert acc. induction names as [|k names IH]; intros acc Hwf; simpl; [done|].
  apply IH. by apply obj_wf_set.
Qed.

Lemma setAll_keys (acc : obj bool) (names : list string) (k : string) :
  k ∈ Object_keys (setAll acc names) <-> k ∈ Object_keys acc \/ k ∈ names.
Proof.
  revert acc. induction names as [|k' names IH]; intros acc; simpl.
  - split; [by left|]. intros [?|H]; [done|by apply elem_of_nil in H].
  - fold (setAll (obj_set k' true acc) names). rewrite IH, obj_set_keys, elem_of_cons.
    tauto.
Qed.

Lemma canonicalFieldNamesForType_setAll (candidates : list MergeTypeCandidate) :
  canonicalFieldNamesForType candidates
  = Object_keys (setAll [] (candidates ≫= fieldsMarkedBy)).
Proof.
  unfold canonicalFieldNamesForType. f_equal. generalize ([] : obj bool).
  induction candidates as [|c candidates IH]; intros acc; simpl; [reflexivity|].
  unfold setAll. rewrite foldl_app. fold setAll. rewrite IH. f_equal. clear IH.
  unfold fieldsMarkedBy.
  destruct (isSubschemaConfig (transformedSubschema c)); simpl; [|reflexivity].
  destruct (s ← transformedSubschema c; m ← merge s; obj_get (typeName_of c) m)
    as [mergeConfig|]; [|reflexivity].
  destruct (mtc_fields mergeConfig) as [fields|]; [|reflexivity].
  destruct (truthy (mtc_canonical mergeConfig)); [reflexivity|].
  revert acc. induction fields as [|[k mf] fields IHf]; intros acc; simpl; [reflexivity|].
  destruct (truthy (mfc_canonical mf)); simpl; apply IHf.
Qed.

Lemma fieldsMarkedBy_spec (c : MergeTypeCandidate) (k : string) :
  k ∈ fieldsMarkedBy c <-> marksOnlyField c k.
Proof.
  unfold fieldsMarkedBy, marksOnlyField.
  destruct (isSubschemaConfig (transformedSubschema c)); simpl.
  2:{ split; [by intros H%elem_of_nil|]. by intros (? & ? & ? & ? & _). }
  destruct (s ← transformedSubschema c; m ← merge s; obj_get (typeName_of c) m)
    as [mergeConfig|].
  2:{ split; [by intros H%elem_of_nil|]. by intros (? & ? & ? & _ & ? & _). }
  destruct (mtc_fields mergeConfig) as [fields|] eqn:Hfields.
  2:{ split; [by intros H%elem_of_nil|].
      intros (? & ? & ? & _ & [= <-] & _ & ? & _). congruence. }
  destruct (truthy (mtc_canonical mergeConfig)) eqn:Hcanonical.
  { split; [by intros H%elem_of_nil|].
    intros (? & ? & ? & _ & [= <-] & ? & _). congruence. }
  rewrite list_elem_of_fmap. split.
  - intros ([k' mf] & -> & [Hin Hmf]%filter_elem_of).
    exists mergeConfig, fields, mf. repeat split; done.
  - intros (mc & fs & mf & _ & [= <-] & _ & Hfs & Hin & Hmf).
    rewrite Hfields in Hfs. injection Hfs as <-.
    exists (k, mf). split; [done|]. by apply filter_elem_of.
Qed.

(** The canonical field names of a list of candidates hold no name twice,
    and hold a name exactly when some candidate that is eligible, and not
    canonical as a whole type, marks the field canonical. *)
Theorem canonical_field_names (candidates : list MergeTypeCandidate) :
  NoDup (canonicalFieldNamesForType candidates) /\
  forall k, k ∈ canonicalFieldNamesForType candidates <->
            exists c, c ∈ candidates /\ marksOnlyField c k.
Proof.
  rewrite canonicalFieldNamesForType_setAll. split.
  - apply setAll_wf, NoDup_nil_2.
  - intros k. rewrite setAll_keys, list_elem_of_bind. split.
    + intros [H|(c & Hk & Hc)]; [by apply elem_of_nil in H|].
      exists c. split; [done|]. by apply fieldsMarkedBy_spec.
    + intros (c & Hc & Hk). right. exists c. split; [|done].
      by apply fieldsMarkedBy_spec.
Qed.

Lemma canonical_field_names_witness :
  let A := fooCandidate 1 "a" StringType [] [] (canonicalFieldConfig "Foo" "bar") in
  let B := fooCandidate 2 "b" StringType [] [] (canonicalFieldConfig "Foo" "bar") in
  let C := fooCandidate 3 "c" StringType [] [] (canonicalConfig "Foo") in
  canonicalFieldNamesForType [A; C; B] = ["bar"] /\
  exists c, c ∈ [A; C; B] /\ marksOnlyField c "bar".
Proof.
  intros A B C. split; [reflexivity|].
  apply (proj2 (canonical_field_names [A; C; B])). rewrite list_elem_of_In. by left.
Defined.

(** ** Member types of a union and interfaces of an interface *)

Lemma unionTypeConfigs_Ok (candidates : list MergeTypeCandidate)
    (acc typeConfigs : list (list TypeRef)) :
  foldlM (fun acc candidate =>
            if decide (category (type candidate) = UnionCategory)
            then Ok (acc ++ [type_types (type candidate)])
            else Err (ExpectedUnionTypeError (typeName_of candidate)))
         acc candidates = Ok typeConfigs ->
  typeConfigs = acc ++ ((fun c => type_types (type c)) <$> candidates) /\
  Forall (fun c => category (type c) = UnionCategory) candidates.
Proof.
  revert acc. induction candidates as [|c candidates IH]; intros acc; simpl.
  - intros [= <-]. by rewrite app_nil_r.
  - case_decide as Hc; [|discriminate]. intros [-> Hall]%IH.
    split; [by rewrite <- app_assoc|by constructor].
Qed.

Lemma names_of_lists (lists : list (list TypeRef)) (n : string) :
  n ∈ ref_name <$> concat lists <-> exists refs, refs ∈ lists /\ n ∈ ref_name <$> refs.
Proof.
  rewrite list_elem_of_fmap. split.
  - intros (r & -> & (refs & Hrefs & Hr)%elem_of_concat).
    exists refs. split; [done|]. apply list_elem_of_fmap. by exists r.
  - intros (refs & Hrefs & (r & -> & Hr)%list_elem_of_fmap).
    exists r. split; [done|]. apply elem_of_concat. by exists refs.
Qed.

(** The member types of a merged union, with the candidates in the order of
    the merge: every candidate is a union, no member name occurs twice, the
    names are those of the members of some candidate, and for each name the
    reference kept is the last one of that name. *)
Theorem union_member_types (ext : Collaborators) (typeName : string)
    (candidates : list MergeTypeCandidate) (opts : option TypeMergingOptions)
    (t : GraphQLNamedType) :
  mergeUnionTypeCandidates ext typeName candidates opts = Ok t ->
  exists ordered,
    orderedTypeCandidates candidates opts = Ok ordered /\
    Forall (fun c => category (type c) = UnionCategory) ordered /\
    NoDup (ref_name <$> type_types t) /\
    (forall n, n ∈ ref_name <$> type_types t <->
               exists c, c ∈ ordered /\ n ∈ ref_name <$> type_types (type c)) /\
    (forall r, r ∈ type_types t ->
               last (List.filter (named (ref_name r))
                       (concat ((fun c => type_types (type c)) <$> ordered)))
               = Some r).
Proof.
  intros Hmerge. unfold mergeUnionTypeCandidates in Hmerge. inv_bind Hmerge.
  injection Hmerge as <-. rename a into ordered. exists ordered.
  split; [done|]. apply unionTypeConfigs_Ok in Ha1 as [-> Hall]. simpl in *.
  split; [exact Hall|]. unfold type_types at 1 3 5. simpl.
  destruct (unionByName_spec ((fun c => type_types (type c)) <$> ordered))
    as (Hnodup & Hnames & Hlast).
  split; [exact Hnodup|]. split; [|exact Hlast].
  intros n. rewrite Hnames, names_of_lists. split.
  - intros (refs & (c & -> & Hc)%list_elem_of_fmap & Hn). eauto.
  - intros (c & Hc & Hn). exists (type_types (type c)). split; [|done].
    apply list_elem_of_fmap. by exists c.
Qed.

Lemma union_member_types_witness :
  let mk id members :=
    {| cand_id := id;
       type := {| common := sampleCommon "Pet" "a" []; payload := UnionPayload members |};
       subschema := None; transformedSubschema := plainConfig |} in
  exists t,
    mergeUnionTypeCandidates permissive "Pet" [mk 1 [IfaceA; IfaceB]; mk 2 [IfaceA']] None
    = Ok t /\
    type_types t = [IfaceA'; IfaceB] /\
    NoDup (ref_name <$> type_types t).
Proof.
  intros mk.
  assert (exists t, mergeUnionTypeCandidates permissive "Pet"
                      [mk 1 [IfaceA; IfaceB]; mk 2 [IfaceA']] None = Ok t)
    as [t Ht] by (eexists; reflexivity).
  exists t. split; [exact Ht|].
  destruct (union_member_types permissive "Pet" _ None t Ht)
    as (ordered & _ & _ & Hnodup & _).
  split; [|exact Hnodup]. vm_compute in Ht. by injection Ht as <-.
Defined.

(** The interfaces of a merged interface type, with the candidates in the
    order of the merge: no interface name occurs twice, the names are those of
    the interfaces of some candidate, and for each name the reference kept is
    the last one of that name. *)
Theorem interface_type_interfaces (ext : Collaborators) (typeName : string)
    (candidates : list MergeTypeCandidate) (opts : option TypeMergingOptions)
    (t : GraphQLNamedType) :
  mergeInterfaceTypeCandidates ext typeName candidates opts = Ok t ->
  exists ordered,
    orderedTypeCandidates candidates opts = Ok ordered /\
    NoDup (ref_name <$> type_interfaces t) /\
    (forall n, n ∈ ref_name <$> type_interfaces t <->
               exists c, c ∈ ordered /\ n ∈ ref_name <$> type_interfaces (type c)) /\
    (forall r, r ∈ type_interfaces t ->
               last (List.filter (named (ref_name r))
                       (concat ((fun c => type_interfaces (type c)) <$> ordered)))
               = Some r).
Proof.
  intros Hmerge. unfold mergeInterfaceTypeCandidates in Hmerge. inv_bind Hmerge.
  injection Hmerge as <-. rename a into ordered. exists ordered.
  split; [done|]. unfold type_interfaces at 1 3 5. simpl.
  destruct (unionByName_spec ((fun c => type_interfaces (type c)) <$> ordered))
    as (Hnodup & Hnames & Hlast).
  split; [exact Hnodup|]. split; [|exact Hlast].
  intros n. rewrite Hnames, names_of_lists. split.
  - intros (refs & (c & -> & Hc)%list_elem_of_fmap & Hn). eauto.
  - intros (c & Hc & Hn). exists (type_interfaces (type c)). split; [|done].
    apply list_elem_of_fmap. by exists c.
Qed.

Lemma interface_type_interfaces_witness :
  let mk id interfaces :=
    {| cand_id := id;
       type := {| common := sampleCommon "Node" "a" [];
                  payload := InterfacePayload [] interfaces |};
       subschema := None; transformedSubschema := plainConfig |} in
  exists t,
    mergeInterfaceTypeCandidates permissive "Node" [mk 1 [IfaceB; IfaceA]; mk 2 [IfaceA']]
      None = Ok t /\
    type_interfaces t = [IfaceB; IfaceA'] /\
    NoDup (ref_name <$> type_interfaces t).
Proof.
  intros mk.
  assert (exists t, mergeInterfaceTypeCandidates permissive "Node"
                      [mk 1 [IfaceB; IfaceA]; mk 2 [IfaceA']] None = Ok t)
    as [t Ht] by (eexists; reflexivity).
  exists t. split; [exact Ht|].
  destruct (interface_type_interfaces permissive "Node" _ None t Ht)
    as (ordered & _ & Hnodup & _).
  split; [|exact Hnodup]. vm_compute in Ht. by injection Ht as <-.
Defined.

(** ** Syntax-tree nodes of a merged type *)

Lemma mergeCandidates_mergerOf ext typeName candidates opts t :
  mergeCandidates ext typeName candidates opts = Ok t ->
  exists k, mergerOf k ext typeName candidates opts = Ok t.
Proof.
  unfold mergeCandidates. destruct (existsb _ candidates); [discriminate|].
  destruct (category <$> (type <$> head candidates)) as [k|]; [|discriminate].
  intros Hmerge. exists k. by destruct k.
Qed.

Lemma mergerOf_astNode ext k typeName candidates opts t :
  mergerOf k ext typeName candidates opts = Ok t ->
  exists ordered mergeNode nodes,
    orderedTypeCandidates candidates opts = Ok ordered /\
    reduceAstNodes mergeNode nodes = Ok (astNode (common t)) /\
    (nodes = pluck astNode ordered \/
     exists fieldNodes, nodes = withFieldNodes (pluck astNode ordered) fieldNodes).
Proof.
  destruct k; simpl;
    unfold mergeObjectTypeCandidates, mergeInputObjectTypeCandidates,
      mergeInterfaceTypeCandidates, mergeUnionTypeCandidates,
      mergeEnumTypeCandidates, mergeScalarTypeCandidates;
    intros H; inv_bind H; injection H as <-; simpl;
    repeat match goal with
           | Hr : reduceAstNodes _ _ = Ok ?n |- _ =>
               do 3 eexists; split; [eassumption|]; split; [exact Hr|]; eauto
           end.
Qed.

Lemma withFieldNodes_few nodes fieldNodes :
  length nodes <= 1 -> withFieldNodes nodes fieldNodes = nodes.
Proof. intros Hfew. unfold withFieldNodes. by destruct nodes as [|n [|n' nodes]]; simpl in *; [..|lia]. Qed.

(** When at most one candidate has a syntax-tree node, the merged type has
    that node as it is, or none: no syntax-tree merge of the collaborators
    has a say, and no node of merged fields is made up. *)
Theorem single_syntax_node (ext : Collaborators) (typeName : string)
    (candidates : list MergeTypeCandidate) (opts : option TypeMergingOptions)
    (t : GraphQLNamedType) :
  mergeCandidates ext typeName candidates opts = Ok t ->
  exists ordered,
    orderedTypeCandidates candidates opts = Ok ordered /\
    (length (pluck astNode ordered) <= 1 ->
     astNode (common t) = head (pluck astNode ordered)).
Proof.
  intros [k Hk]%mergeCandidates_mergerOf.
  apply mergerOf_astNode in Hk as (ordered & mergeNode & nodes & Ho & Hreduce & Hnodes).
  exists ordered. split; [exact Ho|]. intros Hfew.
  assert (nodes = pluck astNode ordered) as ->.
  { destruct Hnodes as [->|[fieldNodes ->]]; [done|by apply withFieldNodes_few]. }
  destruct (pluck astNode ordered) as [|n [|n' rest]]; simpl in *; [..|lia];
    by injection Hreduce as <-.
Qed.

Lemma single_syntax_node_witness :
  let node := {| ast_name := "Foo"; ast_fields := []; ast_loc := 7 |} in
  let A :=
    {| cand_id := 1;
       type := {| common := {| name := "Foo"; description := None; astNode := Some node;
                               extensionASTNodes := None; extensions := None |};
                  payload := ObjectPayload [] [] |};
       subschema := None; transformedSubschema := plainConfig |} in
  let B := fooCandidate 2 "b" StringType [] [] plainConfig in
  exists t, mergeCandidates permissive "Foo" [A; B] None = Ok t /\
            astNode (common t) = Some node.
Proof.
  intros node A B.
  assert (exists t, mergeCandidates permissive "Foo" [A; B] None = Ok t)
    as [t Ht] by (eexists; reflexivity).
  exists t. split; [exact Ht|].
  destruct (single_syntax_node permissive "Foo" [A; B] None t Ht)
    as (ordered & Hordered & Hnode).
  assert (ordered = [A; B]) as -> by (vm_compute in Hordered; by injection Hordered).
  apply Hnode. simpl. lia.
Defined.

(** The [extensionASTNodes] of a merged type has one entry for each candidate,
    in the order of the merge, whose own list is not null, and the entry is
    that candidate's whole list: the lists are kept side by side, not
    concatenated. *)
Theorem extension_nodes_side_by_side (ext : Collaborators) (typeName : string)
    (candidates : list MergeTypeCandidate) (opts : option TypeMergingOptions)
    (t : GraphQLNamedType) :
  mergeCandidates ext typeName candidates opts = Ok t ->
  exists ordered arrays,
    orderedTypeCandidates candidates opts = Ok ordered /\
    extensionASTNodes (common t) = Some arrays /\
    length arrays = length (List.filter hasExtensionNodes ordered) /\
    Forall2 (fun item c =>
               exists items, item = ExtensionArray items /\
                             extensionASTNodes (common (type c)) = Some items)
            arrays (List.filter hasExtensionNodes ordered).
Proof.
  intros (ordered & d & node & Hordered & _ & Hcommon)%mergeCandidates_shape.
  exists ordered, (ExtensionArray <$> pluck extensionASTNodes ordered).
  split; [exact Hordered|]. split; [by rewrite Hcommon|].
  assert (Forall2 (fun item c =>
                     exists items, item = ExtensionArray items /\
                                   extensionASTNodes (common (type c)) = Some items)
            (ExtensionArray <$> pluck extensionASTNodes ordered)
            (List.filter hasExtensionNodes ordered)) as Hall.
  { clear. unfold pluck. induction ordered as [|c ordered IH]; simpl; [constructor|].
    unfold hasExtensionNodes at 1.
    destruct (extensionASTNodes (common (type c))) as [items|] eqn:Hitems; simpl.
    - constructor; [eauto|exact IH].
    - exact IH. }
  split; [by apply Forall2_length in Hall|exact Hall].
Qed.

Lemma extension_nodes_side_by_side_witness :
  let mk id nodes :=
    {| cand_id := id;
       type := {| common := {| name := "Foo"; description := None; astNode := None;
                               extensionASTNodes := Some nodes; extensions := None |};
                  payload := ObjectPayload [] [] |};
       subschema := None; transformedSubschema := plainConfig |} in
  let A := mk 1 [ExtensionNode "Foo" 1; ExtensionNode "Foo" 2] in
  let B := mk 2 [ExtensionNode "Foo" 3] in
  exists t,
    mergeCandidates permissive "Foo" [A; B] None = Ok t /\
    extensionASTNodes (common t)
    = Some [ExtensionArray [ExtensionNode "Foo" 1; ExtensionNode "Foo" 2];
            ExtensionArray [ExtensionNode "Foo" 3]].
Proof.
  intros mk A B.
  assert (exists t, mergeCandidates permissive "Foo" [A; B] None = Ok t)
    as [t Ht] by (eexists; reflexivity).
  exists t. split; [exact Ht|].
  destruct (extension_nodes_side_by_side permissive "Foo" [A; B] None t Ht)
    as (ordered & arrays & _ & _ & _ & _).
  vm_compute in Ht. by injection Ht as <-.
Defined.

(** * Properties of the plugins *)

(** ** The Prometheus labels *)

Lemma filterHeaders_keys (names : list string) (headers : obj string) :
  Object_keys (filterHeaders (HeaderAllowList names) headers)
  = List.filter (fun k => bool_decide (k ∈ names)) (Object_keys headers).
Proof.
  unfold Object_keys. simpl.
  induction headers as [|[k v] headers IH]; simpl; [done|].
  destruct (bool_decide (k ∈ names)); simpl; by rewrite IH.
Qed.

Lemma filterHeaders_get (names : list string) (headers : obj string) (k : string) :
  obj_get k (filterHeaders (HeaderAllowList names) headers)
  = if bool_decide (k ∈ names) then obj_get k headers else None.
Proof.
  simpl. induction headers as [|[k0 v0] headers IH]; simpl.
  - by destruct (bool_decide (k ∈ names)).
  - destruct (decide (k0 = k)) as [->|Hne].
    + destruct (bool_decide (k ∈ names)) eqn:Hk; simpl.
      * by rewrite decide_True.
      * by rewrite IH.
    + destruct (bool_decide (k0 ∈ names)); simpl; [|exact IH].
      by rewrite decide_False.
Qed.

(** An allow list keeps the headers it names, in their order and with
    their values, and drops every other header; an option that is no list
    keeps all the headers. *)
Theorem allow_list_keeps_listed_headers (names : list string) (headers : obj string) :
  Object_keys (filterHeaders (HeaderAllowList names) headers)
  = List.filter (fun k => bool_decide (k ∈ names)) (Object_keys headers)
  /\ (forall k, obj_get k (filterHeaders (HeaderAllowList names) headers)
                = if bool_decide (k ∈ names) then obj_get k headers else None)
  /\ filterHeaders (HeaderAllowList names) (filterHeaders (HeaderAllowList names) headers)
     = filterHeaders (HeaderAllowList names) headers
  /\ forall enabled, filterHeaders (HeaderFlag enabled) headers = headers.
Proof.
  split; [apply filterHeaders_keys|].
  split; [apply filterHeaders_get|].
  split; [|done].
  simpl. induction headers as [|[k v] headers IH]; simpl; [done|].
  destruct (bool_decide (k ∈ names)) eqn:Hk; simpl; [|exact IH].
  by rewrite Hk, IH.
Qed.

(** An allow list that names every header of the request leaves the
    headers as they are, and one that names none of them leaves no header. *)
Theorem allow_list_covering (names : list string) (headers : obj string) :
  (Forall (fun k => k ∈ names) (Object_keys headers) ->
   filterHeaders (HeaderAllowList names) headers = headers)
  /\ (Forall (fun k => k ∉ names) (Object_keys headers) ->
      filterHeaders (HeaderAllowList names) headers = []).
Proof.
  unfold Object_keys. simpl. split.
  - induction headers as [|[k v] headers IH]; simpl; [done|].
    intros Hall. apply Forall_cons in Hall as [Hk Hall]. simpl in Hk.
    rewrite bool_decide_eq_true_2 by done. by rewrite IH.
  - induction headers as [|[k v] headers IH]; simpl; [done|].
    intros Hall. apply Forall_cons in Hall as [Hk Hall]. simpl in Hk.
    rewrite bool_decide_eq_false_2 by done. by apply IH.
Qed.

Lemma allow_list_covering_witness :
  filterHeaders (HeaderAllowList ["accept"; "host"]) [("host", "a"); ("accept", "b")]
  = [("host", "a"); ("accept", "b")]
  /\ filterHeaders (HeaderAllowList ["cookie"]) [("host", "a"); ("accept", "b")] = [].
Proof.
  split.
  - apply (proj1 (allow_list_covering ["accept"; "host"] [("host", "a"); ("accept", "b")])).
    simpl. repeat constructor; refine (bool_decide_unpack _ _); vm_compute; exact I.
  - apply (proj2 (allow_list_covering ["cookie"] [("host", "a"); ("accept", "b")])).
    simpl. repeat constructor; refine (bool_decide_unpack _ _); vm_compute; exact I.
Defined.

(** The two header labels are declared for the fetch histogram whatever
    the options say, and a second time each when enabled: the declared names
    are pairwise distinct exactly when neither is enabled. *)
Theorem header_labels_declared (labels : option LabelOptions) :
  "requestHeaders" ∈ fetchLabelNames labels
  /\ "responseHeaders" ∈ fetchLabelNames labels
  /\ length (fetchLabelNames labels)
     = 6 + (if labelEnabled (labels ≫= fetchRequestHeaders) then 1 else 0)
         + (if labelEnabled (labels ≫= fetchResponseHeaders) then 1 else 0)
  /\ bool_decide (NoDup (fetchLabelNames labels))
     = negb (labelEnabled (labels ≫= fetchRequestHeaders))
       && negb (labelEnabled (labels ≫= fetchResponseHeaders)).
Proof.
  unfold fetchLabelNames.
  destruct (labelEnabled (labels ≫= fetchRequestHeaders)),
           (labelEnabled (labels ≫= fetchResponseHeaders));
    (split; [refine (bool_decide_unpack _ _); vm_compute; exact I|]);
    (split; [refine (bool_decide_unpack _ _); vm_compute; exact I|]);
    split; vm_compute; reflexivity.
Qed.

Ltac decide_closed := refine (bool_decide_unpack _ _); vm_compute; exact I.

(** The label function of the fetch histogram throws exactly when the
    request has no method or an empty one.  Otherwise it fills the url, the
    method, the status code and the status text, a header label exactly when
    its option is enabled, and no label outside the declared names. *)
Theorem fetch_labels_filled (stringify : obj string -> string)
    (labels : option LabelOptions) (p : FetchParams) :
  match fetchLabels stringify labels p with
  | Threw message =>
      (fp_method p = None \/ fp_method p = Some EmptyString)
      /\ message = "Request method is missing from the options"
  | Returned filled =>
      (exists method, fp_method p = Some method /\ method <> EmptyString
                      /\ obj_get "method" filled = Some (LabelText method))
      /\ obj_get "url" filled = Some (LabelText (fp_url p))
      /\ obj_get "statusCode" filled = Some (LabelNumber (fp_status p))
      /\ obj_get "statusText" filled = Some (LabelText (fp_statusText p))
      /\ obj_get "requestHeaders" filled
         = (labels ≫= fetchRequestHeaders) ≫= (fun allowList =>
             if labelEnabled (Some allowList)
             then Some (LabelText (stringify (filterHeaders allowList
                                                (default [] (fp_headers p)))))
             else None)
      /\ obj_get "responseHeaders" filled
         = (labels ≫= fetchResponseHeaders) ≫= (fun allowList =>
             if labelEnabled (Some allowList)
             then Some (LabelText (stringify (filterHeaders allowList
                                                (fp_responseHeaders p))))
             else None)
      /\ Forall (fun k => k ∈ fetchLabelNames labels) (Object_keys filled)
      /\ obj_wf filled
  end.
Proof.
  unfold fetchLabels. destruct (fp_method p) as [method|] eqn:Hmethod.
  2: { split; [by left|done]. }
  destruct (decide (method = EmptyString)) as [->|Hne].
  { split; [by right|done]. }
  split; [exists method; split; [done|split; [done|]]|].
  - destruct (labels ≫= fetchRequestHeaders) as [[[]|]|],
             (labels ≫= fetchResponseHeaders) as [[[]|]|]; reflexivity.
  - unfold fetchLabelNames, obj_wf.
    destruct (labels ≫= fetchRequestHeaders) as [[[]|]|],
             (labels ≫= fetchResponseHeaders) as [[[]|]|];
      (repeat (split; [reflexivity|])); simpl;
      (split; [repeat constructor; decide_closed|decide_closed]).
Qed.

Lemma inc_lookup `{Countable L} (labels labels' : L) (series : gmap L nat) :
  default 0 (inc labels series !! labels')
  = default 0 (series !! labels') + (if bool_decide (labels' = labels) then 1 else 0).
Proof.
  unfold inc. case_bool_decide as Heq.
  - subst. rewrite lookup_insert_eq. simpl. lia.
  - rewrite lookup_insert_ne by congruence. lia.
Qed.

Lemma onResult_counts `{Countable L} {C E : Type} (c : ErrorCounter C L)
    (payload : OnSubgraphExecutePayload C) (context : option C) (errors : list E)
    (series : gmap L nat) (labels : L) :
  default 0 (onResult (Some c) payload context (Some errors) series !! labels)
  = default 0 (series !! labels)
    + (if shouldObserve c payload context
          && bool_decide (labels = fillLabelsFn c payload context)
       then length errors else 0).
Proof.
  unfold onResult. revert series. induction errors as [|e errors IH]; intros series; simpl.
  - destruct (shouldObserve c payload context && _); lia.
  - rewrite IH. destruct (shouldObserve c payload context); simpl; [|lia].
    rewrite inc_lookup. case_bool_decide; lia.
Qed.

(** The subgraph-execute hook on an execution result.  On a request without
    a context object it throws before anything is counted, with the counter
    or with the histogram alone.  Otherwise, with the counter, it adds one to
    the series of the payload's label set for each error of the result when
    the counter observes the payload in the context of the request, and
    changes no other series; a payload that is not observed and a result
    without errors change nothing.  A stream is handed back its handlers, and
    without histogram and counter there is no hook. *)
Theorem error_counter_counts_errors `{Countable L} {C E : Type} (c : ErrorCounter C L)
    (histogram : bool) (payload : OnSubgraphExecutePayload C)
    (errors : option (list E)) (series : gmap L nat) :
  match Prometheus.onSubgraphExecute histogram (Some c) payload (ExecutionResult errors)
          series with
  | Some (HookHandled counted) =>
      exists context,
        payload_requestContext payload = Some context /\
        forall labels,
          default 0 (counted !! labels)
          = default 0 (series !! labels)
            + (if shouldObserve c payload context
                  && bool_decide (labels = fillLabelsFn c payload context)
               then length (default [] errors) else 0)
  | Some HookThrew => payload_requestContext payload = None
  | _ => False
  end
  /\ Prometheus.onSubgraphExecute true (@None (ErrorCounter C L)) payload
       (ExecutionResult errors) series
     = match payload_requestContext payload with
       | Some _ => Some (HookHandled series)
       | None => Some HookThrew
       end
  /\ Prometheus.onSubgraphExecute histogram (Some c) payload (@AsyncIterableResult E)
       series
     = match payload_requestContext payload with
       | Some _ => Some (HookHandlers series)
       | None => Some HookThrew
       end
  /\ Prometheus.onSubgraphExecute false (@None (ErrorCounter C L)) payload
       (ExecutionResult errors) series = None.
Proof.
  unfold Prometheus.onSubgraphExecute.
  rewrite (bool_decide_eq_true_2 (is_Some (Some c))) by eauto.
  rewrite orb_true_r. simpl.
  destruct (payload_requestContext payload) as [context|]; [|done].
  repeat split. exists context. split; [reflexivity|]. intros labels.
  destruct errors as [errors|]; simpl.
  - apply onResult_counts.
  - destruct (_ && _); lia.
Qed.

(** ** The HMAC plugins *)

Lemma orElse_nonempty (value : option string) (fallback : string) :
  fallback <> EmptyString -> orElse value fallback <> EmptyString.
Proof.
  intros Hfallback. unfold orElse. destruct value as [s|]; [|done].
  by case_decide.
Qed.

Lemma cachedKey_cacheOf (rt : Runtime) (secret : string) (usages : list string)
    (cache : option CryptoKey) :
  cacheOf rt secret usages cache ->
  cachedKey rt secret usages cache = createCryptoKey rt secret usages.
Proof. by intros [->| ->]. Qed.

Lemma keyImports_cached (rt : Runtime) (secret : string) (usages : list string)
    (cache : option CryptoKey) :
  keyImports (Some (cachedKey rt secret usages cache)) = 0.
Proof. reflexivity. Qed.

(** A call on a cache of the plugin gives the verdict of a fresh plugin,
    leaves a cache of the plugin, and imports a key exactly when it fills an
    empty cache. *)
Lemma onParamsCounted_cached (rt : Runtime)
    (options : HMACUpstreamSignatureValidationOptions)
    (cache : option CryptoKey) (params : GraphQLParams) :
  cacheOf rt (hv_secret options) ["verify"] cache ->
  (onParamsCounted rt options cache params).1.1
  = (onParamsCounted rt options None params).1.1
  /\ cacheOf rt (hv_secret options) ["verify"] (onParamsCounted rt options cache params).1.2
  /\ (onParamsCounted rt options cache params).2
     = importsBetween cache (onParamsCounted rt options cache params).1.2.
Proof.
  intros Hcache. unfold onParamsCounted.
  rewrite (cachedKey_cacheOf _ _ _ cache Hcache).
  change (cachedKey rt (hv_secret options) ["verify"] None)
    with (createCryptoKey rt (hv_secret options) ["verify"]).
  destruct (gp_extensions params ≫= _) as [[extension|member]|]; simpl;
    [destruct (jsTruthy extension); simpl;
       [destruct (atob rt extension) as [sigBuf|message]; simpl;
          [destruct (verify rt _ sigBuf _); simpl|]|]
    |destruct (atobMember rt member) as [sigBuf|message]; simpl;
       [destruct (verify rt _ sigBuf _); simpl|]
    |];
    (split; [reflexivity|]); (split; [first [exact Hcache|by right]|]);
    by destruct cache.
Qed.

(** Over any sequence of requests to one validation plugin, each verdict is
    the one a fresh plugin gives, the plugin ends with no key or with the key
    of its secret, and [createCryptoKey] is called at most once: once when
    the plugin ends with a key, and not at all otherwise. *)
Theorem validation_key_is_kept (rt : Runtime)
    (options : HMACUpstreamSignatureValidationOptions) (requests : list GraphQLParams) :
  (validateAll rt options None requests).1.1
  = (fun params => (onParams rt options None params).1) <$> requests
  /\ cacheOf rt (hv_secret options) ["verify"] (validateAll rt options None requests).1.2
  /\ (validateAll rt options None requests).2
     = importsBetween None (validateAll rt options None requests).1.2.
Proof.
  assert (forall cache, cacheOf rt (hv_secret options) ["verify"] cache ->
            (validateAll rt options cache requests).1.1
            = (fun params => (onParams rt options None params).1) <$> requests
            /\ cacheOf rt (hv_secret options) ["verify"]
                 (validateAll rt options cache requests).1.2
            /\ (validateAll rt options cache requests).2
               = importsBetween cache (validateAll rt options cache requests).1.2
            /\ (is_Some cache -> is_Some (validateAll rt options cache requests).1.2))
    as Hall.
  { induction requests as [|params rest IH]; intros cache Hcache; simpl.
    - split; [reflexivity|]. split; [exact Hcache|]. split; [by destruct cache|done].
    - destruct (onParamsCounted_cached rt options cache params Hcache)
        as (Hverdict & Hnext & Himports).
      assert (is_Some cache -> is_Some (onParamsCounted rt options cache params).1.2)
        as Hkept.
      { unfold onParamsCounted.
        destruct (gp_extensions params ≫= _) as [[extension|member]|]; simpl;
          [destruct (jsTruthy extension); simpl|..]; try done;
          [destruct (atob rt extension)|destruct (atobMember rt member)]; simpl;
          try destruct (verify rt _ _ _); simpl; eauto. }
      unfold onParams.
      destruct (onParamsCounted rt options cache params) as [[verdict cache'] imports].
      simpl in Hverdict, Hnext, Himports, Hkept.
      destruct (IH cache' Hnext) as (Hrest & Hfinal & Hcount & Hstays).
      destruct (validateAll rt options cache' rest) as [[verdicts cache''] imports'].
      simpl in *. split; [by rewrite Hverdict, Hrest|]. split; [exact Hfinal|].
      split; [|by intros Hsome; apply Hstays, Hkept].
      subst imports imports'.
      destruct cache as [k|]; destruct cache' as [k'|]; destruct cache'' as [k''|];
        try reflexivity; exfalso;
        first [by destruct (Hkept ltac:(eauto)) as [? [=]]
              |by destruct (Hstays ltac:(eauto)) as [? [=]]]. }
  destruct (Hall None) as (Hverdicts & Hcache & Hcount & _); [by left|].
  split; [exact Hverdicts|]. split; [exact Hcache|exact Hcount].
Qed.

(** A request without extensions, without an entry under the extension name
    when the name is no member of [Object.prototype], or with a falsy own
    entry, is rejected as missing its signature before any key is imported,
    and the key that the plugin holds is left as it was.  When the name is a
    member of [Object.prototype] and the extensions have no own entry under
    it, the inherited member is taken for the signature: the plugin imports
    its key, if it has none yet, and fails or not as the decoding of the
    member and the verification do. *)
Theorem missing_signature_rejected (rt : Runtime)
    (options : HMACUpstreamSignatureValidationOptions) (cache : option CryptoKey)
    (params : GraphQLParams) :
  let extensionName := orElse (hv_extensionName options) DEFAULT_EXTENSION_NAME in
  ((gp_extensions params = None
    \/ exists extensions,
         gp_extensions params = Some extensions /\
         match extensions !! extensionName with
         | Some extension => jsTruthy extension = false
         | None => extensionName ∉ Object_prototype
         end) ->
   onParamsCounted rt options cache params
   = (Threw (missingSignature extensionName), cache, 0))
  /\ (forall extensions,
        gp_extensions params = Some extensions ->
        extensions !! extensionName = None ->
        extensionName ∈ Object_prototype ->
        (onParamsCounted rt options cache params).1.2
        = Some (cachedKey rt (hv_secret options) ["verify"] cache)
        /\ (onParamsCounted rt options cache params).2 = keyImports cache
        /\ forall message,
             atobMember rt extensionName = Threw message ->
             (onParamsCounted rt options cache params).1.1 = Threw message).
Proof.
  intros extensionName. unfold onParamsCounted. fold extensionName. split.
  - intros [->|(extensions & -> & Hentry)]; [reflexivity|]. simpl. unfold getProperty.
    destruct (extensions !! extensionName) as [extension|]; [by rewrite Hentry|].
    by rewrite bool_decide_eq_false_2.
  - intros extensions -> Hnone Hmember. simpl. unfold getProperty.
    rewrite Hnone, bool_decide_eq_true_2 by exact Hmember.
    destruct (atobMember rt extensionName) as [sigBuf|message']; simpl.
    + destruct (verify rt _ sigBuf _); simpl; (repeat split); discriminate.
    + repeat split. by intros message [= <-].
Qed.

Lemma missing_signature_rejected_witness :
  onParamsCounted toyRuntime validationOptions None
    {| gp_query := Some "{ me }"; gp_variables := None;
       gp_extensions := Some {["hmac-signature" := JsString EmptyString]} |}
  = (Threw "Missing HMAC signature: extension hmac-signature not found in request.",
     None, 0)
  /\ (let options := {| hv_secret := "s3"; hv_extensionName := Some "constructor";
                        hv_serializeParams := None |} in
      let counted := onParamsCounted toyRuntime options None
                       {| gp_query := Some "{ me }"; gp_variables := None;
                          gp_extensions := Some ∅ |} in
      counted.1.2 = Some (createCryptoKey toyRuntime "s3" ["verify"])
      /\ counted.2 = 1 /\ counted.1.1 = Threw "Invalid character").
Proof.
  split.
  - apply (proj1 (missing_signature_rejected toyRuntime validationOptions None
                    {| gp_query := Some "{ me }"; gp_variables := None;
                       gp_extensions :=
                         Some {["hmac-signature" := JsString EmptyString]} |})).
    right. eexists. split; [reflexivity|]. reflexivity.
  - intros options counted.
    destruct (proj2 (missing_signature_rejected toyRuntime options None
                       {| gp_query := Some "{ me }"; gp_variables := None;
                          gp_extensions := Some ∅ |})
                    ∅ eq_refl (lookup_empty _)) as (Hkey & Himports & Hthrown).
    { refine (bool_decide_unpack _ _). vm_compute. exact I. }
    split; [exact Hkey|]. split; [exact Himports|]. by apply Hthrown.
Defined.

(** A signed request differs from the request in its extensions only:
    they hold the signature, a string, under the extension name, which is
    never empty, and every other extension as it was.  A request that is not
    to be signed is not replaced, and no key is imported for it. *)
Theorem signed_request_extensions (rt : Runtime) (options : HMACUpstreamSignatureOptions)
    (cache : option CryptoKey) (subgraphName : string) (subgraph : nat)
    (executionRequest : ExecutionRequest) :
  let extensionName := orElse (hs_extensionName options) DEFAULT_EXTENSION_NAME in
  let shouldSign := default (fun _ _ _ => true) (hs_shouldSign options) in
  extensionName <> EmptyString
  /\ match onSubgraphExecute rt options cache subgraphName subgraph executionRequest with
     | (Some signed, cache') =>
         shouldSign subgraphName subgraph executionRequest = true
         /\ er_document signed = er_document executionRequest
         /\ er_variables signed = er_variables executionRequest
         /\ er_operationName signed = er_operationName executionRequest
         /\ er_operationType signed = er_operationType executionRequest
         /\ (exists key, cache' = Some key
               /\ (cache = None \/ cache = Some key)
               /\ (er_extensions signed ≫= fun extensions => extensions !! extensionName)
                  = Some (JsString (signatureOf rt options key executionRequest)))
         /\ (forall name, name <> extensionName ->
               (er_extensions signed ≫= fun extensions => extensions !! name)
               = (er_extensions executionRequest ≫= fun extensions => extensions !! name))
     | (None, cache') =>
         shouldSign subgraphName subgraph executionRequest = false /\ cache' = cache
     end.
Proof.
  intros extensionName shouldSign.
  split; [by apply orElse_nonempty|].
  unfold onSubgraphExecute. fold extensionName. fold shouldSign.
  destruct (shouldSign subgraphName subgraph executionRequest); [|done].
  simpl. repeat (split; [reflexivity|]). split.
  - exists (cachedKey rt (hs_secret options) ["sign"] cache).
    split; [done|]. split; [destruct cache; [by right|by left]|].
    by rewrite lookup_insert_eq.
  - intros name Hname. rewrite lookup_insert_ne by congruence.
    by destruct (er_extensions executionRequest).
Qed.

(** A request signed by the signing plugin is accepted by the validation
    plugin of the same secret and extension name, when the parameters carry
    the extensions of the signed request and serialize to the text that was
    signed, and the runtime decodes what it encoded and verifies what it
    signed. *)
Theorem signed_request_validates (rt : Runtime)
    (signing : HMACUpstreamSignatureOptions)
    (validation : HMACUpstreamSignatureValidationOptions)
    (signingCache validationCache : option CryptoKey)
    (subgraphName : string) (subgraph : nat)
    (executionRequest signed : ExecutionRequest) (signingCache' : option CryptoKey)
    (params : GraphQLParams) :
  hs_secret signing = hv_secret validation ->
  orElse (hs_extensionName signing) DEFAULT_EXTENSION_NAME
  = orElse (hv_extensionName validation) DEFAULT_EXTENSION_NAME ->
  cacheOf rt (hs_secret signing) ["sign"] signingCache ->
  cacheOf rt (hv_secret validation) ["verify"] validationCache ->
  onSubgraphExecute rt signing signingCache subgraphName subgraph executionRequest
  = (Some signed, signingCache') ->
  gp_extensions params = er_extensions signed ->
  paramsSerializer rt validation params = signingSerializer rt signing executionRequest ->
  (let message := encode rt (signingSerializer rt signing executionRequest) in
   let signature := sign rt (createCryptoKey rt (hs_secret signing) ["sign"]) message in
   btoa rt signature <> EmptyString
   /\ atob rt (JsString (btoa rt signature)) = Returned signature
   /\ verify rt (createCryptoKey rt (hs_secret signing) ["verify"]) signature message = true) ->
  (onParams rt validation validationCache params).1 = Returned tt.
Proof.
  intros Hsecret Hname Hsigning Hvalidation Hsigned Hextensions Hserialized
         (Hnonempty & Hdecoded & Hverified).
  unfold onSubgraphExecute in Hsigned.
  destruct (default _ (hs_shouldSign signing) _ _ _); [|discriminate].
  injection Hsigned as <- _.
  unfold onParams, onParamsCounted. rewrite Hextensions. simpl. rewrite <- Hname.
  unfold getProperty. rewrite lookup_insert_eq. unfold signatureOf.
  rewrite (cachedKey_cacheOf _ _ _ _ Hsigning), (cachedKey_cacheOf _ _ _ _ Hvalidation).
  simpl. rewrite bool_decide_eq_false_2 by exact Hnonempty. simpl.
  rewrite Hdecoded, Hserialized, <- Hsecret, Hverified. reflexivity.
Qed.

Lemma signed_request_validates_witness :
  let signed := {| er_document := "{ me }"; er_variables := None;
                   er_extensions :=
                     Some (<["hmac-signature" := JsString "s3{ me }"]>
                             {["trace" := JsBool true]});
                   er_operationName := None; er_operationType := None |} in
  (onParams toyRuntime validationOptions None
     {| gp_query := Some "{ me }"; gp_variables := Some ∅;
        gp_extensions := er_extensions signed |}).1 = Returned tt.
Proof.
  intros signed.
  apply (signed_request_validates toyRuntime signingOptions validationOptions None None
           "accounts" 0 sampleRequest signed
           (Some (createCryptoKey toyRuntime "s3" ["sign"]))).
  - reflexivity.
  - reflexivity.
  - by left.
  - by left.
  - reflexivity.
  - reflexivity.
  - reflexivity.
  - split; [discriminate|]. split; reflexivity.
Defined.

(** The default serialization of parameters reads the query and the
    variables only, and absent variables as empty ones: parameters with the
    same query and the same variables up to that reading are signed alike. *)
Theorem params_serialized_up_to_empty_variables (rt : Runtime) (p q : GraphQLParams) :
  gp_query p = gp_query q ->
  variablesOf p = variablesOf q ->
  defaultParamsSerializer rt p = defaultParamsSerializer rt q.
Proof.
  unfold variablesOf, defaultParamsSerializer. intros -> Hvariables. f_equal.
  destruct (gp_variables p) as [vp|], (gp_variables q) as [vq|]; simpl in Hvariables;
    subst; try done; by rewrite decide_True.
Qed.

Lemma params_serialized_up_to_empty_variables_witness :
  defaultParamsSerializer toyRuntime
    {| gp_query := Some "{ me }"; gp_variables := Some ∅;
       gp_extensions := Some {["trace" := JsBool true]} |}
  = defaultParamsSerializer toyRuntime
      {| gp_query := Some "{ me }"; gp_variables := None; gp_extensions := None |}.
Proof.
  apply (params_serialized_up_to_empty_variables toyRuntime
           {| gp_query := Some "{ me }"; gp_variables := Some ∅;
              gp_extensions := Some {["trace" := JsBool true]} |}
           {| gp_query := Some "{ me }"; gp_variables := None; gp_extensions := None |});
    reflexivity.
Defined.
